(** * StorageCnchHive: read planning for Hive external tables

    A shallow embedding of [src/Storages/Hive/StorageCnchHive.cpp]:
    the hash-index heuristic on file paths, partition selection, the
    partition ceiling, lister selection, the listing orchestrator, the
    bucket resolver and pruner, and resource packaging.

    Conventions.
    - [size_t], [UInt64], [Int64] and [int] are [Z] with their ranges and
      wrap-around written out.
    - [std::string] is [string]; a position is a [size_t].
    - A C++ exception is the [Throw] result of the [Res] monad; code that
      also touches the outside world runs in [M], a state monad over
      [World] layered on [Res].
    - Classes of the repository that live in other files (metastore client,
      directory listers, partition pruner, expression actions, ...) are
      fields of [Collaborators]; they are taken to return, except constant
      evaluation in the bucket resolver, whose failure is [EXTERNAL]. *)

From Stdlib Require Import ZArith Lia Ascii String List Permutation.
From stdpp Require Import base relations list strings.

Local Open Scope Z_scope.

(** ** Exceptions *)

Module ErrorCodes.
(** The exceptions that can leave the functions modelled here.  The first
    two are raised by this file; [out_of_range] and [invalid_argument]
    are [std::stoi]'s; [BAD_GET] is [Field::safeGet]'s; [EXTERNAL] is an
    exception that a collaborator raised. *)
Inductive Error : Type :=
| TOO_MANY_PARTITIONS (current : Z) (max : Z)
| UNKNOWN_FORMAT (input_format : string)
| out_of_range
| invalid_argument
| BAD_GET
| EXTERNAL (what : string).
End ErrorCodes.
Export ErrorCodes.

Inductive Res (A : Type) : Type :=
| Ok (a : A)
| Throw (e : Error).
Arguments Ok {A} a.
Arguments Throw {A} e.

#[global] Instance Res_ret : MRet Res := fun A a => Ok a.
#[global] Instance Res_bind : MBind Res := fun A B f m =>
  match m with
  | Ok a => f a
  | Throw e => Throw e
  end.

(** ** Machine integers *)

Definition size_t_modulus : Z := 18446744073709551616.
Definition npos : Z := 18446744073709551615.
Definition INT_MAX : Z := 2147483647.

(** Unsigned 64-bit addition, as [pos + 1] on a [size_t]. *)
Definition size_t_add (a b : Z) : Z := (a + b) mod size_t_modulus.

(** Conversion of a signed value to [UInt64] (two's complement). *)
Definition to_UInt64 (v : Z) : Z := v mod size_t_modulus.

(** ** Strings *)

Definition size (s : string) : Z := Z.of_nat (String.length s).

(** [std::isdigit] in the C locale: the bytes ['0'] to ['9'], and no byte
    above 127. *)
Definition isdigit (c : ascii) : bool :=
  let n := Z.of_N (N_of_ascii c) in (48 <=? n) && (n <=? 57).

(** The suffix of [s] that starts at index [n]; empty past the end. *)
Fixpoint skip (n : nat) (s : string) : string :=
  match n, s with
  | O, _ => s
  | S n', String _ s' => skip n' s'
  | S _, EmptyString => EmptyString
  end.

(** The longest prefix of [s] made of digits. *)
Fixpoint digit_run (s : string) : string :=
  match s with
  | String c s' => if isdigit c then String c (digit_run s') else EmptyString
  | EmptyString => EmptyString
  end.

(** [std::string::find_last_of(char)]: the greatest index that holds [c],
    [npos] when there is none. *)
Fixpoint find_last_of_from (s : string) (c : ascii) (i : Z) (found : Z) : Z :=
  match s with
  | EmptyString => found
  | String a s' => find_last_of_from s' c (i + 1) (if Ascii.eqb a c then i else found)
  end.

Definition find_last_of (s : string) (c : ascii) : Z :=
  find_last_of_from s c 0 npos.

(** [std::string::substr(pos, count)] for [pos <= size()]. *)
Definition substr (s : string) (pos count : Z) : string :=
  String.substring (Z.to_nat pos) (Z.to_nat count) s.

(** The decimal value of a string of digits. *)
Fixpoint decimal_value (acc : Z) (s : string) : Z :=
  match s with
  | EmptyString => acc
  | String c s' => decimal_value (10 * acc + (Z.of_N (N_of_ascii c) - 48)) s'
  end.

(** [std::stoi(str)] in base 10, on the strings this file passes to it: ones
    without leading white space or sign.  The digits in front are
    converted; no digit at all is [std::invalid_argument], a value that
    does not fit [int] is [std::out_of_range]. *)
Definition stoi (str : string) : Res Z :=
  let digits := digit_run str in
  if String.eqb digits EmptyString then Throw invalid_argument
  else
    let v := decimal_value 0 digits in
    if v <=? INT_MAX then Ok v else Throw out_of_range.

(** ** get_file_hash_index *)

(** The lambda [get_hash_index_from_position]: [r] runs from [pos] over the
    digits, and a non-empty range [l, r) is handed to [std::stoi]. *)
Definition get_hash_index_from_position (hive_file_path : string) (pos : Z)
  : Res (option Z) :=
  let l := pos in
  let r := pos + size (digit_run (skip (Z.to_nat pos) hive_file_path)) in
  if l <? r then
    v ← stoi (substr hive_file_path l (r - l));
    mret (Some v)
  else mret None.

Definition underscore : ascii := "_"%char.
Definition slash : ascii := "/"%char.

Definition get_file_hash_index (hive_file_path : string) : Res (option Z) :=
  res ← get_hash_index_from_position hive_file_path
          (size_t_add (find_last_of hive_file_path underscore) 1);
  match res with
  | Some v => mret (Some (to_UInt64 v))
  | None =>
    res ← get_hash_index_from_position hive_file_path
            (size_t_add (find_last_of hive_file_path slash) 1);
    match res with
    | Some v => mret (Some (to_UInt64 v))
    | None => mret None
    end
  end.

(** ** Data model *)

(** The variants of [Field] that a literal of a cluster-by condition holds. *)
Inductive Field : Type :=
| FNull
| FUInt64 (v : Z)
| FInt64 (v : Z)
| FString (v : string).

(** The syntax tree, as far as this file looks into it: [ast->as<ASTFunction>()]
    with its [name] and [arguments] (a null [arguments] is [None]), and
    every other node. *)
#[warnings="-register-all"] Inductive AST : Type :=
| ASTFunction (name : string) (arguments : option (list AST))
| ASTLiteral (value : Field)
| ASTIdentifier (name : string).

Record HivePartition : Type := {
  partition_id : string;
  value : list Field;
  location : string;
}.

(** [Apache::Hadoop::Hive::Partition], the metastore's record of a partition. *)
Record ApachePartition : Type := {
  values : list string;
  sd_location : string;
  lastAccessTime : Z;
}.

(** [Apache::Hadoop::Hive::StorageDescriptor] of the table. *)
Record StorageDescriptor : Type := {
  sd_table_location : string;
  inputFormat : string;
}.

(** Modelled from the spec: [IHiveFile::FileFormat] is declared in
    [IHiveFile.h]; this file names [PARQUET] and [ORC], and [HUDI_COW] is the
    third tag of the data model of the specification. *)
Inductive FileFormat : Type := PARQUET | ORC | HUDI_COW.

Record HiveFile : Type := {
  file_path : string;
  format : FileFormat;
  partition : option HivePartition;
}.

Abbreviation HivePartitions := (list HivePartition).
Abbreviation HiveFiles := (list HiveFile).

Inductive Disk : Type := DiskOf (uri : string).

(** The two classes behind [IDirectoryLister]. *)
Inductive DirectoryLister : Type :=
| HudiCowDirectoryLister (disk : Disk)
| DiskDirectoryLister (disk : Disk) (format : FileFormat).

(** Modelled from the spec: the format tag of the files a lister produces;
    [HudiCowDirectoryLister] is defined in [HudiDirectoryLister.h] and takes
    no format here. *)
Definition lister_format (lister : DirectoryLister) : FileFormat :=
  match lister with
  | HudiCowDirectoryLister _ => HUDI_COW
  | DiskDirectoryLister _ f => f
  end.

(** The query settings this file reads. *)
Record Settings : Type := {
  max_partitions_to_read : Z;          (* Int64 *)
  use_hive_metastore_filter : bool;
  use_hive_partition_filter : bool;
  use_hive_cluster_key_filter : bool;
}.

(** [StorageInMemoryMetadata], as far as it is read here. *)
Record StorageMetadata : Type := {
  hasPartitionKey : bool;
  hasClusterByKey : bool;
  (** names of [cluster_by_key.expression->getRequiredColumnsWithTypes()] *)
  cluster_by_required_columns : list string;
}.

Record HiveWhereOptimizer : Type := {
  partition_key_conds : option AST;
  cluster_key_conds : option AST;
}.

(** The storage object: the members of [StorageCnchHive] used below. *)
Record StorageCnchHive : Type := {
  hive_table_sd : StorageDescriptor;       (* hive_table->sd *)
  in_memory_metadata : StorageMetadata;    (* getInMemoryMetadata() *)
  storage_table_name : string;             (* getStorageID().table_name *)
  storage_uuid : string;                   (* getStorageUUID() *)
}.

Record PrepareContextResult : Type := {
  result_hive_files : HiveFiles;
  local_table_name : string;
}.

(** ** Collaborators *)

(** Code of the repository outside this file, named after the call made
    here.  Each is a function of the arguments that vary in the model. *)
Record Collaborators : Type := {
  (** [hive_client->getPartitionsByFilter(hive_db_name, hive_table_name, filter)] *)
  getPartitionsByFilter : string -> list ApachePartition;
  (** [partition->load(apache_partition, metadata_snapshot->getPartitionKey())] *)
  load : ApachePartition -> HivePartition;
  (** [partition->load(hive_table->sd)] *)
  load_sd : StorageDescriptor -> HivePartition;
  (** [pruner->canBePruned(partition->partition_id, partition->value)] *)
  canBePruned : string -> list Field -> bool;
  queryToString : AST -> string;
  (** [HiveUtil::getDiskFromURI(hive_table->sd.location, getContext(), *storage_settings)] *)
  getDiskFromURI : string -> Disk;
  (** [lister->list(partition)] *)
  lister_list : DirectoryLister -> HivePartition -> HiveFiles;
  (** the value of the literal returned; [None] when the call throws (the
      node is no constant expression) *)
  evaluateConstantExpressionOrIdentifierAsLiteral : AST -> option Field;
  (** [cluster_by_expression->execute(block)] on the block that holds the
      given columns, then [get64(0)] of the result column (a [UInt64]) *)
  cluster_by_execute : list (list Field) -> Z;
  (** [local_context->getCurrentTransactionID().toString()] *)
  txn_id : string;
  (** [CloudTableBuilder::build()] and [cloudTableName()] of the builder
      that was given the cloud storage id with this table name *)
  build_cloud_table_sql : string -> string;
  builder_cloudTableName : string -> string;
}.

(** ** The outside world *)

(** [CnchServerResource]: what [addCreateQuery] and [addDataParts] stored. *)
Record CnchServerResource : Type := {
  create_queries : list (string * string);     (* (create sql, cloud table name) *)
  data_parts : list (string * HiveFiles);      (* (storage uuid, files) *)
}.

Record World : Type := {
  metastore_requests : list string;      (* filters sent to the metastore *)
  disks_opened : list string;            (* uris given to getDiskFromURI *)
  listed : list HivePartition;           (* partitions given to lister->list *)
  cnch_resource : CnchServerResource;
}.

Definition M (A : Type) : Type := World -> Res A * World.

#[global] Instance M_ret : MRet M := fun A a w => (Ok a, w).
#[global] Instance M_bind : MBind M := fun A B f m w =>
  match m w with
  | (Ok a, w') => f a w'
  | (Throw e, w') => (Throw e, w')
  end.

Definition throw {A : Type} (e : Error) : M A := fun w => (Throw e, w).

(** A computation that only throws or returns, run inside [M]. *)
Definition lift {A : Type} (r : Res A) : M A := fun w => (r, w).

Definition modify (f : World -> World) : M unit := fun w => (Ok tt, f w).

Definition log_metastore_request (filter : string) (w : World) : World :=
  {| metastore_requests := metastore_requests w ++ [filter];
     disks_opened := disks_opened w;
     listed := listed w;
     cnch_resource := cnch_resource w |}.

Definition log_disk (uri : string) (w : World) : World :=
  {| metastore_requests := metastore_requests w;
     disks_opened := disks_opened w ++ [uri];
     listed := listed w;
     cnch_resource := cnch_resource w |}.

Definition log_listed (ps : list HivePartition) (w : World) : World :=
  {| metastore_requests := metastore_requests w;
     disks_opened := disks_opened w;
     listed := listed w ++ ps;
     cnch_resource := cnch_resource w |}.

Definition addCreateQuery (sql name : string) (w : World) : World :=
  {| metastore_requests := metastore_requests w;
     disks_opened := disks_opened w;
     listed := listed w;
     cnch_resource :=
       {| create_queries := create_queries (cnch_resource w) ++ [(sql, name)];
          data_parts := data_parts (cnch_resource w) |} |}.

Definition addDataParts (uuid : string) (files : HiveFiles) (w : World) : World :=
  {| metastore_requests := metastore_requests w;
     disks_opened := disks_opened w;
     listed := listed w;
     cnch_resource :=
       {| create_queries := create_queries (cnch_resource w);
          data_parts := data_parts (cnch_resource w) ++ [(uuid, files)] |} |}.

(** ** The operations of the storage *)

Section Operations.
Context (C : Collaborators).

(** *** selectPartitions *)

(** The loop over [apache_hive_partitions]; [pruner] tells whether the
    optional pruner holds a value, [partitions] is the vector filled by
    [push_back]. *)
Fixpoint select_unpruned (pruner : bool) (apache_hive_partitions : list ApachePartition)
    (partitions : HivePartitions) : HivePartitions :=
  match apache_hive_partitions with
  | [] => partitions
  | apache_partition :: rest =>
    let partition := load C apache_partition in
    let can_be_pruned :=
      pruner && canBePruned C (partition_id partition) (value partition) in
    select_unpruned pruner rest
      (if can_be_pruned then partitions else partitions ++ [partition])
  end.

(** The filter string sent to the metastore. *)
Definition metastore_filter (query_settings : Settings) (optimizer : HiveWhereOptimizer)
  : string :=
  if use_hive_metastore_filter query_settings then
    match partition_key_conds optimizer with
    | Some conds => queryToString C conds
    | None => EmptyString
    end
  else EmptyString.

Definition selectPartitions (storage : StorageCnchHive) (query_settings : Settings)
    (metadata_snapshot : StorageMetadata) (optimizer : HiveWhereOptimizer)
  : M HivePartitions :=
  if negb (hasPartitionKey metadata_snapshot) then
    (* non-partition table *)
    mret [load_sd C (hive_table_sd storage)]
  else
    let filter := metastore_filter query_settings optimizer in
    _ ← modify (log_metastore_request filter);
    let apache_hive_partitions := getPartitionsByFilter C filter in
    let pruner :=
      hasPartitionKey metadata_snapshot && use_hive_partition_filter query_settings in
    mret (select_unpruned pruner apache_hive_partitions []).

(** *** getDirectoryLister *)

Definition getDirectoryLister (storage : StorageCnchHive) : M DirectoryLister :=
  let uri := sd_table_location (hive_table_sd storage) in
  _ ← modify (log_disk uri);
  let disk := getDiskFromURI C uri in
  let input_format := inputFormat (hive_table_sd storage) in
  if String.eqb input_format "org.apache.hudi.hadoop.HoodieParquetInputFormat" then
    mret (HudiCowDirectoryLister disk)
  else if String.eqb input_format "org.apache.hadoop.hive.ql.io.parquet.MapredParquetInputFormat" then
    mret (DiskDirectoryLister disk PARQUET)
  else if String.eqb input_format "org.apache.hadoop.hive.ql.io.orc.OrcInputFormat" then
    mret (DiskDirectoryLister disk ORC)
  else throw (UNKNOWN_FORMAT input_format).

(** *** Listing *)

(** The lambda [list_partition]: list one partition, then append its files
    to the shared [hive_files] (under the mutex). *)
Definition list_partition (lister : DirectoryLister) (partition : HivePartition)
    (hive_files : HiveFiles) : M HiveFiles :=
  _ ← modify (log_listed [partition]);
  let files := lister_list C lister partition in
  mret (hive_files ++ files).

(** The sequential loop. *)
Fixpoint list_sequentially (lister : DirectoryLister) (partitions : HivePartitions)
    (hive_files : HiveFiles) : M HiveFiles :=
  match partitions with
  | [] => mret hive_files
  | partition :: rest =>
    hive_files' ← list_partition lister partition hive_files;
    list_sequentially lister rest hive_files'
  end.
End Operations.

(** *** The thread pool *)

(** A pool run is a sequence of atomic actions.  A job is [pending] until a
    free worker takes it; the worker is then [running] the lister on its
    partition, outside the lock; it commits by appending its files to
    [pool_files] while it holds the mutex. *)
Record PoolState : Type := {
  pending : list HivePartition;
  running : list HivePartition;
  started : list HivePartition;     (* calls of lister->list so far, in order *)
  pool_files : HiveFiles;           (* the shared hive_files *)
}.

Inductive Action : Type :=
| Start (i : nat)      (* a free worker takes the i-th pending job *)
| Commit (j : nat).    (* the j-th running worker appends its files *)

Definition pool_init (partitions : HivePartitions) (hive_files : HiveFiles) : PoolState :=
  {| pending := partitions; running := []; started := []; pool_files := hive_files |}.

Definition pool_final (s : PoolState) : Prop := pending s = [] /\ running s = [].

Section Pool.
Context (list_files : HivePartition -> HiveFiles) (num_threads : nat).

Definition pool_act (a : Action) (s : PoolState) : option PoolState :=
  match a with
  | Start i =>
    if (length (running s) <? num_threads)%nat then
      match pending s !! i with
      | Some p =>
        Some {| pending := delete i (pending s);
                running := running s ++ [p];
                started := started s ++ [p];
                pool_files := pool_files s |}
      | None => None
      end
    else None
  | Commit j =>
    match running s !! j with
    | Some p =>
      Some {| pending := pending s;
              running := delete j (running s);
              started := started s;
              pool_files := pool_files s ++ list_files p |}
    | None => None
    end
  end.

Definition pool_step (s s' : PoolState) : Prop := exists a, pool_act a s = Some s'.

(** A schedule drives the pool; an action that is not enabled is skipped. *)
Fixpoint run_schedule (sched : list Action) (s : PoolState) : PoolState :=
  match sched with
  | [] => s
  | a :: rest =>
    match pool_act a s with
    | Some s' => run_schedule rest s'
    | None => run_schedule rest s
    end
  end.

(** [pool.wait()]: whatever is still running commits, then the jobs still
    pending are taken and committed one after the other. *)
Definition pool_wait (s : PoolState) : PoolState :=
  {| pending := [];
     running := [];
     started := started s ++ pending s;
     pool_files := pool_files s ++ flat_map list_files (running s ++ pending s) |}.

(** The files that are in the shared collection or still to come. *)
Definition pool_all (s : PoolState) : HiveFiles :=
  pool_files s ++ flat_map list_files (running s) ++ flat_map list_files (pending s).
End Pool.

Section Planning.
Context (C : Collaborators).

(** The concurrent branch: a pool of [num_threads] workers, one job per
    partition, resolved by the schedule [sched]. *)
Definition list_concurrently (sched : list Action) (num_threads : Z)
    (lister : DirectoryLister) (partitions : HivePartitions) (hive_files : HiveFiles)
  : M HiveFiles :=
  let final :=
    pool_wait (lister_list C lister)
      (run_schedule (lister_list C lister) (Z.to_nat num_threads) sched
         (pool_init partitions hive_files)) in
  _ ← modify (log_listed (started final));
  mret (pool_files final).

(** The test that chooses the sequential loop. *)
Definition lists_sequentially (num_streams : Z) (partitions : HivePartitions) : bool :=
  (num_streams <=? 1) || (Z.of_nat (length partitions) =? 1).

Definition list_partitions (sched : list Action) (num_streams : Z)
    (lister : DirectoryLister) (partitions : HivePartitions) : M HiveFiles :=
  if lists_sequentially num_streams partitions then
    list_sequentially C lister partitions []
  else
    let num_threads := Z.min num_streams (Z.of_nat (length partitions)) in
    list_concurrently sched num_threads lister partitions [].
End Planning.

(** *** The bucket resolver *)

(** The outcome of a call to a collaborator that may throw. *)
Definition external {A : Type} (what : string) (o : option A) : Res A :=
  match o with
  | Some a => Ok a
  | None => Throw (EXTERNAL what)
  end.

(** [Field::safeGet<String>()]. *)
Definition safeGet_String (f : Field) : Res string :=
  match f with
  | FString v => Ok v
  | _ => Throw BAD_GET
  end.

(** [Block::getPositionByName] on the block built from the required
    columns: the position of the column with that name. *)
Fixpoint getPositionByName (block : list string) (name : string) : option nat :=
  match block with
  | [] => None
  | n :: rest =>
    if String.eqb n name then Some O else S <$> getPositionByName rest name
  end.

(** [Block::has]. *)
Definition block_has (block : list string) (name : string) : bool :=
  match getPositionByName block name with
  | Some _ => true
  | None => false
  end.

(** [MutableColumns]: each column is the list of the values inserted in it. *)
Abbreviation MutableColumns := (list (list Field)).

Definition column_empty (column : list Field) : bool :=
  match column with
  | [] => true
  | _ :: _ => false
  end.

(** [if (columns[pos]->empty()) columns[pos]->insert(value)]. *)
Definition insert_if_empty (pos : nat) (v : Field) (columns : MutableColumns)
  : MutableColumns :=
  match columns !! pos with
  | Some column =>
    if column_empty column then <[pos := column ++ [v]]> columns else columns
  | None => columns
  end.

Section BucketResolver.
Context (C : Collaborators).

(** The body of the [equals] branch. *)
Definition bind_equals (block : list string) (child0 child1 : AST)
    (columns : MutableColumns) : Res MutableColumns :=
  column ← external "evaluateConstantExpressionOrIdentifierAsLiteral"
             (evaluateConstantExpressionOrIdentifierAsLiteral C child0);
  field ← external "evaluateConstantExpressionOrIdentifierAsLiteral"
            (evaluateConstantExpressionOrIdentifierAsLiteral C child1);
  column_name ← safeGet_String column;
  match getPositionByName block column_name with
  | Some pos => mret (insert_if_empty pos field columns)
  | None => mret columns
  end.

(** The recursive lambda [parse_cluster_by_cond]; [columns] is the state it
    captures by reference. *)
Fixpoint parse_cluster_by_cond (block : list string) (ast : AST)
    (columns : MutableColumns) {struct ast} : Res MutableColumns :=
  match ast with
  | ASTFunction name (Some children) =>
    if String.eqb name "equals" && (length children =? 2)%nat then
      match children with
      | [child0; child1] => bind_equals block child0 child1 columns
      | _ => mret columns
      end
    else if String.eqb name "and" then
      (fix parse_children (children : list AST) (columns : MutableColumns)
         : Res MutableColumns :=
         match children with
         | [] => mret columns
         | child :: rest =>
           columns' ← parse_cluster_by_cond block child columns;
           parse_children rest columns'
         end) children columns
    else mret columns
  | _ => mret columns
  end.

(** The loop of the [and] branch, named. *)
Fixpoint parse_children (block : list string) (children : list AST)
    (columns : MutableColumns) : Res MutableColumns :=
  match children with
  | [] => mret columns
  | child :: rest =>
    columns' ← parse_cluster_by_cond block child columns;
    parse_children block rest columns'
  end.

Definition isBucketTable (storage : StorageCnchHive) : bool :=
  hasClusterByKey (in_memory_metadata storage).

Definition getSelectedBucketNumber (storage : StorageCnchHive)
    (metadata_snapshot : StorageMetadata) (optimizer : HiveWhereOptimizer)
  : Res (option Z) :=
  if negb (isBucketTable storage) then mret None
  else
    match cluster_key_conds optimizer with
    | None => mret None
    | Some cluster_by_conds =>
      let block := cluster_by_required_columns metadata_snapshot in
      let columns : MutableColumns := map (fun _ => []) block in
      columns ← parse_cluster_by_cond block cluster_by_conds columns;
      if existsb column_empty columns then mret None
      else
        let required_bucket := cluster_by_execute C columns in
        mret (Some required_bucket)
    end.
End BucketResolver.

(** *** The bucket pruner *)

(** [hash_index != *required_bucket] between an optional and a value. *)
Definition optional_ne (hash_index : option Z) (required_bucket : Z) : bool :=
  match hash_index with
  | Some i => negb (i =? required_bucket)
  | None => true
  end.

Definition has_value {A : Type} (o : option A) : bool :=
  match o with
  | Some _ => true
  | None => false
  end.

(** The predicate given to [std::remove_if]. *)
Definition prune_predicate (required_bucket : option Z) (file : HiveFile) : Res bool :=
  match required_bucket with
  | None => mret false
  | Some b =>
    hash_index ← get_file_hash_index (file_path file);
    mret (has_value hash_index && optional_ne hash_index b)
  end.

(** [std::remove_if] followed by [erase]: the predicate is applied to each
    element in order, the elements it rejects are kept in order. *)
Fixpoint remove_if {A : Type} (pred : A -> Res bool) (l : list A) : Res (list A) :=
  match l with
  | [] => mret []
  | x :: rest =>
    pred x ≫= fun b : bool =>
    rest' ← remove_if pred rest;
    mret (if b then rest' else x :: rest')
  end.

Definition prune_files (required_bucket : option Z) (hive_files : HiveFiles)
  : Res HiveFiles :=
  remove_if (prune_predicate required_bucket) hive_files.

(** *** collectResource and prepareReadContext *)

Section ReadContext.
Context (C : Collaborators).

Definition collectResource (storage : StorageCnchHive) (hive_files : HiveFiles)
  : M PrepareContextResult :=
  let cloud_table_name := (storage_table_name storage +:+ "_" +:+ txn_id C)%string in
  let cloud_table_sql := build_cloud_table_sql C cloud_table_name in
  _ ← modify (addCreateQuery cloud_table_sql (builder_cloudTableName C cloud_table_name));
  _ ← modify (addDataParts (storage_uuid storage) hive_files);
  (* the worker group is looked up first, by a collaborator *)
  mret {| result_hive_files := hive_files;
          local_table_name := builder_cloudTableName C cloud_table_name |}.

(** The partition ceiling. *)
Definition check_max_partitions (settings : Settings) (partitions : HivePartitions)
  : M unit :=
  if 0 <? max_partitions_to_read settings then
    if max_partitions_to_read settings mod size_t_modulus <? Z.of_nat (length partitions)
    then throw (TOO_MANY_PARTITIONS (Z.of_nat (length partitions))
                  (max_partitions_to_read settings))
    else mret tt
  else mret tt.

(** The block guarded by [isBucketTable() && settings.use_hive_cluster_key_filter]. *)
Definition prune_by_bucket (storage : StorageCnchHive) (settings : Settings)
    (metadata_snapshot : StorageMetadata) (optimizer : HiveWhereOptimizer)
    (hive_files : HiveFiles) : M HiveFiles :=
  if isBucketTable storage && use_hive_cluster_key_filter settings then
    required_bucket ← lift (getSelectedBucketNumber C storage metadata_snapshot optimizer);
    (* prune files with required bucket number *)
    lift (prune_files required_bucket hive_files)
  else mret hive_files.

(** [prepareReadContext] from [HiveFiles hive_files] on: the partitions
    are selected and within the ceiling.  [sched] resolves the order in
    which the pool's workers run, should the concurrent branch be taken. *)
Definition list_and_prune (sched : list Action) (storage : StorageCnchHive)
    (settings : Settings) (metadata_snapshot : StorageMetadata)
    (optimizer : HiveWhereOptimizer) (num_streams : Z) (partitions : HivePartitions)
  : M PrepareContextResult :=
  lister ← getDirectoryLister C storage;
  hive_files ← list_partitions C sched num_streams lister partitions;
  hive_files ← prune_by_bucket storage settings metadata_snapshot optimizer hive_files;
  collectResource storage hive_files.

Definition prepareReadContext (sched : list Action) (storage : StorageCnchHive)
    (settings : Settings) (metadata_snapshot : StorageMetadata)
    (optimizer : HiveWhereOptimizer) (num_streams : Z)
  : M PrepareContextResult :=
  (* metadata_snapshot->check(column_names, ...) and the construction of
     the optimizer are the work of collaborators *)
  partitions ← selectPartitions C storage settings metadata_snapshot optimizer;
  _ ← check_max_partitions settings partitions;
  list_and_prune sched storage settings metadata_snapshot optimizer num_streams partitions.
End ReadContext.

(** ** Paths used as examples *)

Definition tea_path : string :=
  "part-00000-5cf7580f-a3f6-4beb-90a6-e9f4de61c887_00003.c000".
Definition hive_trino_path : string :=
  "/000003_0_66add4ef-d1fc-4015-87b4-6962de044323_20240229_033029_00033_erdcf".
Definition hudi_path : string :=
  "5f541af5-ca07-4329-ad8c-40fa9b353f35-0_2-58-26_20200316160557.parquet".

Definition file_at (path : string) : HiveFile :=
  {| file_path := path; format := PARQUET; partition := None |}.

(** ** The index heuristic in the words of the specification *)

(** What follows the last occurrence of [c] in [s], when [c] occurs. *)
Fixpoint after_last (c : ascii) (s : string) : option string :=
  match s with
  | EmptyString => None
  | String a s' =>
    match after_last c s' with
    | Some t => Some t
    | None => if Ascii.eqb a c then Some s' else None
    end
  end.

Definition nonempty (s : string) : bool := negb (String.eqb s EmptyString).

(** Rule by rule, as the specification words it: locate the last [c] and
    read the digits right after it; a path without [c] has no such digits. *)
Definition spec_run_after_last (c : ascii) (path : string) : string :=
  match after_last c path with
  | Some t => digit_run t
  | None => EmptyString
  end.

Definition spec_file_hash_index (path : string) : option Z :=
  let run1 := spec_run_after_last underscore path in
  if nonempty run1 then Some (decimal_value 0 run1)
  else
    let run2 := spec_run_after_last slash path in
    if nonempty run2 then Some (decimal_value 0 run2) else None.

(** The same two rules with the scan of a path that lacks [c] starting at
    the first character of the path. *)
Definition run_after_last_or_start (c : ascii) (path : string) : string :=
  match after_last c path with
  | Some t => digit_run t
  | None => digit_run path
  end.

Definition two_tier_index (path : string) : option Z :=
  let run1 := run_after_last_or_start underscore path in
  if nonempty run1 then Some (decimal_value 0 run1)
  else
    let run2 := run_after_last_or_start slash path in
    if nonempty run2 then Some (decimal_value 0 run2) else None.

(** What one rule yields from the digits it has read: their value, unless
    [std::stoi] rejects it. *)
Definition parse_run (run : string) : Res (option Z) :=
  if decimal_value 0 run <=? INT_MAX
  then Ok (Some (decimal_value 0 run)) else Throw out_of_range.

(** Whether the pruner drops the file: its predicate returned [true]. *)
Definition removes (required_bucket : option Z) (file : HiveFile) : bool :=
  match prune_predicate required_bucket file with
  | Ok true => true
  | _ => false
  end.

(** ** Vocabulary of the statements *)

(** The partition-count resource-limit error. *)
Definition is_TOO_MANY_PARTITIONS (e : Error) : bool :=
  match e with
  | TOO_MANY_PARTITIONS _ _ => true
  | _ => false
  end.

(** The exceptions of the bucket resolver and of the bucket pruner. *)
Definition bucket_stage_error (e : Error) : Prop :=
  match e with
  | BAD_GET | EXTERNAL _ | out_of_range | invalid_argument => True
  | TOO_MANY_PARTITIONS _ _ | UNKNOWN_FORMAT _ => False
  end.

(** What [collectResource] registers for the files [hive_files]. *)
Definition registered (C : Collaborators) (storage : StorageCnchHive)
    (hive_files : HiveFiles) (resource : CnchServerResource) : CnchServerResource :=
  let cloud_table_name := (storage_table_name storage +:+ "_" +:+ txn_id C)%string in
  {| create_queries :=
       create_queries resource ++
       [(build_cloud_table_sql C cloud_table_name, builder_cloudTableName C cloud_table_name)];
     data_parts := data_parts resource ++ [(storage_uuid storage, hive_files)] |}.

Definition hudi_input_format : string :=
  "org.apache.hudi.hadoop.HoodieParquetInputFormat".
Definition parquet_input_format : string :=
  "org.apache.hadoop.hive.ql.io.parquet.MapredParquetInputFormat".
Definition orc_input_format : string :=
  "org.apache.hadoop.hive.ql.io.orc.OrcInputFormat".

(** The input formats for which a lister exists. *)
Definition recognized (input_format : string) : Prop :=
  input_format = hudi_input_format \/
  input_format = parquet_input_format \/
  input_format = orc_input_format.

(** A partition survives the selection loop. *)
Definition kept_by_pruner (C : Collaborators) (pruner : bool) (p : HivePartition) : bool :=
  negb (pruner && canBePruned C (partition_id p) (value p)).

Definition INT64_MAX : Z := 9223372036854775807.

(** ** A small installation, for examples *)

Module Demo.
Definition partition_of (p : ApachePartition) : HivePartition :=
  {| partition_id := String.concat "/" (values p);
     value := map FString (values p);
     location := sd_location p |}.

Definition day (d : string) : ApachePartition :=
  {| values := [("d=" +:+ d)%string];
     sd_location := ("/warehouse/t/d=" +:+ d)%string;
     lastAccessTime := 0 |}.

(** Identifiers and literals are constants; a function call is not. *)
Definition evaluate (ast : AST) : option Field :=
  match ast with
  | ASTIdentifier name => Some (FString name)
  | ASTLiteral v => Some v
  | ASTFunction _ _ => None
  end.

(** A metastore with the partitions [reported]; the local pruner proves
    d=3 unsatisfiable; a partition holds two bucket files. *)
Definition collaborators (reported : list ApachePartition) : Collaborators :=
  {| getPartitionsByFilter := fun _ => reported;
     load := partition_of;
     load_sd := fun sd =>
       {| partition_id := EmptyString; value := []; location := sd_table_location sd |};
     canBePruned := fun id _ => String.eqb id "d=3";
     queryToString := fun _ => "d = 1"%string;
     getDiskFromURI := DiskOf;
     lister_list := fun lister p =>
       [ {| file_path := (location p +:+ "/000000_0")%string;
            format := lister_format lister; partition := Some p |};
         {| file_path := (location p +:+ "/000001_0")%string;
            format := lister_format lister; partition := Some p |} ];
     evaluateConstantExpressionOrIdentifierAsLiteral := evaluate;
     cluster_by_execute := fun _ => 1;
     txn_id := "42"%string;
     build_cloud_table_sql := fun name => ("CREATE TABLE " +:+ name)%string;
     builder_cloudTableName := fun name => name |}.

Definition three_days : Collaborators := collaborators [day "1"; day "2"; day "3"].
Definition no_partitions : Collaborators := collaborators [].

Definition table (input_format : string) (metadata : StorageMetadata) : StorageCnchHive :=
  {| hive_table_sd :=
       {| sd_table_location := "/warehouse/t"%string; inputFormat := input_format |};
     in_memory_metadata := metadata;
     storage_table_name := "t"%string;
     storage_uuid := "uuid-t"%string |}.

Definition partitioned : StorageMetadata :=
  {| hasPartitionKey := true; hasClusterByKey := false;
     cluster_by_required_columns := [] |}.

Definition unpartitioned : StorageMetadata :=
  {| hasPartitionKey := false; hasClusterByKey := false;
     cluster_by_required_columns := [] |}.

Definition bucketed : StorageMetadata :=
  {| hasPartitionKey := true; hasClusterByKey := true;
     cluster_by_required_columns := ["a"%string; "b"%string] |}.

Definition settings (max_partitions : Z) : Settings :=
  {| max_partitions_to_read := max_partitions;
     use_hive_metastore_filter := true;
     use_hive_partition_filter := false;
     use_hive_cluster_key_filter := true |}.

Definition parquet_table : StorageCnchHive := table parquet_input_format partitioned.
Definition bucket_table : StorageCnchHive := table parquet_input_format bucketed.
Definition plain_table : StorageCnchHive := table parquet_input_format unpartitioned.
Definition text_table : StorageCnchHive :=
  table "org.apache.hadoop.mapred.TextInputFormat" partitioned.

Definition no_conds : HiveWhereOptimizer :=
  {| partition_key_conds := None; cluster_key_conds := None |}.

Definition equals (column : string) (v : Z) : AST :=
  ASTFunction "equals" (Some [ASTIdentifier column; ASTLiteral (FUInt64 v)]).

(** [a = 1 AND (b = 2 OR b = 3) AND a = 5] *)
Definition conds_a_only : AST :=
  ASTFunction "and" (Some
    [equals "a" 1;
     ASTFunction "or" (Some [equals "b" 2; equals "b" 3]);
     equals "a" 5]).

Definition empty_world : World :=
  {| metastore_requests := []; disks_opened := []; listed := [];
     cnch_resource := {| create_queries := []; data_parts := [] |} |}.
End Demo.

(** ** Vocabulary of the further properties *)

(** Two outcomes of a stage that yields files: the same files up to their
    order, or the same exception. *)
Definition same_files (r r' : Res HiveFiles) : Prop :=
  match r, r' with
  | Ok files, Ok files' => Permutation files files'
  | Throw e, Throw e' => e = e'
  | _, _ => False
  end.

(** A file that the pruner keeps for the bucket [b]: its hash index is
    unknown or is [b]. *)
Definition fits_bucket (b : Z) (file : HiveFile) : Prop :=
  get_file_hash_index (file_path file) = Ok None \/
  get_file_hash_index (file_path file) = Ok (Some b).

(** Every column holds one row at most. *)
Definition at_most_one_row (columns : MutableColumns) : Prop :=
  Forall (fun column : list Field => (length column <= 1)%nat) columns.

(** The block of the cluster-by columns, before any value is bound. *)
Definition unbound_columns (block : list string) : MutableColumns :=
  map (fun _ => []) block.

(** What the bucket stage of [prepareReadContext] comes to for the files
    [hive_files]: it reads nothing but its arguments. *)
Definition prune_by_bucket_result (C : Collaborators) (storage : StorageCnchHive)
    (settings : Settings) (metadata_snapshot : StorageMetadata)
    (optimizer : HiveWhereOptimizer) (hive_files : HiveFiles) : Res HiveFiles :=
  if isBucketTable storage && use_hive_cluster_key_filter settings then
    required_bucket ← getSelectedBucketNumber C storage metadata_snapshot optimizer;
    prune_files required_bucket hive_files
  else Ok hive_files.

(** The name under which [collectResource] registers the cloud table. *)
Definition cloud_table_alias (C : Collaborators) (storage : StorageCnchHive) : string :=
  builder_cloudTableName C (storage_table_name storage +:+ "_" +:+ txn_id C)%string.

(** ** A second installation, with files named after their bucket *)

Module Tea.
(** Each partition holds the files of the buckets 0 and 1 and a file that
    names no bucket. *)
Definition files_of (lister : DirectoryLister) (p : HivePartition) : HiveFiles :=
  [ {| file_path := (location p +:+ "/part-00000-5cf7580f_00000.c000")%string;
       format := lister_format lister; partition := Some p |};
    {| file_path := (location p +:+ "/part-00000-5cf7580f_00001.c000")%string;
       format := lister_format lister; partition := Some p |};
    {| file_path := (location p +:+ "/SUCCESS")%string;
       format := lister_format lister; partition := Some p |} ].

Definition collaborators : Collaborators :=
  {| getPartitionsByFilter := getPartitionsByFilter Demo.three_days;
     load := load Demo.three_days;
     load_sd := load_sd Demo.three_days;
     canBePruned := canBePruned Demo.three_days;
     queryToString := queryToString Demo.three_days;
     getDiskFromURI := getDiskFromURI Demo.three_days;
     lister_list := files_of;
     evaluateConstantExpressionOrIdentifierAsLiteral := Demo.evaluate;
     cluster_by_execute := cluster_by_execute Demo.three_days;
     txn_id := txn_id Demo.three_days;
     build_cloud_table_sql := build_cloud_table_sql Demo.three_days;
     builder_cloudTableName := builder_cloudTableName Demo.three_days |}.

(** [a = 1 AND b = 2], which the installation resolves to the bucket 1. *)
Definition optimizer : HiveWhereOptimizer :=
  {| partition_key_conds := None;
     cluster_key_conds :=
       Some (ASTFunction "and" (Some [Demo.equals "a" 1; Demo.equals "b" 2])) |}.
End Tea.

(** ** The other functions of the storage *)

(** The exceptions of the functions below: those of read planning, the
    further error codes this file throws with their message, and whatever a
    collaborator raised. *)
Inductive Exception : Type :=
| Raised (e : Error)
| LOGICAL_ERROR (message : string)
| NOT_IMPLEMENTED (message : string)
| SUPPORT_IS_DISABLED (message : string)
| NUMBER_OF_ARGUMENTS_DOESNT_MATCH (message : string)
| Foreign (what : string).

Inductive Outcome (A : Type) : Type :=
| Returns (a : A)
| Raises (e : Exception).
Arguments Returns {A} a.
Arguments Raises {A} e.

#[global] Instance Outcome_ret : MRet Outcome := fun A a => Returns a.
#[global] Instance Outcome_bind : MBind Outcome := fun A B f m =>
  match m with
  | Returns a => f a
  | Raises e => Raises e
  end.

Definition of_Res {A : Type} (r : Res A) : Outcome A :=
  match r with
  | Ok a => Returns a
  | Throw e => Raises (Raised e)
  end.

(** *** prepareTableRead *)

(** Conversion of a [size_t] to [unsigned]. *)
Definition to_unsigned (v : Z) : Z := v mod 4294967296.

(** [StorageID], as far as it is set here. *)
Record StorageID : Type := {
  id_table_name : string;
  id_uuid : string;
}.

Definition getStorageID (storage : StorageCnchHive) : StorageID :=
  {| id_table_name := storage_table_name storage; id_uuid := storage_uuid storage |}.

(** [max_threads] is the setting of that name, a [UInt64]; the argument
    [num_streams] of [prepareReadContext] is an [unsigned]. *)
Definition prepareTableRead (C : Collaborators) (sched : list Action)
    (storage : StorageCnchHive) (settings : Settings) (optimizer : HiveWhereOptimizer)
    (max_threads : Z) : M StorageID :=
  let max_streams := max_threads mod size_t_modulus in
  prepare_result ←
    prepareReadContext C sched storage settings (in_memory_metadata storage) optimizer
      (to_unsigned max_streams);
  let storage_id := getStorageID storage in
  mret {| id_table_name := local_table_name prepare_result;
          id_uuid := id_uuid storage_id |}.

(** *** getQueryProcessingStage *)

Module QueryProcessingStage.
(** The stages this file returns. *)
Inductive Enum : Type := Complete | WithMergeableState.
End QueryProcessingStage.

Record DistributedSettings : Type := {
  distributed_perfect_shard : bool;
  distributed_group_by_no_merge : bool;     (* the setting is not zero *)
  max_parallel_replicas : Z;                (* UInt64 *)
}.

(** [worker_group] is the number of shards of
    [local_context->tryGetCurrentWorkerGroup()], none for a null handle. *)
Definition getQueryProcessingStage (local_settings : DistributedSettings)
    (worker_group : option Z) : QueryProcessingStage.Enum :=
  if distributed_perfect_shard local_settings || distributed_group_by_no_merge local_settings
  then QueryProcessingStage.Complete
  else
    match worker_group with
    | Some num_workers =>
      let result_size :=
        (num_workers * max_parallel_replicas local_settings) mod size_t_modulus in
      if result_size =? 1 then QueryProcessingStage.Complete
      else QueryProcessingStage.WithMergeableState
    | None => QueryProcessingStage.WithMergeableState
    end.

(** *** checkAlterSettings and checkAlterIsPossible *)

Inductive AlterCommandType : Type :=
| MODIFY_SETTING
| OtherAlter (type_name : string).     (* any other type, with its [alterTypeToString] *)

Record SettingChange : Type := {
  change_name : string;
  change_value : Field;
}.

Record AlterCommand : Type := {
  command_type : AlterCommandType;
  settings_changes : list SettingChange;
}.

Definition supported_settings : list string :=
  ["cnch_vw_default"; "cnch_vw_read"; "cnch_server_vw"; "enable_local_disk_cache"]%string.

Definition is_supported (name : string) : bool :=
  existsb (String.eqb name) supported_settings.

Definition is_MODIFY_SETTING (command : AlterCommand) : bool :=
  match command_type command with
  | MODIFY_SETTING => true
  | OtherAlter _ => false
  end.

Section Alter.
(** [CnchHiveSettings], and its [set(name, value)], which throws on a value
    it cannot convert: [None]. *)
Context {CnchHiveSettings : Type}.
Context (settings_set : CnchHiveSettings -> string -> Field -> option CnchHiveSettings).
(** [getName()] of the storage. *)
Context (getName : string).

(** The loop over [command.settings_changes]. *)
Fixpoint check_changes (settings_copy : CnchHiveSettings) (changes : list SettingChange)
  : Outcome CnchHiveSettings :=
  match changes with
  | [] => Returns settings_copy
  | change :: rest =>
    if negb (is_supported (change_name change)) then
      Raises (SUPPORT_IS_DISABLED
                ("Setting " +:+ change_name change +:+ " cannot be modified"))
    else
      match settings_set settings_copy (change_name change) (change_value change) with
      | Some settings_copy' => check_changes settings_copy' rest
      | None => Raises (Foreign "CnchHiveSettings::set")
      end
  end.

(** The loop over [commands]. *)
Fixpoint check_commands (settings_copy : CnchHiveSettings) (commands : list AlterCommand)
  : Outcome CnchHiveSettings :=
  match commands with
  | [] => Returns settings_copy
  | command :: rest =>
    if negb (is_MODIFY_SETTING command) then check_commands settings_copy rest
    else
      settings_copy' ← check_changes settings_copy (settings_changes command);
      check_commands settings_copy' rest
  end.

Definition checkAlterSettings (storage_settings : CnchHiveSettings)
    (commands : list AlterCommand) : Outcome unit :=
  let settings_copy := storage_settings in
  _ ← check_commands settings_copy commands;
  mret tt.

Fixpoint checkAlterIsPossible (commands : list AlterCommand) : Outcome unit :=
  match commands with
  | [] => mret tt
  | command :: rest =>
    match command_type command with
    | MODIFY_SETTING => checkAlterIsPossible rest
    | OtherAlter type_name =>
      Raises (NOT_IMPLEMENTED
                ("Alter of type " +:+ type_name +:+ " is not supported by storage "
                 +:+ getName))
    end
  end.
End Alter.

(** *** The constructor, initialize and startup *)

Section Construction.
(** The metastore client, the table it returns and the in-memory metadata,
    with the collaborators that produce them. *)
Context {Client Table Metadata : Type}.
Context (getOrCreate : string -> Outcome Client).      (* HiveMetastoreClientFactory *)
Context (getTable : Client -> Outcome Table).          (* hive_client->getTable(db, table) *)
Context (columns_empty : Metadata -> bool).            (* metadata_.columns.empty() *)
Context (convert : Table -> Metadata -> Outcome Metadata).   (* converter.convert *)
Context (check : Table -> Metadata -> Outcome unit).         (* converter.check *)

(** The members that construction and [startup] touch. *)
Record Members : Type := {
  hive_client : option Client;
  hive_table : option Table;
  hive_exception : option Exception;
  in_memory : option Metadata;
}.

Definition initialize (hive_metastore_url : string) (this : Members) (metadata_ : Metadata)
  : Outcome Members :=
  (* the try block: the client is assigned before the table is fetched *)
  let client :=
    match hive_client this with
    | Some client => Returns client
    | None => getOrCreate hive_metastore_url
    end in
  match client with
  | Raises e =>
    Returns {| hive_client := hive_client this; hive_table := hive_table this;
               hive_exception := Some e; in_memory := in_memory this |}
  | Returns client =>
    match getTable client with
    | Raises e =>
      Returns {| hive_client := Some client; hive_table := hive_table this;
                 hive_exception := Some e; in_memory := in_memory this |}
    | Returns table =>
      metadata ←
        (if columns_empty metadata_ then convert table metadata_
         else _ ← check table metadata_; mret metadata_);
      mret {| hive_client := Some client; hive_table := Some table;
              hive_exception := hive_exception this; in_memory := Some metadata |}
    end
  end.

(** The constructor of [StorageCnchHive]. *)
Definition construct (hive_metastore_url : string) (meta_client : option Client)
    (metadata_ : option Metadata) : Outcome Members :=
  let this := {| hive_client := meta_client; hive_table := None;
                 hive_exception := None; in_memory := None |} in
  match metadata_ with
  | Some metadata => initialize hive_metastore_url this metadata
  | None => mret this
  end.

Definition startup (this : Members) : Outcome unit :=
  match hive_exception this with
  | Some e => Raises e
  | None => mret tt
  end.

(** What the metastore answers to construction. *)
Definition metastore_answer (hive_metastore_url : string) (meta_client : option Client)
  : Outcome Table :=
  client ← match meta_client with
           | Some client => Returns client
           | None => getOrCreate hive_metastore_url
           end;
  getTable client.
End Construction.

(** *** registerStorageCnchHive: the engine arguments *)

(** The first part of the creator function: three engine arguments, each
    evaluated to a literal, each literal a string. *)
Definition engine_arguments (C : Collaborators) (engine_args : list AST)
  : Outcome (string * string * string) :=
  match engine_args with
  | [arg0; arg1; arg2] =>
    let evaluate arg :=
      of_Res (external "evaluateConstantExpressionOrIdentifierAsLiteral"
                (evaluateConstantExpressionOrIdentifierAsLiteral C arg)) in
    literal0 ← evaluate arg0;
    literal1 ← evaluate arg1;
    literal2 ← evaluate arg2;
    hive_metastore_url ← of_Res (safeGet_String literal0);
    hive_database ← of_Res (safeGet_String literal1);
    hive_table ← of_Res (safeGet_String literal2);
    mret (hive_metastore_url, hive_database, hive_table)
  | _ =>
    Raises (NUMBER_OF_ARGUMENTS_DOESNT_MATCH
              "Storage CnchHive require 3 arguments: hive_metastore_url, hive_db_name and hive_table_name.")
  end.

(** *** serializeHiveFiles *)

Section Serialize.
(** [Protos::ProtoHiveFile] and [hive_file->serialize]. *)
Context {ProtoHiveFile : Type}.
Context (serialize : HiveFile -> ProtoHiveFile).

Record ProtoHiveFiles : Type := {
  sd_url : option string;
  proto_files : list ProtoHiveFile;
}.

(** The loop that adds the files. *)
Fixpoint add_files (proto : ProtoHiveFiles) (hive_files : HiveFiles) : ProtoHiveFiles :=
  match hive_files with
  | [] => proto
  | hive_file :: rest =>
    add_files {| sd_url := sd_url proto;
                 proto_files := proto_files proto ++ [serialize hive_file] |} rest
  end.

Definition serializeHiveFiles (proto : ProtoHiveFiles) (hive_files : HiveFiles)
  : ProtoHiveFiles :=
  let proto :=
    match hive_files with
    | front :: _ =>
      match partition front with
      | Some p => {| sd_url := Some (location p); proto_files := proto_files proto |}
      | None => proto
      end
    | [] => proto
    end in
  add_files proto hive_files.
End Serialize.

(** *** getPartitionLastModificationTime *)

Section LastModification.
Context (C : Collaborators).
(** [partition->store(write_buffer, partition_key)]: the string written. *)
Context (store : HivePartition -> string).

(** The loop over [apache_hive_partitions]. *)
Fixpoint modification_times (binary_format : bool)
    (apache_hive_partitions : list ApachePartition)
    (partition_last_modification_times : list (string * Z)) : list (string * Z) :=
  match apache_hive_partitions with
  | [] => partition_last_modification_times
  | apache_partition :: rest =>
    let partition := load C apache_partition in
    let entry :=
      if binary_format
      then (store partition, to_UInt64 (lastAccessTime apache_partition))
      else (partition_id partition, to_UInt64 (lastAccessTime apache_partition)) in
    modification_times binary_format rest (partition_last_modification_times ++ [entry])
  end.

Definition getPartitionLastModificationTime (binary_format : bool)
  : M (list (string * Z)) :=
  let filter := EmptyString in
  _ ← modify (log_metastore_request filter);
  let apache_hive_partitions := getPartitionsByFilter C filter in
  mret (modification_times binary_format apache_hive_partitions []).
End LastModification.

(** *** applyFilter *)

Inductive HiveMoveToPrewhereMethod : Type :=
| ALL
| COLUMN_SIZE
| NEVER
| OtherMethod.       (* a value the function does not know *)

Record FilterSettings : Type := {
  external_enable_partition_filter_push_down : bool;
  optimize_move_to_prewhere : bool;
  optimize_move_to_prewhere_if_final : bool;
  hive_move_to_prewhere_method : HiveMoveToPrewhereMethod;
}.

(** The select query, as far as [applyFilter] reads and sets it, and the
    partition filters of [query_info]. *)
Record SelectQuery : Type := {
  select_where : option AST;
  select_prewhere : option AST;
  select_final : bool;
}.

Record QueryInfo : Type := {
  select_query : SelectQuery;
  partition_filters : list AST;      (* grown by [appendPartitonFilters] *)
}.

Record FilterCollaborators : Type := {
  (** [push_filter_to_storage.extractPartitionFilter]: pushed and remaining *)
  extractPartitionFilter : AST -> list AST * list AST;
  (** [PredicateUtils] *)
  combineConjuncts : list AST -> AST;
  extractConjuncts : AST -> list AST;
  subtract : list AST -> list AST -> list AST;
  supportsPrewhere : bool;
  (** [getColumnSizes().empty()] *)
  column_sizes_empty : bool;
  (** what constructing [MergeTreeWhereOptimizer] does to the query *)
  MergeTreeWhereOptimizer : SelectQuery -> SelectQuery;
}.

Definition applyFilter (F : FilterCollaborators) (settings : FilterSettings)
    (query_filter : AST) (query_info : QueryInfo) : Outcome AST * QueryInfo :=
  (* Set partition_filter *)
  let '(conjuncts, filters) :=
    if external_enable_partition_filter_push_down settings then
      let '(push_predicates, remain_predicates) := extractPartitionFilter F query_filter in
      (remain_predicates, partition_filters query_info ++ push_predicates)
    else ([], partition_filters query_info) in
  (* Set query.where() *)
  let select :=
    {| select_where := Some (combineConjuncts F conjuncts);
       select_prewhere := select_prewhere (select_query query_info);
       select_final := select_final (select_query query_info) |} in
  (* Set prewhere() *)
  let promotion : Outcome SelectQuery :=
    if supportsPrewhere F && optimize_move_to_prewhere settings
       && has_value (select_where select) && negb (has_value (select_prewhere select))
       && (negb (select_final select) || optimize_move_to_prewhere_if_final settings)
    then
      match hive_move_to_prewhere_method settings with
      | ALL =>
        Returns {| select_where := select_where select;
                   select_prewhere := Some (combineConjuncts F conjuncts);
                   select_final := select_final select |}
      | COLUMN_SIZE =>
        if negb (column_sizes_empty F) then Returns (MergeTreeWhereOptimizer F select)
        else Returns select
      | NEVER => Returns select
      | OtherMethod => Raises (NOT_IMPLEMENTED "Unimplemented move to prewhere method")
      end
    else Returns select in
  match promotion with
  | Raises e =>
    (Raises e, {| select_query := select; partition_filters := filters |})
  | Returns select' =>
    (* remove prewhere from query plan *)
    let conjuncts' :=
      match select_prewhere select' with
      | Some prewhere => subtract F conjuncts (extractConjuncts F prewhere)
      | None => conjuncts
      end in
    (Returns (combineConjuncts F conjuncts'),
     {| select_query := select'; partition_filters := filters |})
  end.

(** The changes that [checkAlterSettings] looks at: those of the commands
    of type MODIFY_SETTING, in order. *)
Definition changes_checked (commands : list AlterCommand) : list SettingChange :=
  flat_map settings_changes (List.filter is_MODIFY_SETTING commands).

(** Collaborators of [applyFilter] for examples: a conjunction is an [and]
    node, the conjuncts pushed to the partitions are the calls of [equals] on
    the column [d], and nothing is ever subtracted. *)
Module Filters.
Definition conjuncts_of (ast : AST) : list AST :=
  match ast with
  | ASTFunction "and" (Some children) => children
  | _ => [ast]
  end.

Definition on_partition_column (ast : AST) : bool :=
  match ast with
  | ASTFunction "equals" (Some (ASTIdentifier "d" :: _)) => true
  | _ => false
  end.

Definition combine (conjuncts : list AST) : AST :=
  match conjuncts with
  | [] => ASTLiteral (FUInt64 1)
  | [conjunct] => conjunct
  | _ => ASTFunction "and" (Some conjuncts)
  end.

Definition collaborators : FilterCollaborators :=
  {| extractPartitionFilter := fun ast =>
       (List.filter on_partition_column (conjuncts_of ast),
        List.filter (fun c => negb (on_partition_column c)) (conjuncts_of ast));
     combineConjuncts := combine;
     extractConjuncts := conjuncts_of;
     subtract := fun conjuncts _ => conjuncts;
     supportsPrewhere := true;
     column_sizes_empty := true;
     MergeTreeWhereOptimizer := fun select => select |}.

Definition settings (push_down : bool) (method : HiveMoveToPrewhereMethod)
  : FilterSettings :=
  {| external_enable_partition_filter_push_down := push_down;
     optimize_move_to_prewhere := true;
     optimize_move_to_prewhere_if_final := false;
     hive_move_to_prewhere_method := method |}.

Definition query (prewhere : option AST) : QueryInfo :=
  {| select_query := {| select_where := None; select_prewhere := prewhere;
                        select_final := false |};
     partition_filters := [] |}.
End Filters.

(** Whether the hash index of a file lets it through for the bucket [b]: it
    is unknown, or it is [b]. *)
Definition index_fits (b : Z) (file : HiveFile) : bool :=
  match get_file_hash_index (file_path file) with
  | Ok (Some i) => i =? b
  | Ok None => true
  | Throw _ => false
  end.

(** ** Proof tools *)

(** Induction over the syntax tree, with the hypothesis for every child. *)
Fixpoint AST_children_ind (P : AST -> Prop)
    (Hleaf : forall name, P (ASTFunction name None))
    (Hnode : forall name children, Forall P children -> P (ASTFunction name (Some children)))
    (Hlit : forall v, P (ASTLiteral v))
    (Hid : forall name, P (ASTIdentifier name))
    (ast : AST) : P ast :=
  match ast with
  | ASTFunction name None => Hleaf name
  | ASTFunction name (Some children) =>
    Hnode name children
      ((fix all (l : list AST) : Forall P l :=
          match l with
          | [] => List.Forall_nil P
          | child :: rest =>
            @List.Forall_cons AST P child rest
              (AST_children_ind P Hleaf Hnode Hlit Hid child) (all rest)
          end) children)
  | ASTLiteral v => Hlit v
  | ASTIdentifier name => Hid name
  end.

(** Unfolds the operations of [M]. *)
Ltac run_M := cbv [mbind M_bind mret M_ret modify lift throw].

(** Cases on what decides an innermost [match] of the goal. *)
Ltac case_match_goal :=
  match goal with
  | |- context [match ?x with _ => _ end] =>
    lazymatch x with
    | context [match _ with _ => _ end] => fail
    | _ => destruct x eqn:?
    end
  end.

(** * Proofs *)

(** ** Strings and positions *)

Lemma size_nonneg (s : string) : 0 <= size s.
Proof. unfold size. lia. Qed.

Lemma size_String (a : ascii) (s : string) : size (String a s) = size s + 1.
Proof. unfold size. simpl String.length. lia. Qed.

Lemma size_t_add_npos : size_t_add npos 1 = 0.
Proof. reflexivity. Qed.

Lemma size_t_add_small (i : Z) :
  0 <= i -> i + 1 < size_t_modulus -> size_t_add i 1 = i + 1.
Proof. intros H0 H1. unfold size_t_add. apply Z.mod_small. lia. Qed.

Lemma after_last_shorter (c : ascii) (s t : string) :
  after_last c s = Some t -> size t < size s.
Proof.
  revert t. induction s as [|a s IH]; intros t; simpl after_last.
  - discriminate.
  - rewrite size_String. destruct (after_last c s) as [u|].
    + intros [= <-]. specialize (IH u eq_refl). lia.
    + destruct (Ascii.eqb a c); [intros [= <-]; lia | discriminate].
Qed.

Lemma after_last_skip (c : ascii) (s t : string) :
  after_last c s = Some t -> skip (Z.to_nat (size s - size t)) s = t.
Proof.
  revert t. induction s as [|a s IH]; intros t; simpl after_last.
  - discriminate.
  - rewrite size_String. destruct (after_last c s) as [u|] eqn:E.
    + intros [= <-]. pose proof (after_last_shorter _ _ _ E) as Hlt.
      pose proof (size_nonneg u) as Hu.
      replace (Z.to_nat (size s + 1 - size u)) with (S (Z.to_nat (size s - size u))) by lia.
      simpl skip. apply IH. reflexivity.
    + destruct (Ascii.eqb a c); [|discriminate].
      intros [= <-]. replace (size s + 1 - size s) with 1 by lia. reflexivity.
Qed.

Lemma find_last_of_from_after_last (s : string) (c : ascii) (i found : Z) :
  find_last_of_from s c i found =
  match after_last c s with
  | Some t => i + size s - size t - 1
  | None => found
  end.
Proof.
  revert i found. induction s as [|a s IH]; intros i found.
  - reflexivity.
  - simpl find_last_of_from. simpl after_last. rewrite IH, size_String.
    destruct (after_last c s) as [u|].
    + lia.
    + destruct (Ascii.eqb a c); [lia | reflexivity].
Qed.

(** Where the scan of a rule starts: right after the last [c], and at the
    first character when the path has no [c] ([npos + 1] is [0]). *)
Lemma scan_start (c : ascii) (path : string) :
  size path < npos ->
  let pos := size_t_add (find_last_of path c) 1 in
  0 <= pos /\
  skip (Z.to_nat pos) path =
    match after_last c path with
    | Some t => t
    | None => path
    end.
Proof.
  intros Hsize pos. subst pos. unfold find_last_of.
  rewrite find_last_of_from_after_last.
  destruct (after_last c path) as [t|] eqn:E.
  - pose proof (after_last_shorter _ _ _ E) as Hlt.
    pose proof (size_nonneg t) as Ht.
    rewrite size_t_add_small by (unfold npos, size_t_modulus in *; lia).
    split; [lia|].
    replace (0 + size path - size t - 1 + 1) with (size path - size t) by lia.
    apply after_last_skip with (c := c). exact E.
  - rewrite size_t_add_npos. split; [lia | reflexivity].
Qed.

Lemma substring_skip (n m : nat) (s : string) :
  String.substring n m s = String.substring 0 m (skip n s).
Proof.
  revert s. induction n as [|n IH]; intros s.
  - reflexivity.
  - destruct s as [|a s]; simpl.
    + destruct m; reflexivity.
    + apply IH.
Qed.

Lemma substring_digit_run (t : string) :
  String.substring 0 (String.length (digit_run t)) t = digit_run t.
Proof.
  induction t as [|a t IH]; simpl.
  - reflexivity.
  - destruct (isdigit a); simpl; [now rewrite IH | reflexivity].
Qed.

Lemma digit_run_idempotent (t : string) : digit_run (digit_run t) = digit_run t.
Proof.
  induction t as [|a t IH]; simpl.
  - reflexivity.
  - destruct (isdigit a) eqn:E; simpl; [rewrite E, IH|]; reflexivity.
Qed.

Lemma isdigit_value (a : ascii) :
  isdigit a = true -> 0 <= Z.of_N (N_of_ascii a) - 48 <= 9.
Proof. unfold isdigit. cbv zeta. lia. Qed.

Lemma decimal_value_digit_run_ge (t : string) (acc : Z) :
  0 <= acc -> acc <= decimal_value acc (digit_run t).
Proof.
  revert acc. induction t as [|a t IH]; intros acc Hacc; simpl.
  - lia.
  - destruct (isdigit a) eqn:E; simpl; [|lia].
    pose proof (isdigit_value _ E) as Hd.
    etransitivity; [|apply IH]; lia.
Qed.

Lemma nonempty_size (s : string) : nonempty s = (0 <? size s).
Proof. destruct s; [reflexivity|]. rewrite size_String. pose proof (size_nonneg s). unfold nonempty. simpl. lia. Qed.

(** [std::stoi] on a run of digits. *)
Lemma stoi_digit_run (t : string) :
  nonempty (digit_run t) = true ->
  stoi (digit_run t) =
  if decimal_value 0 (digit_run t) <=? INT_MAX
  then Ok (decimal_value 0 (digit_run t)) else Throw out_of_range.
Proof.
  intros Hne. unfold stoi. cbv zeta. rewrite digit_run_idempotent.
  unfold nonempty in Hne. destruct (String.eqb (digit_run t) EmptyString); [discriminate | reflexivity].
Qed.

(** The lambda, read on the suffix that starts at [pos]. *)
Lemma get_hash_index_from_position_run (path : string) (pos : Z) :
  0 <= pos ->
  let run := digit_run (skip (Z.to_nat pos) path) in
  get_hash_index_from_position path pos =
  if nonempty run then
    if decimal_value 0 run <=? INT_MAX
    then Ok (Some (decimal_value 0 run)) else Throw out_of_range
  else Ok None.
Proof.
  intros Hpos run. unfold get_hash_index_from_position. cbv zeta. fold run.
  rewrite nonempty_size.
  replace (pos <? pos + size run) with (0 <? size run) by lia.
  destruct (0 <? size run) eqn:E; [|reflexivity].
  unfold substr. replace (pos + size run - pos) with (size run) by lia.
  unfold size. rewrite Nat2Z.id, substring_skip. subst run.
  rewrite substring_digit_run, stoi_digit_run by (rewrite nonempty_size; exact E).
  destruct (_ <=? INT_MAX); reflexivity.
Qed.

Lemma to_UInt64_small (v : Z) : 0 <= v <= INT_MAX -> to_UInt64 v = v.
Proof. intros H. unfold to_UInt64. apply Z.mod_small. unfold INT_MAX, size_t_modulus in *. lia. Qed.

(** [get_file_hash_index] in terms of the two runs of digits. *)
Lemma get_file_hash_index_runs (path : string) :
  size path < npos ->
  get_file_hash_index path =
  let run1 := run_after_last_or_start underscore path in
  if nonempty run1 then parse_run run1
  else
    let run2 := run_after_last_or_start slash path in
    if nonempty run2 then parse_run run2 else Ok None.
Proof.
  intros Hsize. unfold get_file_hash_index. cbv zeta.
  destruct (scan_start underscore path Hsize) as [Hp1 Hs1].
  destruct (scan_start slash path Hsize) as [Hp2 Hs2].
  rewrite (get_hash_index_from_position_run path _ Hp1),
          (get_hash_index_from_position_run path _ Hp2).
  cbv zeta. rewrite Hs1, Hs2.
  assert (Hrun : forall c, digit_run match after_last c path with Some t => t | None => path end
                           = run_after_last_or_start c path).
  { intros c. unfold run_after_last_or_start. destruct (after_last c path); reflexivity. }
  rewrite !Hrun.
  assert (Hparse : forall run, nonempty run = true -> run = digit_run run ->
            (if decimal_value 0 run <=? INT_MAX then Ok (Some (decimal_value 0 run))
             else Throw out_of_range) ≫= (fun res : option Z =>
               match res with Some v => mret (Some (to_UInt64 v)) | None => mret None end)
            = parse_run run).
  { intros run _ Hrun'. unfold parse_run.
    destruct (decimal_value 0 run <=? INT_MAX) eqn:E; [|reflexivity].
    cbn. unfold mret, Res_ret. rewrite to_UInt64_small; [reflexivity|].
    split; [|lia]. rewrite Hrun'. apply decimal_value_digit_run_ge. lia. }
  assert (Hidem : forall c, run_after_last_or_start c path
                            = digit_run (run_after_last_or_start c path)).
  { intros c. rewrite <- Hrun. symmetry. apply digit_run_idempotent. }
  destruct (nonempty (run_after_last_or_start underscore path)) eqn:E1.
  - (* rule 1 *)
    unfold mbind at 1. unfold Res_bind.
    pose proof (Hparse _ E1 (Hidem underscore)) as H1. unfold mbind, Res_bind in H1.
    destruct (decimal_value 0 (run_after_last_or_start underscore path) <=? INT_MAX) eqn:Ev.
    + unfold parse_run in *. rewrite Ev in *. exact H1.
    + unfold parse_run. rewrite Ev. reflexivity.
  - cbn. destruct (nonempty (run_after_last_or_start slash path)) eqn:E2; [|reflexivity].
    pose proof (Hparse _ E2 (Hidem slash)) as H2. unfold mbind, Res_bind in H2.
    destruct (decimal_value 0 (run_after_last_or_start slash path) <=? INT_MAX) eqn:Ev.
    + unfold parse_run in *. rewrite Ev in *. exact H2.
    + unfold parse_run. rewrite Ev. reflexivity.
Qed.

(** ** get_file_hash_index *)

(** A path without [c]: the scan of its rule starts at position [0]. *)
Lemma scan_wraps_to_start (c : ascii) (path : string) :
  after_last c path = None ->
  find_last_of path c = npos /\ size_t_add (find_last_of path c) 1 = 0.
Proof.
  intros H. unfold find_last_of. rewrite find_last_of_from_after_last, H.
  split; reflexivity.
Qed.

(** A path without underscore that begins with digits: the index is the value
    of these digits, as long as [std::stoi] accepts it. *)
Lemma leading_digits_index (path : string) :
  size path < npos ->
  after_last underscore path = None ->
  nonempty (digit_run path) = true ->
  decimal_value 0 (digit_run path) <= INT_MAX ->
  get_file_hash_index path = Ok (Some (decimal_value 0 (digit_run path))).
Proof.
  intros Hsize Hno Hne Hfit. rewrite get_file_hash_index_runs by exact Hsize.
  cbv zeta. unfold run_after_last_or_start. rewrite Hno, Hne.
  unfold parse_run. destruct (_ <=? INT_MAX) eqn:E; [reflexivity | lia].
Qed.

(** The two readings of a rule agree on a path that holds [c], and on one
    that does not begin with a digit. *)
Lemma run_after_last_or_start_spec (c : ascii) (path : string) :
  after_last c path <> None \/ digit_run path = EmptyString ->
  run_after_last_or_start c path = spec_run_after_last c path.
Proof.
  unfold run_after_last_or_start, spec_run_after_last.
  destruct (after_last c path); [reflexivity|].
  intros [H|H]; [congruence | exact H].
Qed.

(** C1 (as amended): the hash index of the three example paths.  The tea
    path yields 3; the Hive/Trino path yields 3 as well, since the
    characters after its last underscore are no digits and the digits after
    its last slash are 000003; a path with neither yields none. *)
Theorem get_file_hash_index_examples :
  get_file_hash_index tea_path = Ok (Some 3) /\
  spec_run_after_last underscore hive_trino_path = EmptyString /\
  get_file_hash_index hive_trino_path = Ok (Some 3) /\
  get_file_hash_index "no_digits_here" = Ok None.
Proof. repeat split; vm_compute; reflexivity. Qed.

(** C1, as stated, fails on the Hive/Trino path: its index is not 33. *)
Lemma hive_trino_path_index_is_not_33 :
  get_file_hash_index hive_trino_path <> Ok (Some 33).
Proof. vm_compute. discriminate. Qed.

(** C2 (as amended): on every path the index is found by the two rules in
    order, where the scan of a rule starts at the first character of the
    path when the path lacks the rule's character, and the value that
    decides is one [std::stoi] accepts. *)
Theorem get_file_hash_index_two_tier (path : string) :
  size path < npos ->
  (forall n, two_tier_index path = Some n -> n <= INT_MAX) ->
  get_file_hash_index path = Ok (two_tier_index path).
Proof.
  intros Hsize Hfit. rewrite get_file_hash_index_runs by exact Hsize.
  unfold two_tier_index in *. cbv zeta in *. unfold parse_run.
  destruct (nonempty (run_after_last_or_start underscore path)).
  - specialize (Hfit _ eq_refl).
    destruct (_ <=? INT_MAX) eqn:E; [reflexivity | lia].
  - destruct (nonempty (run_after_last_or_start slash path)); [|reflexivity].
    specialize (Hfit _ eq_refl).
    destruct (_ <=? INT_MAX) eqn:E; [reflexivity | lia].
Qed.

Lemma get_file_hash_index_two_tier_witness :
  size hive_trino_path < npos /\
  (forall n, two_tier_index hive_trino_path = Some n -> n <= INT_MAX) /\
  get_file_hash_index hive_trino_path = Ok (two_tier_index hive_trino_path).
Proof.
  assert (H1 : size hive_trino_path < npos) by (vm_compute; reflexivity).
  assert (H2 : forall n, two_tier_index hive_trino_path = Some n -> n <= INT_MAX).
  { intros n H. vm_compute in H. injection H as <-. vm_compute. discriminate. }
  exact (conj H1 (conj H2 (get_file_hash_index_two_tier hive_trino_path H1 H2))).
Defined.

(** C2, as stated, fails on a path without underscore that begins with a
    digit: the first rule reads the leading 7, where the wording finds no
    underscore and goes on to the digits after the slash. *)
Lemma get_file_hash_index_not_spec_worded :
  get_file_hash_index "7/8" = Ok (Some 7) /\
  spec_file_hash_index "7/8" = Some 8 /\
  get_file_hash_index "7/8" <> Ok (spec_file_hash_index "7/8").
Proof.
  split; [vm_compute; reflexivity|].
  split; [vm_compute; reflexivity|].
  vm_compute. discriminate.
Qed.

(** C9: a path without underscore whose leading digits exceed [INT_MAX].  The
    scan of the first rule starts at position 0 and reads all fourteen
    digits, and [std::stoi] throws instead of yielding them as the index. *)
Theorem leading_digits_out_of_range :
  after_last underscore "20200316160557.parquet" = None /\
  size_t_add (find_last_of "20200316160557.parquet" underscore) 1 = 0 /\
  digit_run "20200316160557.parquet" = "20200316160557"%string /\
  get_file_hash_index "20200316160557.parquet" = Throw out_of_range.
Proof. repeat split; vm_compute; reflexivity. Qed.

(** ** The bucket pruner *)

Lemma remove_if_filter {A : Type} (pred : A -> Res bool) (l : list A) :
  match remove_if pred l with
  | Ok kept =>
    kept = List.filter
             (fun x => negb match pred x with Ok true => true | _ => false end) l
  | Throw e => exists x, In x l /\ pred x = Throw e
  end.
Proof.
  induction l as [|x l IH]; simpl.
  - reflexivity.
  - unfold mbind at 1. unfold Res_bind. destruct (pred x) as [b|e] eqn:Ex.
    + destruct (remove_if pred l) as [kept|e]; simpl.
      * subst kept. destruct b; reflexivity.
      * destruct IH as (y & Hy & Hthrow). exists y. auto.
    + exists x. auto.
Qed.

Lemma prune_predicate_true (b : Z) (file : HiveFile) :
  prune_predicate (Some b) file = Ok true <->
  exists i, get_file_hash_index (file_path file) = Ok (Some i) /\ i <> b.
Proof.
  unfold prune_predicate.
  destruct (get_file_hash_index (file_path file)) as [[i|]|e]; simpl.
  - unfold mret, Res_ret. destruct (Z.eqb_spec i b) as [->|Hne]; simpl; split.
    + discriminate.
    + intros (j & [= <-] & Hj). contradiction.
    + intros _. exists i. auto.
    + reflexivity.
  - split; [discriminate | intros (j & [=] & _)].
  - split; [discriminate | intros (j & [=] & _)].
Qed.

Lemma removes_iff (required_bucket : option Z) (file : HiveFile) :
  removes required_bucket file = true <->
  exists b i, required_bucket = Some b /\
              get_file_hash_index (file_path file) = Ok (Some i) /\ i <> b.
Proof.
  unfold removes. destruct required_bucket as [b|].
  - rewrite <- (Bool.not_false_iff_true (match _ with Ok true => true | _ => false end)).
    assert (H : prune_predicate (Some b) file = Ok true <->
                match prune_predicate (Some b) file with Ok true => true | _ => false end = true).
    { destruct (prune_predicate (Some b) file) as [[|]|]; split; congruence. }
    rewrite Bool.not_false_iff_true, <- H, prune_predicate_true.
    split.
    + intros (i & Hi & Hne). exists b, i. auto.
    + intros (b' & i & [= <-] & Hi & Hne). exists i. auto.
  - simpl. split; [discriminate | intros (b & i & [=] & _)].
Qed.

(** When the pruner throws, reading the hash index of some file threw. *)
Lemma prune_files_filter (required_bucket : option Z) (hive_files : HiveFiles) :
  match prune_files required_bucket hive_files with
  | Ok kept =>
    kept = List.filter (fun file => negb (removes required_bucket file)) hive_files
  | Throw e =>
    exists file, In file hive_files /\ get_file_hash_index (file_path file) = Throw e
  end.
Proof.
  unfold prune_files.
  pose proof (remove_if_filter (prune_predicate required_bucket) hive_files) as H.
  destruct (remove_if (prune_predicate required_bucket) hive_files) as [kept|e].
  - exact H.
  - destruct H as (file & Hin & Hthrow). exists file. split; [exact Hin|].
    unfold prune_predicate in Hthrow. destruct required_bucket as [b|]; [|discriminate].
    destruct (get_file_hash_index (file_path file)); simpl in Hthrow; [discriminate | congruence].
Qed.

(** C3: the pruning step does not always retain a file without hash index.
    Take the file set of ["no_digits_here"], which has no hash index, and of
    a file named the way Hudi names its files, with a timestamp behind the
    last underscore, on a bucket table with the cluster key filter on and a
    query that resolves to the bucket 1.  Reading the hash index of the
    second file, [std::stoi] throws on the fourteen digits of the timestamp;
    the exception leaves [std::remove_if], and the step yields no file set
    at all, for this and for any other required bucket. *)
Theorem bucket_pruning_out_of_range :
  let retained_by_claim := file_at "no_digits_here" in
  let hive_files := [retained_by_claim; file_at hudi_path] in
  get_file_hash_index (file_path retained_by_claim) = Ok None /\
  get_file_hash_index (file_path (file_at hudi_path)) = Throw out_of_range /\
  isBucketTable Demo.bucket_table && use_hive_cluster_key_filter (Demo.settings 0) = true /\
  getSelectedBucketNumber Tea.collaborators Demo.bucket_table Demo.bucketed Tea.optimizer
  = Ok (Some 1) /\
  prune_by_bucket Tea.collaborators Demo.bucket_table (Demo.settings 0) Demo.bucketed
    Tea.optimizer hive_files Demo.empty_world
  = (Throw out_of_range, Demo.empty_world) /\
  (forall b, prune_files (Some b) hive_files = Throw out_of_range).
Proof.
  intros retained_by_claim hive_files.
  assert (Hnone : get_file_hash_index (file_path retained_by_claim) = Ok None)
    by (vm_compute; reflexivity).
  assert (Hthrow : get_file_hash_index (file_path (file_at hudi_path)) = Throw out_of_range)
    by (vm_compute; reflexivity).
  split; [exact Hnone|]. split; [exact Hthrow|].
  split; [vm_compute; reflexivity|]. split; [vm_compute; reflexivity|].
  split; [vm_compute; reflexivity|].
  intros b. unfold prune_files, hive_files. cbn [remove_if].
  unfold prune_predicate. rewrite Hnone, Hthrow. reflexivity.
Qed.

(** ** The bucket resolver *)

Section BucketResolverProofs.
Context (C : Collaborators) (block : list string).

Lemma parse_and (children : list AST) (columns : MutableColumns) :
  parse_cluster_by_cond C block (ASTFunction "and" (Some children)) columns =
  parse_children C block children columns.
Proof.
  simpl. revert columns. induction children as [|child rest IH]; intros columns.
  - reflexivity.
  - simpl. destruct (parse_cluster_by_cond C block child columns); simpl; [apply IH | reflexivity].
Qed.

Lemma parse_other_function (name : string) (arguments : option (list AST))
    (columns : MutableColumns) :
  name <> "equals"%string -> name <> "and"%string ->
  parse_cluster_by_cond C block (ASTFunction name arguments) columns = Ok columns.
Proof.
  intros Heq Hand. destruct arguments as [children|]; [|reflexivity].
  simpl. apply String.eqb_neq in Heq, Hand. rewrite Heq, Hand. reflexivity.
Qed.

Lemma parse_equals (child0 child1 : AST) (columns : MutableColumns) :
  parse_cluster_by_cond C block (ASTFunction "equals" (Some [child0; child1])) columns =
  bind_equals C block child0 child1 columns.
Proof. reflexivity. Qed.

Lemma parse_equals_arity (children : list AST) (columns : MutableColumns) :
  length children <> 2%nat ->
  parse_cluster_by_cond C block (ASTFunction "equals" (Some children)) columns = Ok columns.
Proof.
  intros Hlen. simpl. apply Nat.eqb_neq in Hlen. rewrite Hlen. reflexivity.
Qed.

Lemma insert_if_empty_bound (pos : nat) (v : Field) (columns : MutableColumns)
    (column : list Field) :
  columns !! pos = Some column -> column <> [] ->
  insert_if_empty pos v columns = columns.
Proof.
  intros Hpos Hne. unfold insert_if_empty. rewrite Hpos.
  destruct column; [contradiction | reflexivity].
Qed.

Lemma insert_if_empty_unbound (pos : nat) (v : Field) (columns : MutableColumns) :
  columns !! pos = Some [] ->
  insert_if_empty pos v columns = <[pos := [v]]> columns.
Proof. intros Hpos. unfold insert_if_empty. rewrite Hpos. reflexivity. Qed.

(** A bound column keeps its value through one more insertion. *)
Lemma insert_if_empty_keeps (pos pos' : nat) (v : Field) (columns : MutableColumns)
    (column : list Field) :
  columns !! pos = Some column -> column <> [] ->
  insert_if_empty pos' v columns !! pos = Some column.
Proof.
  intros Hpos Hne. unfold insert_if_empty.
  destruct (columns !! pos') as [column'|] eqn:E; [|exact Hpos].
  destruct column' as [|x column']; unfold column_empty; [|exact Hpos].
  destruct (decide (pos' = pos)) as [->|Hdiff].
  - rewrite Hpos in E. injection E as ->. contradiction.
  - rewrite list_lookup_insert_ne by exact Hdiff. exact Hpos.
Qed.

Lemma bind_equals_keeps (child0 child1 : AST) (columns columns' : MutableColumns)
    (pos : nat) (column : list Field) :
  bind_equals C block child0 child1 columns = Ok columns' ->
  columns !! pos = Some column -> column <> [] ->
  columns' !! pos = Some column.
Proof.
  unfold bind_equals. intros H Hpos Hne.
  destruct (evaluateConstantExpressionOrIdentifierAsLiteral C child0) as [f0|]; [|discriminate].
  simpl in H.
  destruct (evaluateConstantExpressionOrIdentifierAsLiteral C child1) as [f1|]; [|discriminate].
  simpl in H. destruct (safeGet_String f0) as [name|]; [|discriminate].
  simpl in H. destruct (getPositionByName block name) as [pos'|];
    injection H as <-; [|exact Hpos].
  apply insert_if_empty_keeps; assumption.
Qed.

(** First binding wins: a column that holds a value keeps it through the
    traversal of any condition. *)
Lemma parse_keeps_bound (ast : AST) :
  forall (columns columns' : MutableColumns) (pos : nat) (column : list Field),
    parse_cluster_by_cond C block ast columns = Ok columns' ->
    columns !! pos = Some column -> column <> [] ->
    columns' !! pos = Some column.
Proof.
  induction ast as [name|name children IH|v|name] using AST_children_ind;
    intros columns columns' pos column Hparse Hpos Hne;
    try (injection Hparse as <-; exact Hpos).
  destruct (String.eqb_spec name "equals") as [->|Hneq].
  - destruct children as [|c0 [|c1 [|c2 rest]]];
      try (injection Hparse as <-; exact Hpos).
    rewrite parse_equals in Hparse. eapply bind_equals_keeps; eassumption.
  - destruct (String.eqb_spec name "and") as [->|Hnand].
    + rewrite parse_and in Hparse. clear Hneq.
      revert columns Hparse Hpos.
      induction IH as [|child rest Hchild _ IHrest]; intros columns Hparse Hpos.
      * injection Hparse as <-. exact Hpos.
      * simpl in Hparse.
        destruct (parse_cluster_by_cond C block child columns) as [mid|] eqn:E;
          [|discriminate].
        simpl in Hparse. apply (IHrest mid Hparse).
        eapply Hchild; eassumption.
    + rewrite parse_other_function in Hparse by assumption.
      injection Hparse as <-. exact Hpos.
Qed.
End BucketResolverProofs.

Lemma existsb_column_empty (columns : MutableColumns) :
  existsb column_empty columns = true <-> In [] columns.
Proof.
  rewrite existsb_exists. split.
  - intros (column & Hin & Hempty). destruct column; [exact Hin | discriminate].
  - intros Hin. exists []. split; [exact Hin | reflexivity].
Qed.

(** C4: the resolver walks the condition through AND nodes only, an
    [equals(column, literal)] leaf binds the named cluster-by column if that
    column is still unbound, a bound column keeps its first value through
    the rest of the walk, and once the walk is over a column left unbound
    makes the resolver return none, without error, whatever the other
    columns hold; with every column bound the result is the value of the
    cluster-by expression. *)
Theorem bucket_resolver_binds_through_and (C : Collaborators) (storage : StorageCnchHive)
    (metadata_snapshot : StorageMetadata) (optimizer : HiveWhereOptimizer) :
  let block := cluster_by_required_columns metadata_snapshot in
  let parse := parse_cluster_by_cond C block in
  (forall name arguments columns,
     name <> "equals"%string -> name <> "and"%string ->
     parse (ASTFunction name arguments) columns = Ok columns) /\
  (forall v columns, parse (ASTLiteral v) columns = Ok columns) /\
  (forall name columns, parse (ASTIdentifier name) columns = Ok columns) /\
  (forall children columns,
     parse (ASTFunction "and" (Some children)) columns =
     parse_children C block children columns) /\
  (forall child0 child1 name v columns,
     evaluateConstantExpressionOrIdentifierAsLiteral C child0 = Some (FString name) ->
     evaluateConstantExpressionOrIdentifierAsLiteral C child1 = Some v ->
     parse (ASTFunction "equals" (Some [child0; child1])) columns =
     Ok match getPositionByName block name with
        | Some pos => insert_if_empty pos v columns
        | None => columns
        end) /\
  (forall pos v (columns : MutableColumns),
     columns !! pos = Some [] -> insert_if_empty pos v columns = <[pos := [v]]> columns) /\
  (forall ast (columns columns' : MutableColumns) pos column,
     parse ast columns = Ok columns' ->
     columns !! pos = Some column -> column <> [] ->
     columns' !! pos = Some column) /\
  (forall conds columns,
     isBucketTable storage = true ->
     cluster_key_conds optimizer = Some conds ->
     parse conds (map (fun _ => []) block) = Ok columns ->
     (In [] columns ->
      getSelectedBucketNumber C storage metadata_snapshot optimizer = Ok None) /\
     (~ In [] columns ->
      getSelectedBucketNumber C storage metadata_snapshot optimizer
      = Ok (Some (cluster_by_execute C columns)))).
Proof.
  intros block parse. subst parse.
  split; [intros; apply parse_other_function; assumption|].
  split; [reflexivity|]. split; [reflexivity|].
  split; [intros; apply parse_and|].
  split.
  { intros child0 child1 name v columns H0 H1. rewrite parse_equals.
    unfold bind_equals. rewrite H0, H1. simpl.
    destruct (getPositionByName block name); reflexivity. }
  split; [intros; apply insert_if_empty_unbound; assumption|].
  split; [intros; eapply parse_keeps_bound; eassumption|].
  intros conds columns Hbucket Hconds Hparse.
  unfold getSelectedBucketNumber. rewrite Hbucket, Hconds. simpl negb. cbv iota.
  fold block. rewrite Hparse. simpl.
  pose proof (existsb_column_empty columns) as Hex.
  destruct (existsb column_empty columns).
  - split; [reflexivity|]. intros Hnot. exfalso. apply Hnot, Hex. reflexivity.
  - split; [|reflexivity]. intros Hin. apply Hex in Hin. discriminate.
Qed.

Lemma bucket_resolver_binds_through_and_witness :
  let optimizer := {| partition_key_conds := None;
                      cluster_key_conds := Some Demo.conds_a_only |} in
  parse_cluster_by_cond Demo.three_days ["a"; "b"]%string Demo.conds_a_only [[]; []]
  = Ok [[FUInt64 1]; []] /\
  getSelectedBucketNumber Demo.three_days Demo.bucket_table Demo.bucketed optimizer
  = Ok None.
Proof.
  intros optimizer.
  assert (Hparse : parse_cluster_by_cond Demo.three_days ["a"; "b"]%string
                     Demo.conds_a_only [[]; []] = Ok [[FUInt64 1]; []])
    by (vm_compute; reflexivity).
  split; [exact Hparse|].
  pose proof (bucket_resolver_binds_through_and Demo.three_days
                Demo.bucket_table Demo.bucketed optimizer) as H.
  cbv zeta in H.
  destruct H as (_ & _ & _ & _ & _ & _ & _ & H).
  refine (proj1 (H Demo.conds_a_only [[FUInt64 1]; []] eq_refl eq_refl Hparse) _).
  right. left. reflexivity.
Defined.

(** ** The thread pool *)

Section PoolProofs.
Context (list_files : HivePartition -> HiveFiles) (num_threads : nat).

Local Abbreviation step := (pool_step list_files num_threads).
Local Abbreviation act := (pool_act list_files num_threads).

Lemma flat_map_delete (l : list HivePartition) (i : nat) (p : HivePartition) :
  l !! i = Some p ->
  Permutation (flat_map list_files l) (list_files p ++ flat_map list_files (delete i l)).
Proof.
  intros H. change (list_files p ++ flat_map list_files (delete i l))
    with (flat_map list_files (p :: delete i l)).
  apply Permutation_flat_map. apply delete_Permutation. exact H.
Qed.

(** No action loses or duplicates a file. *)
Lemma pool_act_all (a : Action) (s s' : PoolState) :
  act a s = Some s' -> Permutation (pool_all list_files s') (pool_all list_files s).
Proof.
  destruct a as [i|j]; simpl.
  - destruct (length (running s) <? num_threads)%nat; [|discriminate].
    destruct (pending s !! i) as [p|] eqn:E; [|discriminate].
    intros [= <-]. unfold pool_all. simpl.
    apply Permutation_app_head. rewrite flat_map_app. simpl. rewrite app_nil_r.
    rewrite (flat_map_delete _ _ _ E), app_assoc. reflexivity.
  - destruct (running s !! j) as [p|] eqn:E; [|discriminate].
    intros [= <-]. unfold pool_all. simpl.
    rewrite (flat_map_delete _ _ _ E), <- !app_assoc. reflexivity.
Qed.

(** Every job is started once. *)
Lemma pool_act_jobs (a : Action) (s s' : PoolState) :
  act a s = Some s' ->
  Permutation (started s' ++ pending s') (started s ++ pending s).
Proof.
  destruct a as [i|j]; simpl.
  - destruct (length (running s) <? num_threads)%nat; [|discriminate].
    destruct (pending s !! i) as [p|] eqn:E; [|discriminate].
    intros [= <-]. simpl. rewrite <- app_assoc. simpl.
    apply Permutation_app_head. symmetry. apply delete_Permutation. exact E.
  - destruct (running s !! j) as [p|]; [|discriminate].
    intros [= <-]. reflexivity.
Qed.

(** At most [num_threads] workers run at a time. *)
Lemma pool_act_bound (a : Action) (s s' : PoolState) :
  act a s = Some s' ->
  (length (running s) <= num_threads)%nat -> (length (running s') <= num_threads)%nat.
Proof.
  destruct a as [i|j]; simpl.
  - destruct (Nat.ltb_spec (length (running s)) num_threads) as [Hlt|]; [|discriminate].
    destruct (pending s !! i) as [p|]; [|discriminate].
    intros [= <-] _. simpl. rewrite length_app. simpl. lia.
  - destruct (running s !! j) as [p|] eqn:E; [|discriminate].
    intros [= <-] Hle. simpl.
    pose proof (length_delete (running s) j (mk_is_Some _ _ E)) as Hlen. lia.
Qed.

Lemma pool_steps_invariant (s s' : PoolState) :
  rtc step s s' ->
  Permutation (pool_all list_files s') (pool_all list_files s) /\
  Permutation (started s' ++ pending s') (started s ++ pending s) /\
  ((length (running s) <= num_threads)%nat -> (length (running s') <= num_threads)%nat).
Proof.
  induction 1 as [s|s mid s' [a Ha] _ (IH1 & IH2 & IH3)].
  - repeat split; auto.
  - split; [|split].
    + rewrite IH1. eapply pool_act_all. exact Ha.
    + rewrite IH2. eapply pool_act_jobs. exact Ha.
    + intros Hle. apply IH3. eapply pool_act_bound; eassumption.
Qed.

Lemma run_schedule_steps (sched : list Action) (s : PoolState) :
  rtc step s (run_schedule list_files num_threads sched s).
Proof.
  revert s. induction sched as [|a sched IH]; intros s; simpl.
  - apply rtc_refl.
  - destruct (act a s) as [s'|] eqn:E; [|apply IH].
    eapply rtc_l; [exists a; exact E | apply IH].
Qed.

(** The workers that run commit one after the other. *)
Lemma commit_running (pend run st : list HivePartition) (files : HiveFiles) :
  rtc step
    {| pending := pend; running := run; started := st; pool_files := files |}
    {| pending := pend; running := []; started := st;
       pool_files := files ++ flat_map list_files run |}.
Proof.
  revert files. induction run as [|p run IH]; intros files; simpl.
  - rewrite app_nil_r. apply rtc_refl.
  - eapply rtc_l; [exists (Commit 0); reflexivity|]. simpl.
    rewrite app_assoc. apply IH.
Qed.

(** With a worker at hand, the pending jobs run one after the other. *)
Lemma run_pending (pend st : list HivePartition) (files : HiveFiles) :
  (1 <= num_threads)%nat ->
  rtc step
    {| pending := pend; running := []; started := st; pool_files := files |}
    {| pending := []; running := []; started := st ++ pend;
       pool_files := files ++ flat_map list_files pend |}.
Proof.
  intros Hn. revert st files. induction pend as [|p pend IH]; intros st files; simpl.
  - rewrite !app_nil_r. apply rtc_refl.
  - eapply rtc_l.
    { exists (Start 0). simpl. destruct (Nat.ltb_spec 0 num_threads); [reflexivity | lia]. }
    eapply rtc_l; [exists (Commit 0); reflexivity|]. simpl.
    replace (st ++ p :: pend) with ((st ++ [p]) ++ pend) by (rewrite <- app_assoc; reflexivity).
    rewrite app_assoc. apply IH.
Qed.

Lemma pool_wait_steps (s : PoolState) :
  (1 <= num_threads)%nat \/ pending s = [] ->
  rtc step s (pool_wait list_files s).
Proof.
  destruct s as [pend run st files]. unfold pool_wait. simpl. intros H.
  etransitivity; [apply commit_running|].
  rewrite flat_map_app, app_assoc.
  destruct H as [Hn| ->].
  - apply run_pending. exact Hn.
  - simpl. rewrite !app_nil_r. apply rtc_refl.
Qed.

Lemma pool_wait_final (s : PoolState) : pool_final (pool_wait list_files s).
Proof. split; reflexivity. Qed.

Lemma pool_wait_all (s : PoolState) :
  pool_files (pool_wait list_files s) = pool_all list_files s.
Proof. unfold pool_wait, pool_all. simpl. rewrite flat_map_app. reflexivity. Qed.

Lemma pool_wait_of_final (s : PoolState) : pool_final s -> pool_wait list_files s = s.
Proof.
  destruct s as [pend run st files]. intros [Hp Hr]. simpl in Hp, Hr. subst.
  unfold pool_wait. simpl. rewrite !app_nil_r. reflexivity.
Qed.

(** Every run of the pool is the run of some schedule. *)
Lemma steps_have_schedule (s s' : PoolState) :
  rtc step s s' -> exists sched, run_schedule list_files num_threads sched s = s'.
Proof.
  induction 1 as [s|s mid s' [a Ha] _ [sched IH]].
  - exists []. reflexivity.
  - exists (a :: sched). simpl. rewrite Ha. exact IH.
Qed.

(** The files of a finished run, whatever the order of the workers. *)
Lemma pool_final_files (partitions : HivePartitions) (final : PoolState) :
  rtc step (pool_init partitions []) final -> pool_final final ->
  Permutation (pool_files final) (flat_map list_files partitions) /\
  Permutation (started final) partitions.
Proof.
  intros Hrun [Hp Hr]. destruct (pool_steps_invariant _ _ Hrun) as (H1 & H2 & _).
  unfold pool_all in H1. rewrite Hp, Hr in H1. rewrite Hp in H2.
  simpl in H1, H2. rewrite !app_nil_r in *. auto.
Qed.
End PoolProofs.

(** ** The stages of prepareReadContext *)

Lemma log_listed_nil (w : World) : log_listed [] w = w.
Proof. destruct w. unfold log_listed. simpl. rewrite app_nil_r. reflexivity. Qed.

Lemma log_listed_app (ps qs : list HivePartition) (w : World) :
  log_listed qs (log_listed ps w) = log_listed (ps ++ qs) w.
Proof. unfold log_listed. simpl. rewrite app_assoc. reflexivity. Qed.

Section StageProofs.
Context (C : Collaborators).

Lemma select_unpruned_filter (pruner : bool) (apache : list ApachePartition)
    (partitions : HivePartitions) :
  select_unpruned C pruner apache partitions =
  partitions ++ List.filter (kept_by_pruner C pruner) (map (load C) apache).
Proof.
  revert partitions. induction apache as [|ap apache IH]; intros partitions; simpl.
  - rewrite app_nil_r. reflexivity.
  - rewrite IH. unfold kept_by_pruner at 2.
    destruct (pruner && canBePruned C _ _); simpl.
    + reflexivity.
    + rewrite <- app_assoc. reflexivity.
Qed.

Lemma selectPartitions_partitioned (storage : StorageCnchHive) (settings : Settings)
    (metadata_snapshot : StorageMetadata) (optimizer : HiveWhereOptimizer) (w : World) :
  hasPartitionKey metadata_snapshot = true ->
  selectPartitions C storage settings metadata_snapshot optimizer w =
  (Ok (List.filter (kept_by_pruner C (use_hive_partition_filter settings))
         (map (load C) (getPartitionsByFilter C (metastore_filter C settings optimizer)))),
   log_metastore_request (metastore_filter C settings optimizer) w).
Proof.
  intros Hkey. unfold selectPartitions. rewrite Hkey. simpl negb. cbv iota.
  run_M. rewrite select_unpruned_filter. reflexivity.
Qed.

Lemma selectPartitions_unpartitioned (storage : StorageCnchHive) (settings : Settings)
    (metadata_snapshot : StorageMetadata) (optimizer : HiveWhereOptimizer) (w : World) :
  hasPartitionKey metadata_snapshot = false ->
  selectPartitions C storage settings metadata_snapshot optimizer w =
  (Ok [load_sd C (hive_table_sd storage)], w).
Proof. intros Hkey. unfold selectPartitions. rewrite Hkey. reflexivity. Qed.

(** Selection returns, and asks nothing but the metastore. *)
Lemma selectPartitions_returns (storage : StorageCnchHive) (settings : Settings)
    (metadata_snapshot : StorageMetadata) (optimizer : HiveWhereOptimizer) (w : World) :
  exists partitions w1,
    selectPartitions C storage settings metadata_snapshot optimizer w = (Ok partitions, w1) /\
    disks_opened w1 = disks_opened w /\ listed w1 = listed w /\
    cnch_resource w1 = cnch_resource w.
Proof.
  destruct (hasPartitionKey metadata_snapshot) eqn:Hkey.
  - eexists _, _. split; [apply selectPartitions_partitioned; exact Hkey|].
    repeat split.
  - eexists _, _. split; [apply selectPartitions_unpartitioned; exact Hkey|].
    repeat split.
Qed.

Lemma check_max_partitions_run (settings : Settings) (partitions : HivePartitions)
    (w : World) :
  check_max_partitions settings partitions w =
  (if (0 <? max_partitions_to_read settings) &&
      (max_partitions_to_read settings mod size_t_modulus <? Z.of_nat (length partitions))
   then Throw (TOO_MANY_PARTITIONS (Z.of_nat (length partitions))
                 (max_partitions_to_read settings))
   else Ok tt, w).
Proof.
  unfold check_max_partitions.
  destruct (0 <? max_partitions_to_read settings); [|reflexivity].
  destruct (_ <? Z.of_nat (length partitions)); reflexivity.
Qed.

Lemma eqb_recognized (input_format : string) :
  ~ recognized input_format ->
  String.eqb input_format hudi_input_format = false /\
  String.eqb input_format parquet_input_format = false /\
  String.eqb input_format orc_input_format = false.
Proof.
  unfold recognized. intros H. repeat split; apply String.eqb_neq; intros ->; tauto.
Qed.

Lemma getDirectoryLister_run (storage : StorageCnchHive) (w : World) :
  let uri := sd_table_location (hive_table_sd storage) in
  let disk := getDiskFromURI C uri in
  let input_format := inputFormat (hive_table_sd storage) in
  getDirectoryLister C storage w =
  (if String.eqb input_format hudi_input_format then Ok (HudiCowDirectoryLister disk)
   else if String.eqb input_format parquet_input_format
        then Ok (DiskDirectoryLister disk PARQUET)
   else if String.eqb input_format orc_input_format then Ok (DiskDirectoryLister disk ORC)
   else Throw (UNKNOWN_FORMAT input_format),
   log_disk uri w).
Proof.
  cbv zeta. unfold getDirectoryLister. run_M.
  fold hudi_input_format parquet_input_format orc_input_format.
  destruct (String.eqb _ hudi_input_format); [reflexivity|].
  destruct (String.eqb _ parquet_input_format); [reflexivity|].
  destruct (String.eqb _ orc_input_format); reflexivity.
Qed.

Lemma list_sequentially_run (lister : DirectoryLister) (partitions : HivePartitions)
    (hive_files : HiveFiles) (w : World) :
  list_sequentially C lister partitions hive_files w =
  (Ok (hive_files ++ flat_map (lister_list C lister) partitions), log_listed partitions w).
Proof.
  revert hive_files w. induction partitions as [|p partitions IH]; intros hive_files w.
  - simpl. run_M. rewrite app_nil_r, log_listed_nil. reflexivity.
  - simpl. unfold list_partition. run_M. run_M. rewrite IH.
    rewrite log_listed_app, <- app_assoc. reflexivity.
Qed.

(** The concurrent branch cannot starve: its pool has a worker whenever it
    has a job. *)
Lemma concurrent_branch_has_worker (num_streams : Z) (partitions : HivePartitions) :
  lists_sequentially num_streams partitions = false ->
  (1 <= Z.to_nat (Z.min num_streams (Z.of_nat (length partitions))))%nat \/
  partitions = [].
Proof.
  unfold lists_sequentially. intros H. apply Bool.orb_false_iff in H as [H1 H2].
  destruct partitions as [|p partitions]; [right; reflexivity|left].
  simpl length in *. lia.
Qed.

(** Listing returns; its files and the partitions it listed are those of
    the sequential loop, up to order. *)
Lemma list_partitions_run (sched : list Action) (num_streams : Z)
    (lister : DirectoryLister) (partitions : HivePartitions) (w : World) :
  exists files order,
    list_partitions C sched num_streams lister partitions w
    = (Ok files, log_listed order w) /\
    Permutation files (flat_map (lister_list C lister) partitions) /\
    Permutation order partitions /\
    (lists_sequentially num_streams partitions = true ->
     files = flat_map (lister_list C lister) partitions /\ order = partitions).
Proof.
  unfold list_partitions.
  destruct (lists_sequentially num_streams partitions) eqn:Hseq.
  - exists (flat_map (lister_list C lister) partitions), partitions.
    rewrite list_sequentially_run. simpl. auto.
  - unfold list_concurrently. cbv zeta. run_M.
    set (n := Z.to_nat (Z.min num_streams (Z.of_nat (length partitions)))).
    set (mid := run_schedule (lister_list C lister) n sched (pool_init partitions [])).
    eexists _, _. split; [reflexivity|].
    assert (Hrun : rtc (pool_step (lister_list C lister) n) (pool_init partitions [])
                     (pool_wait (lister_list C lister) mid)).
    { etransitivity; [apply run_schedule_steps|]. apply pool_wait_steps.
      destruct (concurrent_branch_has_worker _ _ Hseq) as [Hn| ->]; [left; exact Hn|].
      right. subst mid.
      destruct (pool_steps_invariant _ _ _ _
                  (run_schedule_steps (lister_list C lister) n sched (pool_init [] [])))
        as (_ & Hjobs & _).
      simpl in Hjobs. symmetry in Hjobs. apply Permutation_nil in Hjobs.
      apply app_eq_nil in Hjobs. tauto. }
    destruct (pool_final_files _ _ _ _ Hrun (pool_wait_final _ _)) as [Hfiles Hjobs].
    split; [exact Hfiles|]. split; [exact Hjobs|]. discriminate.
Qed.
End StageProofs.

(** ** Which stage throws what *)

Section ErrorProofs.
Context (C : Collaborators).

Lemma stoi_errors (str : string) (e : Error) :
  stoi str = Throw e -> bucket_stage_error e.
Proof.
  unfold stoi. cbv zeta. destruct (String.eqb _ _); [intros [= <-]; exact I|].
  destruct (_ <=? INT_MAX); [discriminate | intros [= <-]; exact I].
Qed.

Lemma get_hash_index_from_position_errors (path : string) (pos : Z) (e : Error) :
  get_hash_index_from_position path pos = Throw e -> bucket_stage_error e.
Proof.
  unfold get_hash_index_from_position. cbv zeta. destruct (_ <? _); [|discriminate].
  destruct (stoi _) eqn:E; [discriminate|]. simpl. intros [= <-].
  eapply stoi_errors. exact E.
Qed.

Lemma get_file_hash_index_errors (path : string) (e : Error) :
  get_file_hash_index path = Throw e -> bucket_stage_error e.
Proof.
  unfold get_file_hash_index.
  destruct (get_hash_index_from_position path (size_t_add (find_last_of path underscore) 1))
    as [[v|]|e1] eqn:E1; simpl.
  - discriminate.
  - destruct (get_hash_index_from_position path (size_t_add (find_last_of path slash) 1))
      as [[v|]|e2] eqn:E2; simpl; try discriminate.
    intros [= <-]. eapply get_hash_index_from_position_errors. exact E2.
  - intros [= <-]. eapply get_hash_index_from_position_errors. exact E1.
Qed.

Lemma prune_files_errors (required_bucket : option Z) (hive_files : HiveFiles) (e : Error) :
  prune_files required_bucket hive_files = Throw e -> bucket_stage_error e.
Proof.
  intros H. pose proof (prune_files_filter required_bucket hive_files) as Haux.
  rewrite H in Haux. destruct Haux as (file & _ & Hthrow).
  eapply get_file_hash_index_errors. exact Hthrow.
Qed.

Lemma bind_equals_errors (block : list string) (child0 child1 : AST)
    (columns : MutableColumns) (e : Error) :
  bind_equals C block child0 child1 columns = Throw e -> bucket_stage_error e.
Proof.
  unfold bind_equals.
  destruct (evaluateConstantExpressionOrIdentifierAsLiteral C child0) as [f0|]; simpl;
    [|intros [= <-]; exact I].
  destruct (evaluateConstantExpressionOrIdentifierAsLiteral C child1) as [f1|]; simpl;
    [|intros [= <-]; exact I].
  destruct f0; simpl; try (intros [= <-]; exact I).
  destruct (getPositionByName block v); discriminate.
Qed.

Lemma parse_errors (block : list string) (ast : AST) :
  forall (columns : MutableColumns) (e : Error),
    parse_cluster_by_cond C block ast columns = Throw e -> bucket_stage_error e.
Proof.
  induction ast as [name|name children IH|v|name] using AST_children_ind;
    intros columns e Hparse; try discriminate.
  destruct (String.eqb_spec name "equals") as [->|Hneq].
  - destruct children as [|c0 [|c1 [|c2 rest]]]; try discriminate.
    rewrite parse_equals in Hparse. eapply bind_equals_errors. exact Hparse.
  - destruct (String.eqb_spec name "and") as [->|Hnand].
    + rewrite parse_and in Hparse. clear Hneq. revert columns Hparse.
      induction IH as [|child rest Hchild _ IHrest]; intros columns Hparse.
      * discriminate.
      * simpl in Hparse.
        destruct (parse_cluster_by_cond C block child columns) as [mid|e'] eqn:E.
        -- simpl in Hparse. eapply IHrest. exact Hparse.
        -- simpl in Hparse. injection Hparse as <-. eapply Hchild. exact E.
    + rewrite parse_other_function in Hparse by assumption. discriminate.
Qed.

Lemma getSelectedBucketNumber_errors (storage : StorageCnchHive)
    (metadata_snapshot : StorageMetadata) (optimizer : HiveWhereOptimizer) (e : Error) :
  getSelectedBucketNumber C storage metadata_snapshot optimizer = Throw e ->
  bucket_stage_error e.
Proof.
  unfold getSelectedBucketNumber.
  destruct (negb (isBucketTable storage)); [discriminate|].
  destruct (cluster_key_conds optimizer) as [conds|]; [|discriminate].
  cbv zeta.
  destruct (parse_cluster_by_cond C _ conds _) as [columns|e'] eqn:E; simpl.
  - destruct (existsb column_empty columns); discriminate.
  - intros [= <-]. eapply parse_errors. exact E.
Qed.
End ErrorProofs.

(** ** prepareReadContext *)

Section PlanningProofs.
Context (C : Collaborators).

Lemma collectResource_run (storage : StorageCnchHive) (hive_files : HiveFiles) (w : World) :
  exists res w',
    collectResource C storage hive_files w = (Ok res, w') /\
    result_hive_files res = hive_files /\
    metastore_requests w' = metastore_requests w /\
    disks_opened w' = disks_opened w /\
    listed w' = listed w /\
    cnch_resource w' = registered C storage hive_files (cnch_resource w).
Proof.
  unfold collectResource. cbv zeta. run_M. eexists _, _.
  split; [reflexivity|]. repeat split.
Qed.

(** The bucket stage touches nothing outside; it keeps some of the files
    or throws what the resolver or the pruner throws. *)
Lemma prune_by_bucket_run (storage : StorageCnchHive) (settings : Settings)
    (metadata_snapshot : StorageMetadata) (optimizer : HiveWhereOptimizer)
    (hive_files : HiveFiles) (w : World) :
  exists r,
    prune_by_bucket C storage settings metadata_snapshot optimizer hive_files w = (r, w) /\
    match r with
    | Ok kept => incl kept hive_files
    | Throw e => bucket_stage_error e
    end.
Proof.
  unfold prune_by_bucket.
  destruct (isBucketTable storage && use_hive_cluster_key_filter settings).
  - run_M.
    destruct (getSelectedBucketNumber C storage metadata_snapshot optimizer)
      as [required_bucket|e] eqn:E.
    + eexists. split; [reflexivity|].
      pose proof (prune_files_filter required_bucket hive_files) as H.
      destruct (prune_files required_bucket hive_files) as [kept|e] eqn:Ep.
      * subst kept. intros file Hin. apply List.filter_In in Hin. tauto.
      * eapply prune_files_errors. exact Ep.
    + eexists. split; [reflexivity|]. eapply getSelectedBucketNumber_errors. exact E.
  - eexists. split; [reflexivity|]. apply incl_refl.
Qed.

(** What [prepareReadContext] does once the partitions are selected and
    within the ceiling. *)
Lemma list_and_prune_outcome (sched : list Action) (storage : StorageCnchHive)
    (settings : Settings) (metadata_snapshot : StorageMetadata)
    (optimizer : HiveWhereOptimizer) (num_streams : Z) (partitions : HivePartitions)
    (w : World) :
  let input_format := inputFormat (hive_table_sd storage) in
  exists r w',
    list_and_prune C sched storage settings metadata_snapshot optimizer num_streams
      partitions w = (r, w') /\
    metastore_requests w' = metastore_requests w /\
    disks_opened w' = disks_opened w ++ [sd_table_location (hive_table_sd storage)] /\
    ((~ recognized input_format /\ r = Throw (UNKNOWN_FORMAT input_format) /\
      listed w' = listed w /\ cnch_resource w' = cnch_resource w) \/
     (recognized input_format /\ Permutation (listed w') (listed w ++ partitions) /\
      match r with
      | Ok res =>
        cnch_resource w' = registered C storage (result_hive_files res) (cnch_resource w)
      | Throw e => bucket_stage_error e /\ cnch_resource w' = cnch_resource w
      end)).
Proof.
  cbv zeta. unfold list_and_prune. unfold mbind at 1. unfold M_bind.
  rewrite getDirectoryLister_run. cbv zeta.
  assert (Hgo : forall lister, exists r w',
    (hive_files ← list_partitions C sched num_streams lister partitions;
     hive_files ← prune_by_bucket C storage settings metadata_snapshot optimizer hive_files;
     collectResource C storage hive_files)
      (log_disk (sd_table_location (hive_table_sd storage)) w) = (r, w') /\
    metastore_requests w' = metastore_requests w /\
    disks_opened w' = disks_opened w ++ [sd_table_location (hive_table_sd storage)] /\
    Permutation (listed w') (listed w ++ partitions) /\
    match r with
    | Ok res =>
      cnch_resource w' = registered C storage (result_hive_files res) (cnch_resource w)
    | Throw e => bucket_stage_error e /\ cnch_resource w' = cnch_resource w
    end).
  { intros lister.
    destruct (list_partitions_run C sched num_streams lister partitions
                (log_disk (sd_table_location (hive_table_sd storage)) w))
      as (files & order & Hlist & _ & Horder & _).
    unfold mbind at 1. unfold M_bind. rewrite Hlist.
    destruct (prune_by_bucket_run storage settings metadata_snapshot optimizer files
                (log_listed order (log_disk (sd_table_location (hive_table_sd storage)) w)))
      as (r & Hprune & Hr).
    unfold mbind at 1. unfold M_bind. rewrite Hprune.
    destruct r as [kept|e].
    - destruct (collectResource_run storage kept
                  (log_listed order (log_disk (sd_table_location (hive_table_sd storage)) w)))
        as (res & w' & Hcollect & Hres & Hm & Hd & Hl & Hc).
      exists (Ok res), w'. rewrite Hcollect. split; [reflexivity|].
      rewrite Hm, Hd, Hl, Hc, Hres. simpl.
      repeat split. apply Permutation_app_head. exact Horder.
    - eexists _, _. split; [reflexivity|]. simpl.
      repeat split; [|exact Hr]. apply Permutation_app_head. exact Horder. }
  destruct (String.eqb_spec (inputFormat (hive_table_sd storage)) hudi_input_format) as [E1|E1].
  { destruct (Hgo (HudiCowDirectoryLister
                     (getDiskFromURI C (sd_table_location (hive_table_sd storage)))))
      as (r & w' & H & Hm & Hd & Hrest).
    exists r, w'. split; [exact H|]. split; [exact Hm|]. split; [exact Hd|].
    right. split; [left; exact E1 | exact Hrest]. }
  destruct (String.eqb_spec (inputFormat (hive_table_sd storage)) parquet_input_format) as [E2|E2].
  { destruct (Hgo (DiskDirectoryLister
                     (getDiskFromURI C (sd_table_location (hive_table_sd storage))) PARQUET))
      as (r & w' & H & Hm & Hd & Hrest).
    exists r, w'. split; [exact H|]. split; [exact Hm|]. split; [exact Hd|].
    right. split; [right; left; exact E2 | exact Hrest]. }
  destruct (String.eqb_spec (inputFormat (hive_table_sd storage)) orc_input_format) as [E3|E3].
  { destruct (Hgo (DiskDirectoryLister
                     (getDiskFromURI C (sd_table_location (hive_table_sd storage))) ORC))
      as (r & w' & H & Hm & Hd & Hrest).
    exists r, w'. split; [exact H|]. split; [exact Hm|]. split; [exact Hd|].
    right. split; [right; right; exact E3 | exact Hrest]. }
  eexists _, _. split; [reflexivity|]. simpl. repeat split.
  left. repeat split. unfold recognized. tauto.
Qed.

(** [prepareReadContext], stage by stage. *)
Lemma prepareReadContext_run (sched : list Action) (storage : StorageCnchHive)
    (settings : Settings) (metadata_snapshot : StorageMetadata)
    (optimizer : HiveWhereOptimizer) (num_streams : Z) (w : World)
    (partitions : HivePartitions) (w1 : World) :
  selectPartitions C storage settings metadata_snapshot optimizer w = (Ok partitions, w1) ->
  prepareReadContext C sched storage settings metadata_snapshot optimizer num_streams w =
  if (0 <? max_partitions_to_read settings) &&
     (max_partitions_to_read settings mod size_t_modulus <? Z.of_nat (length partitions))
  then (Throw (TOO_MANY_PARTITIONS (Z.of_nat (length partitions))
                 (max_partitions_to_read settings)), w1)
  else list_and_prune C sched storage settings metadata_snapshot optimizer num_streams
         partitions w1.
Proof.
  intros Hsel. unfold prepareReadContext. unfold mbind at 1. unfold M_bind.
  rewrite Hsel. unfold mbind at 1. unfold M_bind. rewrite check_max_partitions_run.
  destruct (_ && _); reflexivity.
Qed.
End PlanningProofs.

(** ** The partition ceiling *)

(** C5: with a ceiling [N > 0], more than [N] selected partitions make
    planning fail with TOO_MANY_PARTITIONS, which carries the count and [N];
    without a ceiling ([N <= 0], so [N = 0]) or within it, planning goes on
    with all the selected partitions, never fails with that error, and with
    a lister at hand lists every one of them. *)
Theorem partition_ceiling_enforced (C : Collaborators) (sched : list Action)
    (storage : StorageCnchHive) (settings : Settings) (metadata_snapshot : StorageMetadata)
    (optimizer : HiveWhereOptimizer) (num_streams : Z) (w : World)
    (partitions : HivePartitions) (w1 : World) :
  selectPartitions C storage settings metadata_snapshot optimizer w = (Ok partitions, w1) ->
  let N := max_partitions_to_read settings in
  let count := Z.of_nat (length partitions) in
  let plan :=
    prepareReadContext C sched storage settings metadata_snapshot optimizer num_streams w in
  (0 < N <= INT64_MAX -> N < count ->
   plan = (Throw (TOO_MANY_PARTITIONS count N), w1)) /\
  (N <= 0 \/ (N <= INT64_MAX /\ count <= N) ->
   plan = list_and_prune C sched storage settings metadata_snapshot optimizer num_streams
            partitions w1 /\
   (forall e, fst plan = Throw e -> is_TOO_MANY_PARTITIONS e = false) /\
   (recognized (inputFormat (hive_table_sd storage)) ->
    Permutation (listed (snd plan)) (listed w1 ++ partitions))).
Proof.
  intros Hsel N count plan. subst plan.
  rewrite (prepareReadContext_run C _ _ _ _ _ _ _ _ _ Hsel). fold N count.
  split.
  - intros [Hpos Hmax] Hgt.
    rewrite Z.mod_small by (unfold INT64_MAX, size_t_modulus in *; lia).
    destruct (Z.ltb_spec 0 N); [|lia]. destruct (Z.ltb_spec N count); [|lia].
    reflexivity.
  - intros Hno.
    assert (Hcheck : (0 <? N) && (N mod size_t_modulus <? count) = false).
    { destruct Hno as [Hle|[Hmax Hle]].
      - destruct (Z.ltb_spec 0 N); [lia | reflexivity].
      - destruct (Z.ltb_spec 0 N); [|reflexivity].
        rewrite Z.mod_small by (unfold INT64_MAX, size_t_modulus in *; lia).
        destruct (Z.ltb_spec N count); [lia | reflexivity]. }
    rewrite Hcheck. split; [reflexivity|].
    destruct (list_and_prune_outcome C sched storage settings metadata_snapshot optimizer
                num_streams partitions w1) as (r & w' & Hrun & _ & _ & Hcases).
    rewrite Hrun. simpl. split.
    + intros e ->. destruct Hcases as [(_ & [= ->] & _)|(_ & _ & Herr & _)]; [reflexivity|].
      destruct e; simpl in *; tauto.
    + intros Hrec. destruct Hcases as [(Hnot & _)|(_ & Hperm & _)]; [contradiction | exact Hperm].
Qed.

Lemma partition_ceiling_enforced_witness :
  let plan := prepareReadContext Demo.three_days [] Demo.parquet_table (Demo.settings 2)
                Demo.partitioned Demo.no_conds 8 Demo.empty_world in
  fst plan = Throw (TOO_MANY_PARTITIONS 3 2).
Proof.
  intros plan.
  pose proof (selectPartitions_partitioned Demo.three_days Demo.parquet_table
                (Demo.settings 2) Demo.partitioned Demo.no_conds Demo.empty_world eq_refl)
    as Hsel.
  pose proof (partition_ceiling_enforced Demo.three_days [] Demo.parquet_table
                (Demo.settings 2) Demo.partitioned Demo.no_conds 8 Demo.empty_world _ _ Hsel)
    as H.
  cbv zeta in H. destruct H as [H _].
  subst plan. rewrite H.
  - reflexivity.
  - vm_compute. split; [reflexivity | discriminate].
  - vm_compute. reflexivity.
Defined.

(** C10: when planning fails with the partition-count error, the error is
    the one of the ceiling check: the partitions were selected and nothing
    else was done; no disk was opened for a lister, no partition was listed,
    and the resource context holds what it held before. *)
Theorem ceiling_failure_before_listing (C : Collaborators) (sched : list Action)
    (storage : StorageCnchHive) (settings : Settings) (metadata_snapshot : StorageMetadata)
    (optimizer : HiveWhereOptimizer) (num_streams : Z) (w w' : World) (current max : Z) :
  prepareReadContext C sched storage settings metadata_snapshot optimizer num_streams w
  = (Throw (TOO_MANY_PARTITIONS current max), w') ->
  (exists partitions,
     selectPartitions C storage settings metadata_snapshot optimizer w = (Ok partitions, w') /\
     current = Z.of_nat (length partitions) /\
     max = max_partitions_to_read settings /\ 0 < max) /\
  disks_opened w' = disks_opened w /\
  listed w' = listed w /\
  cnch_resource w' = cnch_resource w.
Proof.
  intros Hplan.
  destruct (selectPartitions_returns C storage settings metadata_snapshot optimizer w)
    as (partitions & w1 & Hsel & Hd & Hl & Hc).
  rewrite (prepareReadContext_run C _ _ _ _ _ _ _ _ _ Hsel) in Hplan.
  destruct ((0 <? max_partitions_to_read settings) && _) eqn:Hcheck.
  - injection Hplan as <- <- <-. split; [|auto].
    exists partitions. apply andb_prop in Hcheck as [Hpos _].
    repeat split; [exact Hsel | lia].
  - exfalso.
    destruct (list_and_prune_outcome C sched storage settings metadata_snapshot optimizer
                num_streams partitions w1) as (r & w2 & Hrun & _ & _ & Hcases).
    rewrite Hrun in Hplan. injection Hplan as -> ->.
    destruct Hcases as [(_ & [=] & _)|(_ & _ & Herr & _)]. exact Herr.
Qed.

Lemma ceiling_failure_before_listing_witness :
  exists w',
    prepareReadContext Demo.three_days [] Demo.parquet_table (Demo.settings 2)
      Demo.partitioned Demo.no_conds 8 Demo.empty_world
    = (Throw (TOO_MANY_PARTITIONS 3 2), w') /\
    disks_opened w' = [] /\ listed w' = [] /\
    cnch_resource w' = {| create_queries := []; data_parts := [] |}.
Proof.
  eexists. split; [vm_compute; reflexivity|].
  exact (proj2 (ceiling_failure_before_listing Demo.three_days [] Demo.parquet_table
                  (Demo.settings 2) Demo.partitioned Demo.no_conds 8 Demo.empty_world
                  _ 3 2 eq_refl)).
Defined.

(** ** Partition selection *)

(** C6 (as amended): for a table with a partition key, whatever the
    settings of the metastore filter and of the local pruner, the partitions
    selected are among those the metastore reported to the one request
    made: they are the reported ones the pruner kept, in their order. *)
Theorem selected_partitions_from_metastore (C : Collaborators) (storage : StorageCnchHive)
    (settings : Settings) (metadata_snapshot : StorageMetadata)
    (optimizer : HiveWhereOptimizer) (w : World) :
  hasPartitionKey metadata_snapshot = true ->
  let filter := metastore_filter C settings optimizer in
  let reported := map (load C) (getPartitionsByFilter C filter) in
  exists partitions,
    selectPartitions C storage settings metadata_snapshot optimizer w
    = (Ok partitions, log_metastore_request filter w) /\
    partitions = List.filter (kept_by_pruner C (use_hive_partition_filter settings)) reported /\
    incl partitions reported.
Proof.
  intros Hkey filter reported. eexists. split; [|split; [reflexivity|]].
  - apply selectPartitions_partitioned. exact Hkey.
  - intros p Hin. apply List.filter_In in Hin. tauto.
Qed.

Lemma selected_partitions_from_metastore_witness :
  exists partitions,
    fst (selectPartitions Demo.three_days Demo.parquet_table
           {| max_partitions_to_read := 0; use_hive_metastore_filter := false;
              use_hive_partition_filter := true; use_hive_cluster_key_filter := false |}
           Demo.partitioned Demo.no_conds Demo.empty_world) = Ok partitions /\
    partitions = map Demo.partition_of [Demo.day "1"; Demo.day "2"] /\
    incl partitions (map Demo.partition_of [Demo.day "1"; Demo.day "2"; Demo.day "3"]).
Proof.
  destruct (selected_partitions_from_metastore Demo.three_days Demo.parquet_table
              {| max_partitions_to_read := 0; use_hive_metastore_filter := false;
                 use_hive_partition_filter := true; use_hive_cluster_key_filter := false |}
              Demo.partitioned Demo.no_conds Demo.empty_world eq_refl)
    as (partitions & Hsel & Hfilter & Hincl).
  exists partitions. rewrite Hsel. split; [reflexivity|]. split; [|exact Hincl].
  rewrite Hfilter. vm_compute. reflexivity.
Defined.

(** C6, as stated, fails for a table without partition key: the partition
    returned is built from the storage descriptor of the table, the
    metastore is not asked, and it would report no partition. *)
Lemma unpartitioned_table_partition_not_reported :
  let C := Demo.no_partitions in
  let settings := Demo.settings 0 in
  exists p,
    selectPartitions C Demo.plain_table settings Demo.unpartitioned Demo.no_conds
      Demo.empty_world = (Ok [p], Demo.empty_world) /\
    ~ In p (map (load C) (getPartitionsByFilter C (metastore_filter C settings Demo.no_conds))).
Proof.
  intros C settings. eexists. split; [vm_compute; reflexivity|].
  simpl. tauto.
Qed.

(** ** Lister selection *)

(** C8 (as amended): three input formats have a lister — Hudi
    copy-on-write, parquet
    and ORC, with the format tags HUDI_COW, PARQUET and ORC; for any other
    input format lister selection throws UNKNOWN_FORMAT.  Planning for such
    a table, once [selectPartitions] has returned, fails with no partition
    listed and nothing registered; the ceiling being checked before the
    lister is selected, it fails with TOO_MANY_PARTITIONS when a ceiling is
    set and exceeded, and with UNKNOWN_FORMAT otherwise. *)
Theorem lister_selection (C : Collaborators) (storage : StorageCnchHive) :
  let input_format := inputFormat (hive_table_sd storage) in
  let uri := sd_table_location (hive_table_sd storage) in
  let disk := getDiskFromURI C uri in
  (forall w,
     (input_format = hudi_input_format ->
      getDirectoryLister C storage w = (Ok (HudiCowDirectoryLister disk), log_disk uri w) /\
      lister_format (HudiCowDirectoryLister disk) = HUDI_COW) /\
     (input_format = parquet_input_format ->
      getDirectoryLister C storage w = (Ok (DiskDirectoryLister disk PARQUET), log_disk uri w) /\
      lister_format (DiskDirectoryLister disk PARQUET) = PARQUET) /\
     (input_format = orc_input_format ->
      getDirectoryLister C storage w = (Ok (DiskDirectoryLister disk ORC), log_disk uri w) /\
      lister_format (DiskDirectoryLister disk ORC) = ORC)) /\
  (~ recognized input_format ->
   (forall w,
      getDirectoryLister C storage w = (Throw (UNKNOWN_FORMAT input_format), log_disk uri w)) /\
   (forall sched settings metadata_snapshot optimizer num_streams w partitions w1,
      selectPartitions C storage settings metadata_snapshot optimizer w
      = (Ok partitions, w1) ->
      let N := max_partitions_to_read settings in
      let count := Z.of_nat (length partitions) in
      let plan :=
        prepareReadContext C sched storage settings metadata_snapshot optimizer
          num_streams w in
      fst plan
      = Throw (if (0 <? N) && (N mod size_t_modulus <? count)
               then TOO_MANY_PARTITIONS count N
               else UNKNOWN_FORMAT input_format) /\
      listed (snd plan) = listed w /\
      cnch_resource (snd plan) = cnch_resource w)).
Proof.
  intros input_format uri disk. split.
  - intros w. pose proof (getDirectoryLister_run C storage w) as H. cbv zeta in H.
    fold input_format uri disk in H. rewrite H. clear H.
    split; [|split]; intros ->; split; reflexivity.
  - intros Hnot. destruct (eqb_recognized _ Hnot) as (E1 & E2 & E3). split.
    + intros w. pose proof (getDirectoryLister_run C storage w) as H. cbv zeta in H.
      fold input_format uri disk in H. rewrite H, E1, E2, E3. reflexivity.
    + intros sched settings metadata_snapshot optimizer num_streams w partitions w1 Hsel
             N count plan.
      destruct (selectPartitions_returns C storage settings metadata_snapshot optimizer w)
        as (partitions' & w1' & Hsel' & _ & Hl & Hc).
      rewrite Hsel in Hsel'. injection Hsel' as <- <-.
      subst plan. rewrite (prepareReadContext_run C _ _ _ _ _ _ _ _ _ Hsel).
      fold N count.
      destruct ((0 <? N) && (N mod size_t_modulus <? count)).
      * simpl. split; [reflexivity|]. split; [exact Hl | exact Hc].
      * destruct (list_and_prune_outcome C sched storage settings metadata_snapshot optimizer
                    num_streams partitions w1) as (r & w' & Hrun & _ & _ & Hcases).
        destruct Hcases as [(_ & -> & Hl' & Hc')|(Hrec & _)]; [|contradiction].
        rewrite Hrun. simpl. split; [reflexivity|]. split; congruence.
Qed.

Lemma lister_selection_witness :
  exists w',
    prepareReadContext Demo.three_days [] Demo.text_table (Demo.settings 0)
      Demo.partitioned Demo.no_conds 8 Demo.empty_world
    = (Throw (UNKNOWN_FORMAT "org.apache.hadoop.mapred.TextInputFormat"), w') /\
    listed w' = [] /\
    fst (getDirectoryLister Demo.three_days Demo.parquet_table Demo.empty_world)
    = Ok (DiskDirectoryLister (DiskOf "/warehouse/t") PARQUET).
Proof.
  assert (Hnot : ~ recognized (inputFormat (hive_table_sd Demo.text_table))).
  { unfold recognized. intros [H|[H|H]]; vm_compute in H; discriminate. }
  pose proof (lister_selection Demo.three_days Demo.text_table) as H. cbv zeta in H.
  destruct H as [_ H]. destruct (H Hnot) as [_ Hplan].
  destruct (Hplan [] (Demo.settings 0) Demo.partitioned Demo.no_conds 8 Demo.empty_world
              _ _ eq_refl) as (Hrun & Hl & _).
  destruct (prepareReadContext _ _ _ _ _ _ _ _) as [r w'].
  exists w'. simpl in Hrun, Hl. rewrite Hrun. split; [reflexivity|]. split; [exact Hl|].
  pose proof (lister_selection Demo.three_days Demo.parquet_table) as Hp. cbv zeta in Hp.
  destruct Hp as [Hp _].
  destruct (Hp Demo.empty_world) as (_ & Hparquet & _).
  destruct (Hparquet eq_refl) as [-> _]. reflexivity.
Defined.

(** C8, as stated, fails where the partitions exceed the ceiling: for a
    table of text files with three partitions and a ceiling of two, planning
    fails with TOO_MANY_PARTITIONS, not with UNKNOWN_FORMAT: the format of
    the table is never looked at. *)
Lemma unknown_format_behind_ceiling :
  let plan :=
    prepareReadContext Demo.three_days [] Demo.text_table (Demo.settings 2)
      Demo.partitioned Demo.no_conds 8 Demo.empty_world in
  ~ recognized (inputFormat (hive_table_sd Demo.text_table)) /\
  fst plan = Throw (TOO_MANY_PARTITIONS 3 2) /\
  (forall input_format, fst plan <> Throw (UNKNOWN_FORMAT input_format)) /\
  disks_opened (snd plan) = [].
Proof.
  intros plan. split.
  - unfold recognized. intros [H|[H|H]]; vm_compute in H; discriminate.
  - assert (H : fst plan = Throw (TOO_MANY_PARTITIONS 3 2)) by (vm_compute; reflexivity).
    split; [exact H|]. split; [|vm_compute; reflexivity].
    intros input_format. rewrite H. discriminate.
Qed.

(** ** The listing orchestrator *)

(** C7: the sequential loop is taken exactly when the stream budget is at
    most 1 or there is one partition, the pool of the other branch has
    [min(num_streams, partitions.size())] workers and never runs more; for
    a given lister and partition set, budget 1 and any other budget, under
    any schedule of the workers, yield the same files and list the same
    partitions, up to order; so does every run of the pool to its end, and
    every such run is that of a schedule. *)
Theorem listing_order_independent (C : Collaborators) (lister : DirectoryLister)
    (partitions : HivePartitions) :
  let list_files := lister_list C lister in
  (forall num_streams,
     lists_sequentially num_streams partitions = true <->
     num_streams <= 1 \/ length partitions = 1%nat) /\
  (forall sched num_streams w,
     list_partitions C sched num_streams lister partitions w =
     if lists_sequentially num_streams partitions
     then list_sequentially C lister partitions [] w
     else list_concurrently C sched (Z.min num_streams (Z.of_nat (length partitions)))
            lister partitions [] w) /\
  (forall sched w,
     list_partitions C sched 1 lister partitions w
     = (Ok (flat_map list_files partitions), log_listed partitions w)) /\
  (forall sched num_streams w,
   exists files order,
     list_partitions C sched num_streams lister partitions w
     = (Ok files, log_listed order w) /\
     Permutation files (flat_map list_files partitions) /\
     Permutation order partitions) /\
  (forall num_threads s,
     rtc (pool_step list_files num_threads) (pool_init partitions []) s ->
     (length (running s) <= num_threads)%nat /\
     (pool_final s ->
      Permutation (pool_files s) (flat_map list_files partitions) /\
      exists sched,
        pool_wait list_files (run_schedule list_files num_threads sched
                                (pool_init partitions [])) = s)).
Proof.
  intros list_files. split; [|split; [|split; [|split]]].
  - intros num_streams. unfold lists_sequentially.
    rewrite Bool.orb_true_iff, Z.leb_le, Z.eqb_eq. split; intros [H|H]; auto; right; lia.
  - intros sched num_streams w. unfold list_partitions.
    destruct (lists_sequentially num_streams partitions); reflexivity.
  - intros sched w. unfold list_partitions, lists_sequentially. simpl.
    apply list_sequentially_run.
  - intros sched num_streams w.
    destruct (list_partitions_run C sched num_streams lister partitions w)
      as (files & order & Hrun & Hfiles & Horder & _).
    exists files, order. auto.
  - intros num_threads s Hrun. split.
    + destruct (pool_steps_invariant _ _ _ _ Hrun) as (_ & _ & Hbound).
      apply Hbound. simpl. lia.
    + intros Hfinal. split; [apply (pool_final_files _ _ _ _ Hrun Hfinal)|].
      destruct (steps_have_schedule _ _ _ _ Hrun) as [sched Hsched].
      exists sched. rewrite Hsched. apply pool_wait_of_final. exact Hfinal.
Qed.

Lemma listing_order_independent_witness :
  let partitions := map Demo.partition_of [Demo.day "1"; Demo.day "2"; Demo.day "3"] in
  let lister := DiskDirectoryLister (DiskOf "/warehouse/t") PARQUET in
  let sched := [Start 2; Start 0; Commit 1; Commit 0] in
  exists files1 files8,
    fst (list_partitions Demo.three_days sched 1 lister partitions Demo.empty_world)
    = Ok files1 /\
    fst (list_partitions Demo.three_days sched 8 lister partitions Demo.empty_world)
    = Ok files8 /\
    files1 <> files8 /\ Permutation files1 files8.
Proof.
  intros partitions lister sched.
  pose proof (listing_order_independent Demo.three_days lister partitions) as H.
  cbv zeta in H. destruct H as (_ & _ & Hseq & Hany & _).
  destruct (Hany sched 8 Demo.empty_world) as (files8 & order & Hrun & Hperm & _).
  exists (flat_map (lister_list Demo.three_days lister) partitions), files8.
  rewrite Hseq, Hrun. split; [reflexivity|]. split; [reflexivity|].
  split; [|symmetry; exact Hperm].
  assert (E : fst (list_partitions Demo.three_days sched 8 lister partitions Demo.empty_world)
              = Ok files8) by (rewrite Hrun; reflexivity).
  vm_compute in E. injection E as <-. vm_compute. discriminate.
Defined.

(** * Further properties *)

(** ** The hash index *)

Lemma size_t_add_nonneg (a b : Z) : 0 <= size_t_add a b.
Proof.
  unfold size_t_add. apply Z.mod_pos_bound. reflexivity.
Qed.

Lemma get_hash_index_from_position_outcomes (path : string) (pos : Z) :
  0 <= pos ->
  match get_hash_index_from_position path pos with
  | Ok (Some v) => 0 <= v <= INT_MAX
  | Ok None => True
  | Throw e => e = out_of_range
  end.
Proof.
  intros Hpos. rewrite get_hash_index_from_position_run by exact Hpos. cbv zeta.
  destruct (nonempty _); [|exact I].
  destruct (Z.leb_spec (decimal_value 0 (digit_run (skip (Z.to_nat pos) path))) INT_MAX).
  - split; [|assumption]. apply decimal_value_digit_run_ge. lia.
  - reflexivity.
Qed.

(** X1: whatever the path, an index that [get_file_hash_index] returns lies
    between 0 and [INT_MAX], and the only exception that leaves it is
    [std::out_of_range]. *)
Theorem get_file_hash_index_outcomes (path : string) :
  match get_file_hash_index path with
  | Ok (Some v) => 0 <= v <= INT_MAX
  | Ok None => True
  | Throw e => e = out_of_range
  end.
Proof.
  unfold get_file_hash_index.
  pose proof (get_hash_index_from_position_outcomes path _
                (size_t_add_nonneg (find_last_of path underscore) 1)) as H1.
  pose proof (get_hash_index_from_position_outcomes path _
                (size_t_add_nonneg (find_last_of path slash) 1)) as H2.
  destruct (get_hash_index_from_position path (size_t_add (find_last_of path underscore) 1))
    as [[v|]|e]; simpl.
  - rewrite to_UInt64_small; exact H1.
  - destruct (get_hash_index_from_position path (size_t_add (find_last_of path slash) 1))
      as [[v|]|e]; simpl; [rewrite to_UInt64_small; exact H2 | exact I | exact H2].
  - exact H1.
Qed.

(** X2: [get_file_hash_index] throws exactly when the run of digits that
    decides exceeds [INT_MAX]: the run of the first rule if there is one,
    else that of the second.  A first run that is too large is not made up
    for by the second rule. *)
Theorem get_file_hash_index_throws_iff (path : string) :
  size path < npos ->
  let run1 := run_after_last_or_start underscore path in
  let run2 := run_after_last_or_start slash path in
  get_file_hash_index path = Throw out_of_range <->
  (nonempty run1 = true /\ INT_MAX < decimal_value 0 run1) \/
  (nonempty run1 = false /\ nonempty run2 = true /\ INT_MAX < decimal_value 0 run2).
Proof.
  intros Hsize run1 run2. rewrite get_file_hash_index_runs by exact Hsize.
  cbv zeta. fold run1 run2. unfold parse_run.
  destruct (nonempty run1).
  - destruct (Z.leb_spec (decimal_value 0 run1) INT_MAX); split.
    + discriminate.
    + intros [[_ H']|[[=] _]]. lia.
    + intros _. left. split; [reflexivity | assumption].
    + reflexivity.
  - destruct (nonempty run2).
    + destruct (Z.leb_spec (decimal_value 0 run2) INT_MAX); split.
      * discriminate.
      * intros [[[=] _]|(_ & _ & H')]. lia.
      * intros _. right. auto.
      * reflexivity.
    + split; [discriminate|]. intros [[[=] _]|(_ & [=] & _)].
Qed.

Lemma get_file_hash_index_throws_iff_witness :
  get_file_hash_index hudi_path = Throw out_of_range /\
  decimal_value 0 (run_after_last_or_start underscore hudi_path) = 20200316160557.
Proof.
  assert (Hsize : size hudi_path < npos) by (vm_compute; reflexivity).
  split; [|vm_compute; reflexivity].
  apply (get_file_hash_index_throws_iff hudi_path Hsize).
  left. split; vm_compute; reflexivity.
Defined.

Lemma append_empty (t : string) : (EmptyString +:+ t)%string = t.
Proof. reflexivity. Qed.

Lemma append_String (a : ascii) (s t : string) :
  (String a s +:+ t)%string = String a (s +:+ t).
Proof. reflexivity. Qed.

Lemma after_last_app (c : ascii) (s t : string) :
  after_last c (s +:+ t) =
  match after_last c t with
  | Some u => Some u
  | None =>
    match after_last c s with
    | Some u => Some (u +:+ t)
    | None => None
    end
  end.
Proof.
  induction s as [|a s IH].
  - rewrite append_empty. simpl. destruct (after_last c t); reflexivity.
  - rewrite append_String. simpl. rewrite IH.
    destruct (after_last c t) as [u|]; [reflexivity|].
    destruct (after_last c s) as [u|]; [reflexivity|].
    destruct (Ascii.eqb a c); reflexivity.
Qed.

Lemma size_app (s t : string) : size (s +:+ t) = size s + size t.
Proof.
  induction s as [|a s IH].
  - rewrite append_empty. unfold size. simpl. lia.
  - rewrite append_String, !size_String. lia.
Qed.

(** X3: the hash index of a file whose name holds an underscore does not
    depend on the directory the file is in. *)
Theorem get_file_hash_index_of_file_name (directory name : string) :
  size (directory +:+ "/" +:+ name) < npos ->
  after_last slash name = None ->
  after_last underscore name <> None ->
  get_file_hash_index (directory +:+ "/" +:+ name) = get_file_hash_index name.
Proof.
  intros Hsize Hslash Hunder.
  assert (Hname : size name < npos).
  { rewrite !size_app in Hsize. pose proof (size_nonneg directory).
    pose proof (size_nonneg "/"). lia. }
  rewrite (get_file_hash_index_runs _ Hsize), (get_file_hash_index_runs _ Hname).
  cbv zeta.
  assert (H1 : run_after_last_or_start underscore (directory +:+ "/" +:+ name)
               = run_after_last_or_start underscore name).
  { unfold run_after_last_or_start. rewrite after_last_app.
    replace (after_last underscore ("/" +:+ name)) with (after_last underscore name).
    - destruct (after_last underscore name); [reflexivity | contradiction].
    - rewrite append_String, append_empty. simpl.
      destruct (after_last underscore name); reflexivity. }
  assert (H2 : run_after_last_or_start slash (directory +:+ "/" +:+ name)
               = run_after_last_or_start slash name).
  { unfold run_after_last_or_start. rewrite after_last_app.
    replace (after_last slash ("/" +:+ name)) with (Some name).
    - rewrite Hslash. reflexivity.
    - rewrite append_String, append_empty. simpl. rewrite Hslash. reflexivity. }
  rewrite H1, H2. reflexivity.
Qed.

Lemma get_file_hash_index_of_file_name_witness :
  get_file_hash_index ("/warehouse/t/d=1" +:+ "/" +:+ tea_path) = get_file_hash_index tea_path.
Proof.
  apply get_file_hash_index_of_file_name.
  - vm_compute. reflexivity.
  - vm_compute. reflexivity.
  - vm_compute. discriminate.
Defined.

(** ** The bucket pruner, further *)

Lemma get_file_hash_index_throws_out_of_range (path : string) (e : Error) :
  get_file_hash_index path = Throw e -> e = out_of_range.
Proof.
  unfold get_file_hash_index.
  pose proof (get_hash_index_from_position_outcomes path _
                (size_t_add_nonneg (find_last_of path underscore) 1)) as H1.
  pose proof (get_hash_index_from_position_outcomes path _
                (size_t_add_nonneg (find_last_of path slash) 1)) as H2.
  destruct (get_hash_index_from_position path (size_t_add (find_last_of path underscore) 1))
    as [[v|]|e1]; simpl; [discriminate| |congruence].
  destruct (get_hash_index_from_position path (size_t_add (find_last_of path slash) 1))
    as [[v|]|e2]; simpl; [discriminate|discriminate|congruence].
Qed.

Lemma prune_predicate_throws_out_of_range (required_bucket : option Z) (file : HiveFile) (e : Error) :
  prune_predicate required_bucket file = Throw e -> e = out_of_range.
Proof.
  unfold prune_predicate. destruct required_bucket as [b|]; [|discriminate].
  destruct (get_file_hash_index (file_path file)) eqn:E; simpl; [discriminate|].
  intros [= <-]. eapply get_file_hash_index_throws_out_of_range. exact E.
Qed.

Lemma prune_predicate_false (b : Z) (file : HiveFile) :
  prune_predicate (Some b) file = Ok false <-> fits_bucket b file.
Proof.
  unfold prune_predicate, fits_bucket.
  destruct (get_file_hash_index (file_path file)) as [[i|]|e]; simpl.
  - unfold mret, Res_ret. destruct (Z.eqb_spec i b) as [->|Hne]; simpl; split.
    + intros _. right. reflexivity.
    + reflexivity.
    + discriminate.
    + intros [[=]|[= ->]]. contradiction.
  - split; [intros _; left; reflexivity | reflexivity].
  - split; [discriminate | intros [[=]|[=]]].
Qed.

Lemma remove_if_kept {A : Type} (pred : A -> Res bool) (l kept : list A) :
  remove_if pred l = Ok kept ->
  Forall (fun x => pred x = Ok false) kept /\ sublist kept l.
Proof.
  revert kept. induction l as [|x l IH]; intros kept; simpl.
  - intros [= <-]. split; constructor.
  - destruct (pred x) as [b|] eqn:Ex; simpl; [|discriminate].
    destruct (remove_if pred l) as [rest|]; simpl; [|discriminate].
    destruct (IH rest eq_refl) as [Hall Hsub].
    intros [= <-]. destruct b.
    + split; [exact Hall | apply sublist_cons; exact Hsub].
    + split; [constructor; assumption | apply sublist_skip; exact Hsub].
Qed.

Lemma remove_if_fixed {A : Type} (pred : A -> Res bool) (l : list A) :
  Forall (fun x => pred x = Ok false) l -> remove_if pred l = Ok l.
Proof.
  induction 1 as [|x l Hx _ IH]; simpl.
  - reflexivity.
  - rewrite Hx, IH. reflexivity.
Qed.

(** X4: the files that bucket pruning keeps are files of its input, in their
    order; with a resolved bucket each of them has an unknown hash index or
    the required one; and pruning them once more changes nothing. *)
Theorem prune_files_idempotent (required_bucket : option Z) (hive_files kept : HiveFiles) :
  prune_files required_bucket hive_files = Ok kept ->
  sublist kept hive_files /\
  (forall b, required_bucket = Some b -> Forall (fits_bucket b) kept) /\
  prune_files required_bucket kept = Ok kept.
Proof.
  unfold prune_files. intros H. destruct (remove_if_kept _ _ _ H) as [Hall Hsub].
  split; [exact Hsub|]. split.
  - intros b ->. eapply Forall_impl; [exact Hall|].
    intros file Hfile. apply prune_predicate_false. exact Hfile.
  - apply remove_if_fixed. exact Hall.
Qed.

Lemma prune_files_idempotent_witness :
  prune_files (Some 7) [file_at "no_digits_here"; file_at "b_00007"]
  = Ok [file_at "no_digits_here"; file_at "b_00007"].
Proof.
  assert (H : prune_files (Some 7)
                [file_at tea_path; file_at "no_digits_here"; file_at "b_00007"]
              = Ok [file_at "no_digits_here"; file_at "b_00007"])
    by (vm_compute; reflexivity).
  exact (proj2 (proj2 (prune_files_idempotent _ _ _ H))).
Defined.

Lemma remove_if_app {A : Type} (pred : A -> Res bool) (l1 l2 : list A) :
  remove_if pred (l1 ++ l2) =
  (kept1 ← remove_if pred l1; kept2 ← remove_if pred l2; mret (kept1 ++ kept2)).
Proof.
  induction l1 as [|x l1 IH]; simpl.
  - destruct (remove_if pred l2); reflexivity.
  - destruct (pred x) as [b|]; simpl; [|reflexivity].
    rewrite IH. destruct (remove_if pred l1); simpl; [|reflexivity].
    destruct (remove_if pred l2); simpl; [|reflexivity].
    destruct b; reflexivity.
Qed.

(** X5: bucket pruning of two file lists put together is the pruning of
    each, put together; an exception of the first list comes first. *)
Theorem prune_files_app (required_bucket : option Z) (files1 files2 : HiveFiles) :
  prune_files required_bucket (files1 ++ files2) =
  (kept1 ← prune_files required_bucket files1;
   kept2 ← prune_files required_bucket files2;
   mret (kept1 ++ kept2)).
Proof. apply remove_if_app. Qed.

Lemma same_files_trans (r1 r2 r3 : Res HiveFiles) :
  same_files r1 r2 -> same_files r2 r3 -> same_files r1 r3.
Proof.
  destruct r1, r2, r3; simpl; try tauto; try congruence.
  intros H1 H2. etransitivity; eassumption.
Qed.

Lemma same_files_refl (r : Res HiveFiles) : same_files r r.
Proof. destruct r; simpl; reflexivity. Qed.

Lemma prune_files_cons (required_bucket : option Z) (file : HiveFile) (files : HiveFiles) :
  prune_files required_bucket (file :: files) =
  match prune_predicate required_bucket file with
  | Ok b =>
    match prune_files required_bucket files with
    | Ok kept => Ok (if b then kept else file :: kept)
    | Throw e => Throw e
    end
  | Throw e => Throw e
  end.
Proof.
  unfold prune_files. simpl.
  destruct (prune_predicate required_bucket file); simpl; [|reflexivity].
  destruct (remove_if _ files); reflexivity.
Qed.

Lemma prune_files_throws_out_of_range (required_bucket : option Z) (files : HiveFiles) (e : Error) :
  prune_files required_bucket files = Throw e -> e = out_of_range.
Proof.
  intros H. pose proof (prune_files_filter required_bucket files) as Hf.
  rewrite H in Hf. destruct Hf as (file & _ & Hthrow).
  eapply get_file_hash_index_throws_out_of_range. exact Hthrow.
Qed.

Lemma prune_files_Permutation (required_bucket : option Z) (files files' : HiveFiles) :
  Permutation files files' ->
  same_files (prune_files required_bucket files) (prune_files required_bucket files').
Proof.
  induction 1 as [|x l l' _ IH|x y l|l1 l2 l3 _ IH1 _ IH2].
  - apply same_files_refl.
  - rewrite !prune_files_cons.
    destruct (prune_predicate required_bucket x) as [b|]; [|reflexivity].
    destruct (prune_files required_bucket l) as [k|e],
             (prune_files required_bucket l') as [k'|e']; simpl in *; try tauto.
    destruct b; [exact IH | constructor; exact IH].
  - rewrite !prune_files_cons.
    destruct (prune_predicate required_bucket x) as [bx|ex] eqn:Ex,
             (prune_predicate required_bucket y) as [by'|ey] eqn:Ey;
      try (apply prune_predicate_throws_out_of_range in Ex); try (apply prune_predicate_throws_out_of_range in Ey);
      subst.
    + destruct (prune_files required_bucket l) as [k|e]; simpl; [|reflexivity].
      destruct bx, by'; try reflexivity. apply perm_swap.
    + destruct (prune_files required_bucket l); reflexivity.
    + destruct (prune_files required_bucket l); reflexivity.
    + reflexivity.
  - eapply same_files_trans; eassumption.
Qed.

(** X6: bucket pruning does not depend on the order of the files: on two
    orders of the same files it keeps the same files up to order, or throws
    the same exception. *)
Theorem prune_files_order_independent (required_bucket : option Z)
    (files files' : HiveFiles) :
  Permutation files files' ->
  same_files (prune_files required_bucket files) (prune_files required_bucket files').
Proof. apply prune_files_Permutation. Qed.

Lemma prune_files_order_independent_witness :
  same_files
    (prune_files (Some 7) [file_at tea_path; file_at "b_00007"])
    (prune_files (Some 7) [file_at "b_00007"; file_at tea_path]).
Proof.
  apply prune_files_order_independent. apply perm_swap.
Defined.

(** ** The bucket resolver, further *)

Section BucketResolverShape.
Context (C : Collaborators) (block : list string).

Lemma insert_if_empty_shape (pos : nat) (v : Field) (columns : MutableColumns) :
  length (insert_if_empty pos v columns) = length columns /\
  (at_most_one_row columns -> at_most_one_row (insert_if_empty pos v columns)).
Proof.
  unfold insert_if_empty. destruct (columns !! pos) as [column|] eqn:E; [|auto].
  destruct column as [|x column]; simpl; [|auto].
  split; [apply length_insert|].
  intros Hall. unfold at_most_one_row. apply Forall_insert; [exact Hall | simpl; lia].
Qed.

Lemma bind_equals_shape (child0 child1 : AST) (columns columns' : MutableColumns) :
  bind_equals C block child0 child1 columns = Ok columns' ->
  length columns' = length columns /\
  (at_most_one_row columns -> at_most_one_row columns').
Proof.
  unfold bind_equals. intros H.
  destruct (evaluateConstantExpressionOrIdentifierAsLiteral C child0) as [f0|]; [|discriminate].
  simpl in H.
  destruct (evaluateConstantExpressionOrIdentifierAsLiteral C child1) as [f1|]; [|discriminate].
  simpl in H. destruct (safeGet_String f0) as [name|]; [|discriminate].
  simpl in H. destruct (getPositionByName block name) as [pos|];
    injection H as <-; [apply insert_if_empty_shape | auto].
Qed.

(** The walk keeps the number of columns and never gives a column a second
    row. *)
Lemma parse_shape (ast : AST) :
  forall columns columns' : MutableColumns,
    parse_cluster_by_cond C block ast columns = Ok columns' ->
    length columns' = length columns /\
    (at_most_one_row columns -> at_most_one_row columns').
Proof.
  induction ast as [name|name children IH|v|name] using AST_children_ind;
    intros columns columns' Hparse;
    try (injection Hparse as <-; auto).
  destruct (String.eqb_spec name "equals") as [->|Hneq].
  - destruct children as [|c0 [|c1 [|c2 rest]]];
      try (injection Hparse as <-; auto).
    rewrite parse_equals in Hparse. eapply bind_equals_shape. exact Hparse.
  - destruct (String.eqb_spec name "and") as [->|Hnand].
    + rewrite parse_and in Hparse. clear Hneq. revert columns Hparse.
      induction IH as [|child rest Hchild _ IHrest]; intros columns Hparse.
      * injection Hparse as <-. auto.
      * simpl in Hparse.
        destruct (parse_cluster_by_cond C block child columns) as [mid|] eqn:E;
          [|discriminate].
        simpl in Hparse. destruct (Hchild _ _ E) as [Hlen Hrow].
        destruct (IHrest _ Hparse) as [Hlen' Hrow'].
        split; [congruence | auto].
    + rewrite parse_other_function in Hparse by assumption.
      injection Hparse as <-. auto.
Qed.

Lemma parse_children_app (children extra : list AST) (columns : MutableColumns) :
  parse_children C block (children ++ extra) columns =
  (columns' ← parse_children C block children columns;
   parse_children C block extra columns').
Proof.
  revert columns. induction children as [|child rest IH]; intros columns; simpl.
  - reflexivity.
  - destruct (parse_cluster_by_cond C block child columns); simpl; [apply IH | reflexivity].
Qed.

(** With every column bound, a walk changes nothing. *)
Lemma parse_bound_fixed (ast : AST) (columns columns' : MutableColumns) :
  ~ In [] columns ->
  parse_cluster_by_cond C block ast columns = Ok columns' ->
  columns' = columns.
Proof.
  intros Hbound Hparse. apply list_eq. intros pos.
  destruct (columns !! pos) as [column|] eqn:E.
  - eapply parse_keeps_bound; [exact Hparse | exact E |].
    intros ->. apply Hbound. apply list_elem_of_In. eapply list_elem_of_lookup_2. exact E.
  - apply lookup_ge_None. apply lookup_ge_None in E.
    destruct (parse_shape _ _ _ Hparse) as [Hlen _]. lia.
Qed.
End BucketResolverShape.

Lemma unbound_columns_shape (block : list string) :
  length (unbound_columns block) = length block /\ at_most_one_row (unbound_columns block).
Proof.
  unfold unbound_columns, at_most_one_row. split; [apply length_map|].
  apply Forall_forall. intros column Hin. apply list_elem_of_In, in_map_iff in Hin.
  destruct Hin as (_ & <- & _). simpl. lia.
Qed.

(** X7: when the resolver returns a bucket, the walk has given every
    cluster-by column exactly one row, one column per required input, and
    the bucket is the value of the cluster-by expression on that block: the
    expression is never run on an unbound or a many-row column. *)
Theorem resolved_bucket_from_single_row (C : Collaborators) (storage : StorageCnchHive)
    (metadata_snapshot : StorageMetadata) (optimizer : HiveWhereOptimizer) (bucket : Z) :
  getSelectedBucketNumber C storage metadata_snapshot optimizer = Ok (Some bucket) ->
  let block := cluster_by_required_columns metadata_snapshot in
  isBucketTable storage = true /\
  exists conds columns,
    cluster_key_conds optimizer = Some conds /\
    parse_cluster_by_cond C block conds (unbound_columns block) = Ok columns /\
    length columns = length block /\
    Forall (fun column : list Field => length column = 1%nat) columns /\
    bucket = cluster_by_execute C columns.
Proof.
  intros H block. unfold getSelectedBucketNumber in H.
  destruct (isBucketTable storage); [|discriminate]. split; [reflexivity|].
  simpl in H. destruct (cluster_key_conds optimizer) as [conds|]; [|discriminate].
  cbv zeta in H. fold block in H. fold (unbound_columns block) in H.
  destruct (parse_cluster_by_cond C block conds (unbound_columns block))
    as [columns|] eqn:E; [|discriminate].
  simpl in H. destruct (existsb column_empty columns) eqn:Hex; [discriminate|].
  injection H as <-. exists conds, columns.
  destruct (parse_shape C block _ _ _ E) as [Hlen Hrow].
  destruct (unbound_columns_shape block) as [Hlen0 Hrow0].
  split; [reflexivity|]. split; [exact E|]. split; [congruence|].
  split; [|reflexivity].
  specialize (Hrow Hrow0). unfold at_most_one_row in Hrow.
  rewrite Forall_forall in Hrow |- *. intros column Hin. specialize (Hrow _ Hin).
  destruct column as [|x column].
  - exfalso. assert (Hex' : existsb column_empty columns = true).
    { apply existsb_column_empty. apply list_elem_of_In. exact Hin. }
    congruence.
  - simpl in *. lia.
Qed.

Lemma resolved_bucket_from_single_row_witness :
  let optimizer :=
    {| partition_key_conds := None;
       cluster_key_conds :=
         Some (ASTFunction "and" (Some [Demo.equals "b" 2; Demo.conds_a_only])) |} in
  exists columns,
    parse_cluster_by_cond Demo.three_days ["a"; "b"]%string
      (ASTFunction "and" (Some [Demo.equals "b" 2; Demo.conds_a_only]))
      (unbound_columns ["a"; "b"]%string) = Ok columns /\
    Forall (fun column : list Field => length column = 1%nat) columns.
Proof.
  intros optimizer.
  assert (H : getSelectedBucketNumber Demo.three_days Demo.bucket_table Demo.bucketed
                optimizer = Ok (Some 1)) by (vm_compute; reflexivity).
  destruct (resolved_bucket_from_single_row _ _ _ _ _ H)
    as (_ & conds & columns & Hconds & Hparse & _ & Hrow & _).
  injection Hconds as <-. exists columns. split; [exact Hparse | exact Hrow].
Defined.

(** X8: once the conjuncts walked so far have bound every cluster-by column,
    further conjuncts that the walk gets through cannot change the bucket:
    the resolver gives the same result with them as without. *)
Theorem resolved_bucket_ignores_further_conjuncts (C : Collaborators)
    (storage : StorageCnchHive) (metadata_snapshot : StorageMetadata)
    (partition_conds : option AST) (children extra : list AST)
    (columns columns' : MutableColumns) :
  let block := cluster_by_required_columns metadata_snapshot in
  let resolve := fun conjuncts =>
    getSelectedBucketNumber C storage metadata_snapshot
      {| partition_key_conds := partition_conds;
         cluster_key_conds := Some (ASTFunction "and" (Some conjuncts)) |} in
  parse_children C block children (unbound_columns block) = Ok columns ->
  ~ In [] columns ->
  parse_children C block extra columns = Ok columns' ->
  resolve (children ++ extra) = resolve children.
Proof.
  intros block resolve Hparse Hbound Hextra. subst resolve. cbv beta.
  unfold getSelectedBucketNumber. destruct (negb (isBucketTable storage)); [reflexivity|].
  simpl cluster_key_conds. cbv iota zeta. fold block. fold (unbound_columns block).
  rewrite !parse_and, parse_children_app, Hparse. simpl.
  assert (Hsame : columns' = columns).
  { clear Hparse. revert columns columns' Hbound Hextra.
    induction extra as [|child rest IH]; intros columns columns' Hbound Hextra.
    - injection Hextra as <-. reflexivity.
    - simpl in Hextra.
      destruct (parse_cluster_by_cond C block child columns) as [mid|] eqn:E;
        [|discriminate].
      simpl in Hextra. apply (parse_bound_fixed C block _ _ _ Hbound) in E. subst mid.
      eapply IH; eassumption. }
  rewrite Hextra, Hsame. reflexivity.
Qed.

Lemma resolved_bucket_ignores_further_conjuncts_witness :
  getSelectedBucketNumber Demo.three_days Demo.bucket_table Demo.bucketed
    {| partition_key_conds := None;
       cluster_key_conds :=
         Some (ASTFunction "and"
                 (Some ([Demo.equals "a" 1; Demo.equals "b" 2] ++ [Demo.equals "b" 9]))) |}
  = getSelectedBucketNumber Demo.three_days Demo.bucket_table Demo.bucketed
    {| partition_key_conds := None;
       cluster_key_conds :=
         Some (ASTFunction "and" (Some [Demo.equals "a" 1; Demo.equals "b" 2])) |}.
Proof.
  apply (resolved_bucket_ignores_further_conjuncts Demo.three_days Demo.bucket_table
           Demo.bucketed None [Demo.equals "a" 1; Demo.equals "b" 2] [Demo.equals "b" 9]
           [[FUInt64 1]; [FUInt64 2]] [[FUInt64 1]; [FUInt64 2]]).
  - vm_compute. reflexivity.
  - simpl. intros [H|[H|[]]]; discriminate.
  - vm_compute. reflexivity.
Defined.

(** ** Partition selection, further *)

Lemma filter_all {A : Type} (f : A -> bool) (l : list A) :
  (forall x, f x = true) -> List.filter f l = l.
Proof.
  intros H. induction l as [|x l IH]; simpl; [reflexivity|]. rewrite H, IH. reflexivity.
Qed.

(** X9: with the local pruner off, [selectPartitions] returns for a table
    with partition key every partition that the metastore reported, in the
    order of the report; it asks the metastore once, and with an empty
    filter unless the metastore filter is on and the optimizer holds
    partition conditions. *)
Theorem selectPartitions_without_pruner (C : Collaborators) (storage : StorageCnchHive)
    (settings : Settings) (metadata_snapshot : StorageMetadata)
    (optimizer : HiveWhereOptimizer) (w : World) :
  hasPartitionKey metadata_snapshot = true ->
  use_hive_partition_filter settings = false ->
  let filter := metastore_filter C settings optimizer in
  selectPartitions C storage settings metadata_snapshot optimizer w
  = (Ok (map (load C) (getPartitionsByFilter C filter)), log_metastore_request filter w) /\
  metastore_requests (log_metastore_request filter w) = metastore_requests w ++ [filter] /\
  (use_hive_metastore_filter settings = false \/ partition_key_conds optimizer = None ->
   filter = EmptyString).
Proof.
  intros Hkey Hoff filter. split; [|split].
  - rewrite selectPartitions_partitioned by exact Hkey. rewrite Hoff.
    fold filter. rewrite filter_all; [reflexivity|]. reflexivity.
  - reflexivity.
  - subst filter. unfold metastore_filter. intros [-> | ->]; [reflexivity|].
    destruct (use_hive_metastore_filter settings); reflexivity.
Qed.

Lemma selectPartitions_without_pruner_witness :
  fst (selectPartitions Demo.three_days Demo.parquet_table (Demo.settings 0)
         Demo.partitioned Demo.no_conds Demo.empty_world)
  = Ok (map Demo.partition_of [Demo.day "1"; Demo.day "2"; Demo.day "3"]).
Proof.
  rewrite (proj1 (selectPartitions_without_pruner Demo.three_days Demo.parquet_table
                    (Demo.settings 0) Demo.partitioned Demo.no_conds Demo.empty_world
                    eq_refl eq_refl)).
  reflexivity.
Defined.

(** ** prepareReadContext, further *)

Section PlanningFurther.
Context (C : Collaborators).

Lemma prune_by_bucket_pure (storage : StorageCnchHive) (settings : Settings)
    (metadata_snapshot : StorageMetadata) (optimizer : HiveWhereOptimizer)
    (hive_files : HiveFiles) (w : World) :
  prune_by_bucket C storage settings metadata_snapshot optimizer hive_files w =
  (prune_by_bucket_result C storage settings metadata_snapshot optimizer hive_files, w).
Proof.
  unfold prune_by_bucket, prune_by_bucket_result.
  destruct (isBucketTable storage && use_hive_cluster_key_filter settings); [|reflexivity].
  run_M. destruct (getSelectedBucketNumber C storage metadata_snapshot optimizer); reflexivity.
Qed.

Lemma collectResource_explicit (storage : StorageCnchHive) (hive_files : HiveFiles)
    (w : World) :
  collectResource C storage hive_files w =
  (Ok {| result_hive_files := hive_files; local_table_name := cloud_table_alias C storage |},
   addDataParts (storage_uuid storage) hive_files
     (addCreateQuery
        (build_cloud_table_sql C (storage_table_name storage +:+ "_" +:+ txn_id C)%string)
        (cloud_table_alias C storage) w)).
Proof. reflexivity. Qed.

(** [list_and_prune], stage by stage. *)
Lemma list_and_prune_stages (sched : list Action) (storage : StorageCnchHive)
    (settings : Settings) (metadata_snapshot : StorageMetadata)
    (optimizer : HiveWhereOptimizer) (num_streams : Z) (partitions : HivePartitions)
    (w : World) :
  let w0 := log_disk (sd_table_location (hive_table_sd storage)) w in
  match fst (getDirectoryLister C storage w) with
  | Throw e =>
    list_and_prune C sched storage settings metadata_snapshot optimizer num_streams
      partitions w = (Throw e, w0)
  | Ok lister =>
    exists files order,
      list_partitions C sched num_streams lister partitions w0
      = (Ok files, log_listed order w0) /\
      Permutation files (flat_map (lister_list C lister) partitions) /\
      (lists_sequentially num_streams partitions = true ->
       files = flat_map (lister_list C lister) partitions) /\
      list_and_prune C sched storage settings metadata_snapshot optimizer num_streams
        partitions w =
      match prune_by_bucket_result C storage settings metadata_snapshot optimizer files with
      | Ok kept => collectResource C storage kept (log_listed order w0)
      | Throw e => (Throw e, log_listed order w0)
      end
  end.
Proof.
  intros w0.
  pose proof (getDirectoryLister_run C storage w) as Hl. cbv zeta in Hl. fold w0 in Hl.
  destruct (getDirectoryLister C storage w) as [r w0'] eqn:Hrun.
  injection Hl as Hr ->. clear Hr. simpl fst. destruct r as [lister|e].
  - destruct (list_partitions_run C sched num_streams lister partitions w0)
      as (files & order & Hlist & Hperm & _ & Hseq).
    exists files, order. split; [exact Hlist|]. split; [exact Hperm|].
    split; [intros H; apply (Hseq H)|].
    unfold list_and_prune. unfold mbind at 1. unfold M_bind. rewrite Hrun.
    unfold mbind at 1. unfold M_bind. rewrite Hlist.
    unfold mbind at 1. unfold M_bind. rewrite prune_by_bucket_pure.
    destruct (prune_by_bucket_result _ _ _ _ _ _); reflexivity.
  - unfold list_and_prune. unfold mbind at 1. unfold M_bind. rewrite Hrun. reflexivity.
Qed.
End PlanningFurther.

Section PlanningEndToEnd.
Context (C : Collaborators).

Lemma prune_by_bucket_result_Permutation (storage : StorageCnchHive) (settings : Settings)
    (metadata_snapshot : StorageMetadata) (optimizer : HiveWhereOptimizer)
    (files files' : HiveFiles) :
  Permutation files files' ->
  same_files (prune_by_bucket_result C storage settings metadata_snapshot optimizer files)
             (prune_by_bucket_result C storage settings metadata_snapshot optimizer files').
Proof.
  intros Hperm. unfold prune_by_bucket_result.
  destruct (isBucketTable storage && use_hive_cluster_key_filter settings); [|exact Hperm].
  destruct (getSelectedBucketNumber C storage metadata_snapshot optimizer) as [rb|e]; simpl.
  - apply prune_files_Permutation. exact Hperm.
  - reflexivity.
Qed.

Lemma prune_by_bucket_result_kept (storage : StorageCnchHive) (settings : Settings)
    (metadata_snapshot : StorageMetadata) (optimizer : HiveWhereOptimizer)
    (files kept : HiveFiles) :
  prune_by_bucket_result C storage settings metadata_snapshot optimizer files = Ok kept ->
  sublist kept files /\
  (forall b,
     isBucketTable storage && use_hive_cluster_key_filter settings = true ->
     getSelectedBucketNumber C storage metadata_snapshot optimizer = Ok (Some b) ->
     Forall (fits_bucket b) kept) /\
  (isBucketTable storage && use_hive_cluster_key_filter settings = false \/
   getSelectedBucketNumber C storage metadata_snapshot optimizer = Ok None ->
   kept = files).
Proof.
  unfold prune_by_bucket_result.
  destruct (isBucketTable storage && use_hive_cluster_key_filter settings).
  - destruct (getSelectedBucketNumber C storage metadata_snapshot optimizer) as [rb|e]; simpl;
      [|discriminate].
    intros H. destruct (remove_if_kept _ _ _ H) as [Hall Hsub]. split; [exact Hsub|]. split.
    + intros b _ [= ->]. eapply Forall_impl; [exact Hall|].
      intros file Hfile. apply prune_predicate_false. exact Hfile.
    + intros [[=]|[= ->]]. unfold prune_files in H.
      rewrite remove_if_fixed in H; [congruence|].
      apply Forall_forall. reflexivity.
  - intros [= <-]. split; [reflexivity|]. split; [discriminate | reflexivity].
Qed.

(** X10: planning registers all or nothing.  When [prepareReadContext]
    returns, the resource context has gained one create query, under the
    alias returned, and one entry of data parts, the files returned; when it
    throws, whatever the exception, the resource context is as before. *)
Theorem prepareReadContext_registers_all_or_nothing (sched : list Action)
    (storage : StorageCnchHive) (settings : Settings) (metadata_snapshot : StorageMetadata)
    (optimizer : HiveWhereOptimizer) (num_streams : Z) (w : World) :
  match prepareReadContext C sched storage settings metadata_snapshot optimizer
          num_streams w with
  | (Ok res, w') =>
    cnch_resource w' = registered C storage (result_hive_files res) (cnch_resource w) /\
    local_table_name res = cloud_table_alias C storage
  | (Throw _, w') => cnch_resource w' = cnch_resource w
  end.
Proof.
  destruct (selectPartitions_returns C storage settings metadata_snapshot optimizer w)
    as (partitions & w1 & Hsel & _ & _ & Hc).
  rewrite (prepareReadContext_run C _ _ _ _ _ _ _ _ _ Hsel).
  destruct (_ && (_ <? Z.of_nat (length partitions))); [exact Hc|].
  pose proof (list_and_prune_stages C sched storage settings metadata_snapshot optimizer
                num_streams partitions w1) as H. cbv zeta in H.
  destruct (fst (getDirectoryLister C storage w1)) as [lister|e].
  - destruct H as (files & order & _ & _ & _ & ->).
    destruct (prune_by_bucket_result _ _ _ _ _ files) as [kept|e].
    + rewrite collectResource_explicit. simpl. rewrite <- Hc. split; reflexivity.
    + simpl. exact Hc.
  - rewrite H. simpl. exact Hc.
Qed.

(** X11: planning invents no file.  Every file that [prepareReadContext]
    returns was listed by the lister of the table for one of the partitions
    that [selectPartitions] selected. *)
Theorem prepareReadContext_files_from_listing (sched : list Action)
    (storage : StorageCnchHive) (settings : Settings) (metadata_snapshot : StorageMetadata)
    (optimizer : HiveWhereOptimizer) (num_streams : Z) (w w' : World)
    (res : PrepareContextResult) :
  prepareReadContext C sched storage settings metadata_snapshot optimizer num_streams w
  = (Ok res, w') ->
  exists partitions w1 lister,
    selectPartitions C storage settings metadata_snapshot optimizer w = (Ok partitions, w1) /\
    fst (getDirectoryLister C storage w1) = Ok lister /\
    Forall (fun file => exists p, In p partitions /\ In file (lister_list C lister p))
           (result_hive_files res).
Proof.
  intros Hplan.
  destruct (selectPartitions_returns C storage settings metadata_snapshot optimizer w)
    as (partitions & w1 & Hsel & _).
  rewrite (prepareReadContext_run C _ _ _ _ _ _ _ _ _ Hsel) in Hplan.
  destruct (_ && (_ <? Z.of_nat (length partitions))); [discriminate|].
  pose proof (list_and_prune_stages C sched storage settings metadata_snapshot optimizer
                num_streams partitions w1) as H. cbv zeta in H.
  exists partitions, w1.
  destruct (fst (getDirectoryLister C storage w1)) as [lister|e]; [|congruence].
  exists lister. split; [exact Hsel|]. split; [reflexivity|].
  destruct H as (files & order & _ & Hperm & _ & Hrun). rewrite Hrun in Hplan.
  destruct (prune_by_bucket_result _ _ _ _ _ files) as [kept|e] eqn:Hprune; [|discriminate].
  rewrite collectResource_explicit in Hplan. injection Hplan as <- _. simpl.
  destruct (prune_by_bucket_result_kept _ _ _ _ _ _ Hprune) as [Hsub _].
  apply Forall_forall. intros file Hin.
  assert (Hin' : In file (flat_map (lister_list C lister) partitions)).
  { apply (Permutation_in _ Hperm). apply list_elem_of_In.
    eapply elem_of_sublist; eassumption. }
  apply in_flat_map in Hin'. exact Hin'.
Qed.

(** X12: the files that planning returns do not depend on the order in
    which the workers of the pool run: when planning returns under two
    schedules, it returns the same alias and the same files up to order, the
    concurrent listing and the bucket stage included. *)
Theorem prepareReadContext_schedule_independent (sched sched' : list Action)
    (storage : StorageCnchHive) (settings : Settings) (metadata_snapshot : StorageMetadata)
    (optimizer : HiveWhereOptimizer) (num_streams : Z) (w w1 w2 : World)
    (res res' : PrepareContextResult) :
  prepareReadContext C sched storage settings metadata_snapshot optimizer num_streams w
  = (Ok res, w1) ->
  prepareReadContext C sched' storage settings metadata_snapshot optimizer num_streams w
  = (Ok res', w2) ->
  local_table_name res = local_table_name res' /\
  Permutation (result_hive_files res) (result_hive_files res').
Proof.
  intros Hplan Hplan'.
  destruct (selectPartitions_returns C storage settings metadata_snapshot optimizer w)
    as (partitions & w0 & Hsel & _).
  rewrite (prepareReadContext_run C _ _ _ _ _ _ _ _ _ Hsel) in Hplan.
  rewrite (prepareReadContext_run C _ _ _ _ _ _ _ _ _ Hsel) in Hplan'.
  destruct (_ && (_ <? Z.of_nat (length partitions))); [discriminate|].
  pose proof (list_and_prune_stages C sched storage settings metadata_snapshot optimizer
                num_streams partitions w0) as H. cbv zeta in H.
  pose proof (list_and_prune_stages C sched' storage settings metadata_snapshot optimizer
                num_streams partitions w0) as H'. cbv zeta in H'.
  destruct (fst (getDirectoryLister C storage w0)) as [lister|e]; [|congruence].
  destruct H as (files & order & _ & Hperm & _ & Hrun).
  destruct H' as (files' & order' & _ & Hperm' & _ & Hrun').
  rewrite Hrun in Hplan. rewrite Hrun' in Hplan'.
  assert (Hsame : Permutation files files') by (rewrite Hperm, Hperm'; reflexivity).
  pose proof (prune_by_bucket_result_Permutation storage settings metadata_snapshot
                optimizer _ _ Hsame) as Hprune.
  destruct (prune_by_bucket_result _ _ _ _ _ files) as [kept|e]; [|discriminate].
  destruct (prune_by_bucket_result _ _ _ _ _ files') as [kept'|e']; [|discriminate].
  simpl in Hprune.
  rewrite collectResource_explicit in Hplan, Hplan'.
  injection Hplan as <- _. injection Hplan' as <- _. simpl.
  split; [reflexivity | exact Hprune].
Qed.

(** X13: when planning returns for a bucket table with the cluster key
    filter on and the resolver has found the bucket [b], every file returned
    has the hash index [b] or no hash index. *)
Theorem prepareReadContext_files_fit_bucket (sched : list Action)
    (storage : StorageCnchHive) (settings : Settings) (metadata_snapshot : StorageMetadata)
    (optimizer : HiveWhereOptimizer) (num_streams : Z) (w w' : World)
    (res : PrepareContextResult) (b : Z) :
  isBucketTable storage = true ->
  use_hive_cluster_key_filter settings = true ->
  getSelectedBucketNumber C storage metadata_snapshot optimizer = Ok (Some b) ->
  prepareReadContext C sched storage settings metadata_snapshot optimizer num_streams w
  = (Ok res, w') ->
  Forall (fits_bucket b) (result_hive_files res).
Proof.
  intros Hbucket Hfilter Hresolved Hplan.
  destruct (selectPartitions_returns C storage settings metadata_snapshot optimizer w)
    as (partitions & w1 & Hsel & _).
  rewrite (prepareReadContext_run C _ _ _ _ _ _ _ _ _ Hsel) in Hplan.
  destruct (_ && (_ <? Z.of_nat (length partitions))); [discriminate|].
  pose proof (list_and_prune_stages C sched storage settings metadata_snapshot optimizer
                num_streams partitions w1) as H. cbv zeta in H.
  destruct (fst (getDirectoryLister C storage w1)) as [lister|e]; [|congruence].
  destruct H as (files & order & _ & _ & _ & Hrun). rewrite Hrun in Hplan.
  destruct (prune_by_bucket_result _ _ _ _ _ files) as [kept|e] eqn:Hprune; [|discriminate].
  rewrite collectResource_explicit in Hplan. injection Hplan as <- _. simpl.
  destruct (prune_by_bucket_result_kept _ _ _ _ _ _ Hprune) as (_ & Hfit & _).
  apply (Hfit b); [rewrite Hbucket, Hfilter; reflexivity | exact Hresolved].
Qed.

(** X14: planning drops no file when the bucket stage is off or resolves
    no bucket: the files it returns are those the lister lists for the
    selected partitions, all of them, in the order of the partitions when
    the listing is sequential and up to order otherwise. *)
Theorem prepareReadContext_returns_all_files (sched : list Action)
    (storage : StorageCnchHive) (settings : Settings) (metadata_snapshot : StorageMetadata)
    (optimizer : HiveWhereOptimizer) (num_streams : Z) (w w1 w' : World)
    (partitions : HivePartitions) (lister : DirectoryLister) (res : PrepareContextResult) :
  selectPartitions C storage settings metadata_snapshot optimizer w = (Ok partitions, w1) ->
  fst (getDirectoryLister C storage w1) = Ok lister ->
  (isBucketTable storage && use_hive_cluster_key_filter settings = false \/
   getSelectedBucketNumber C storage metadata_snapshot optimizer = Ok None) ->
  prepareReadContext C sched storage settings metadata_snapshot optimizer num_streams w
  = (Ok res, w') ->
  Permutation (result_hive_files res) (flat_map (lister_list C lister) partitions) /\
  (lists_sequentially num_streams partitions = true ->
   result_hive_files res = flat_map (lister_list C lister) partitions).
Proof.
  intros Hsel Hlister Hoff Hplan.
  rewrite (prepareReadContext_run C _ _ _ _ _ _ _ _ _ Hsel) in Hplan.
  destruct (_ && (_ <? Z.of_nat (length partitions))); [discriminate|].
  pose proof (list_and_prune_stages C sched storage settings metadata_snapshot optimizer
                num_streams partitions w1) as H. cbv zeta in H.
  rewrite Hlister in H. destruct H as (files & order & _ & Hperm & Hseq & Hrun).
  rewrite Hrun in Hplan.
  destruct (prune_by_bucket_result C storage settings metadata_snapshot optimizer files)
    as [kept|e] eqn:Hprune; [|discriminate].
  destruct (prune_by_bucket_result_kept _ _ _ _ _ _ Hprune) as (_ & _ & Hall).
  rewrite (Hall Hoff) in Hplan.
  rewrite collectResource_explicit in Hplan. injection Hplan as <- _. simpl.
  split; [exact Hperm | exact Hseq].
Qed.
End PlanningEndToEnd.

Lemma prepareReadContext_files_from_listing_witness :
  exists res w',
    prepareReadContext Demo.three_days [Start 1] Demo.parquet_table (Demo.settings 0)
      Demo.partitioned Demo.no_conds 8 Demo.empty_world = (Ok res, w') /\
    Forall (fun file =>
              exists p,
                In p (map Demo.partition_of [Demo.day "1"; Demo.day "2"; Demo.day "3"]) /\
                In file (lister_list Demo.three_days
                           (DiskDirectoryLister (DiskOf "/warehouse/t") PARQUET) p))
           (result_hive_files res).
Proof.
  eexists _, _. split; [vm_compute; reflexivity|].
  destruct (prepareReadContext_files_from_listing Demo.three_days [Start 1]
              Demo.parquet_table (Demo.settings 0) Demo.partitioned Demo.no_conds 8
              Demo.empty_world _ _ eq_refl)
    as (partitions & w1 & lister & Hsel & Hlister & Hall).
  vm_compute in Hsel. injection Hsel as <- <-.
  vm_compute in Hlister. injection Hlister as <-.
  exact Hall.
Defined.

Lemma prepareReadContext_files_fit_bucket_witness :
  exists res w',
    prepareReadContext Tea.collaborators [] Demo.bucket_table (Demo.settings 0)
      Demo.bucketed Tea.optimizer 1 Demo.empty_world = (Ok res, w') /\
    length (result_hive_files res) = 6%nat /\
    Forall (fits_bucket 1) (result_hive_files res).
Proof.
  eexists _, _. split; [vm_compute; reflexivity|].
  split; [reflexivity|].
  refine (prepareReadContext_files_fit_bucket Tea.collaborators [] Demo.bucket_table
            (Demo.settings 0) Demo.bucketed Tea.optimizer 1 Demo.empty_world _ _ 1
            eq_refl eq_refl _ eq_refl).
  vm_compute. reflexivity.
Defined.

Lemma prepareReadContext_returns_all_files_witness :
  exists res w',
    prepareReadContext Demo.three_days [Start 2; Commit 0] Demo.parquet_table
      (Demo.settings 3) Demo.partitioned Demo.no_conds 8 Demo.empty_world = (Ok res, w') /\
    length (result_hive_files res) = 6%nat.
Proof.
  eexists _, _. split; [vm_compute; reflexivity|].
  destruct (prepareReadContext_returns_all_files Demo.three_days [Start 2; Commit 0]
              Demo.parquet_table (Demo.settings 3) Demo.partitioned Demo.no_conds 8
              Demo.empty_world _ _ _ _ _ eq_refl eq_refl (or_introl eq_refl) eq_refl)
    as (Hperm & _).
  apply Permutation_length in Hperm. exact Hperm.
Defined.

Lemma prepareReadContext_schedule_independent_witness :
  exists res res' w1 w2,
    prepareReadContext Demo.three_days [] Demo.parquet_table (Demo.settings 0)
      Demo.partitioned Demo.no_conds 8 Demo.empty_world = (Ok res, w1) /\
    prepareReadContext Demo.three_days [Start 2; Commit 0] Demo.parquet_table
      (Demo.settings 0) Demo.partitioned Demo.no_conds 8 Demo.empty_world = (Ok res', w2) /\
    result_hive_files res <> result_hive_files res' /\
    Permutation (result_hive_files res) (result_hive_files res').
Proof.
  eexists _, _, _, _. split; [vm_compute; reflexivity|].
  split; [vm_compute; reflexivity|]. split; [vm_compute; discriminate|].
  exact (proj2 (prepareReadContext_schedule_independent Demo.three_days
                  [] [Start 2; Commit 0] Demo.parquet_table (Demo.settings 0)
                  Demo.partitioned Demo.no_conds 8 Demo.empty_world _ _ _ _
                  eq_refl eq_refl)).
Defined.

(** ** The hash index of a path that ends in an underscore and digits *)

Lemma after_last_cons_none (c : ascii) (t : string) :
  after_last c t = None -> after_last c (String c t) = Some t.
Proof. intros H. simpl. rewrite H, Ascii.eqb_refl. reflexivity. Qed.

(** X15: when the last underscore of a path is followed by digits whose
    value [std::stoi] accepts, that value is the hash index, whatever stands
    before the underscore: for a file named [000003_0], as Hive names the
    files of a bucket, the index is the 0 after the underscore. *)
Theorem get_file_hash_index_after_underscore (before after : string) :
  size (before +:+ "_" +:+ after) < npos ->
  after_last underscore after = None ->
  nonempty (digit_run after) = true ->
  decimal_value 0 (digit_run after) <= INT_MAX ->
  get_file_hash_index (before +:+ "_" +:+ after)
  = Ok (Some (decimal_value 0 (digit_run after))).
Proof.
  intros Hsize Hlast Hne Hfit. rewrite get_file_hash_index_runs by exact Hsize.
  cbv zeta.
  assert (Hrun : run_after_last_or_start underscore (before +:+ "_" +:+ after)
                 = digit_run after).
  { unfold run_after_last_or_start. rewrite after_last_app.
    rewrite append_String, append_empty.
    change (String "_" after) with (String underscore after).
    rewrite (after_last_cons_none _ _ Hlast). reflexivity. }
  rewrite Hrun, Hne. unfold parse_run.
  destruct (Z.leb_spec (decimal_value 0 (digit_run after)) INT_MAX); [reflexivity | lia].
Qed.

Lemma get_file_hash_index_after_underscore_witness :
  get_file_hash_index ("/warehouse/t/d=1/000003" +:+ "_" +:+ "0") = Ok (Some 0).
Proof.
  apply (get_file_hash_index_after_underscore "/warehouse/t/d=1/000003" "0").
  - vm_compute. reflexivity.
  - reflexivity.
  - reflexivity.
  - vm_compute. discriminate.
Defined.

(** ** prepareTableRead *)

Lemma list_and_prune_sequential (C : Collaborators) (sched sched' : list Action)
    (storage : StorageCnchHive) (settings : Settings) (metadata_snapshot : StorageMetadata)
    (optimizer : HiveWhereOptimizer) (num_streams : Z) (partitions : HivePartitions)
    (w : World) :
  lists_sequentially num_streams partitions = true ->
  list_and_prune C sched storage settings metadata_snapshot optimizer num_streams
    partitions w =
  list_and_prune C sched' storage settings metadata_snapshot optimizer num_streams
    partitions w.
Proof.
  intros Hseq. unfold list_and_prune. run_M.
  destruct (getDirectoryLister C storage w) as [[lister|e] w0]; [|reflexivity].
  unfold list_partitions. rewrite Hseq. reflexivity.
Qed.

Lemma prepareReadContext_sequential (C : Collaborators) (sched sched' : list Action)
    (storage : StorageCnchHive) (settings : Settings) (metadata_snapshot : StorageMetadata)
    (optimizer : HiveWhereOptimizer) (num_streams : Z) (w : World) :
  num_streams <= 1 ->
  prepareReadContext C sched storage settings metadata_snapshot optimizer num_streams w =
  prepareReadContext C sched' storage settings metadata_snapshot optimizer num_streams w.
Proof.
  intros Hle.
  destruct (selectPartitions_returns C storage settings metadata_snapshot optimizer w)
    as (partitions & w1 & Hsel & _).
  rewrite !(prepareReadContext_run C _ _ _ _ _ _ _ _ _ Hsel).
  destruct (_ && (_ <? Z.of_nat (length partitions))); [reflexivity|].
  apply list_and_prune_sequential. unfold lists_sequentially.
  destruct (Z.leb_spec num_streams 1); [reflexivity | lia].
Qed.

(** X16: [prepareTableRead] takes the thread budget modulo 2^32: budgets
    that differ by a multiple of 2^32 plan alike, and a budget that is 0 or
    1 modulo 2^32, such as 4294967296, lists the partitions sequentially,
    so that no schedule of workers has a say. *)
Theorem prepareTableRead_budget_modulo (C : Collaborators) (storage : StorageCnchHive)
    (settings : Settings) (optimizer : HiveWhereOptimizer) (max_threads : Z) :
  0 <= max_threads < size_t_modulus ->
  (forall sched max_threads' w,
     0 <= max_threads' < size_t_modulus ->
     max_threads' mod 4294967296 = max_threads mod 4294967296 ->
     prepareTableRead C sched storage settings optimizer max_threads' w =
     prepareTableRead C sched storage settings optimizer max_threads w) /\
  (max_threads mod 4294967296 <= 1 ->
   forall sched sched' w,
     prepareTableRead C sched storage settings optimizer max_threads w =
     prepareTableRead C sched' storage settings optimizer max_threads w).
Proof.
  intros Hrange. split.
  - intros sched max_threads' w Hrange' Hmod. unfold prepareTableRead. cbv zeta.
    unfold to_unsigned. rewrite !(Z.mod_small _ size_t_modulus) by assumption.
    rewrite Hmod. reflexivity.
  - intros Hle sched sched' w. unfold prepareTableRead. cbv zeta.
    unfold mbind, M_bind.
    rewrite (prepareReadContext_sequential C sched sched'); [reflexivity|].
    unfold to_unsigned. rewrite (Z.mod_small _ size_t_modulus) by assumption. exact Hle.
Qed.

Lemma prepareTableRead_budget_modulo_witness :
  prepareTableRead Demo.three_days [Start 2; Commit 0] Demo.parquet_table (Demo.settings 0)
    Demo.no_conds 4294967296 Demo.empty_world =
  prepareTableRead Demo.three_days [] Demo.parquet_table (Demo.settings 0)
    Demo.no_conds 4294967296 Demo.empty_world.
Proof.
  assert (Hrange : 0 <= 4294967296 < size_t_modulus) by (vm_compute; split; discriminate || reflexivity).
  apply (proj2 (prepareTableRead_budget_modulo Demo.three_days Demo.parquet_table
                  (Demo.settings 0) Demo.no_conds 4294967296 Hrange)).
  vm_compute. discriminate.
Defined.

(** ** getQueryProcessingStage *)

(** X18: unless one of the two settings asks for it, the stage is Complete
    only with a worker group, and then, as long as the product of its
    shards and [max_parallel_replicas] fits 64 bits, exactly when there is
    one shard and one replica. *)
Theorem getQueryProcessingStage_complete (local_settings : DistributedSettings)
    (worker_group : option Z) :
  (forall num_workers,
     worker_group = Some num_workers ->
     0 <= num_workers /\ 0 <= max_parallel_replicas local_settings /\
     num_workers * max_parallel_replicas local_settings < size_t_modulus) ->
  getQueryProcessingStage local_settings worker_group = QueryProcessingStage.Complete <->
  distributed_perfect_shard local_settings = true \/
  distributed_group_by_no_merge local_settings = true \/
  (worker_group = Some 1 /\ max_parallel_replicas local_settings = 1).
Proof.
  intros Hfit. unfold getQueryProcessingStage.
  destruct (distributed_perfect_shard local_settings); [simpl; tauto|].
  destruct (distributed_group_by_no_merge local_settings); [simpl; tauto|].
  simpl. destruct worker_group as [num_workers|].
  - destruct (Hfit _ eq_refl) as (Hn & Hr & Hlt). cbv zeta.
    rewrite Z.mod_small by (split; [apply Z.mul_nonneg_nonneg; assumption | exact Hlt]).
    destruct (Z.eqb_spec (num_workers * max_parallel_replicas local_settings) 1) as [E|E].
    + split; [|reflexivity]. intros _. right. right.
      destruct (Z.eq_mul_1_nonneg _ _ Hn E) as [-> ->]. auto.
    + split; [discriminate|]. intros [[=]|[[=]|[[= ->] Hr1]]]. rewrite Hr1 in E. lia.
  - split; [discriminate|]. intros [[=]|[[=]|[[=] _]]].
Qed.

Lemma getQueryProcessingStage_complete_witness :
  getQueryProcessingStage
    {| distributed_perfect_shard := false; distributed_group_by_no_merge := false;
       max_parallel_replicas := 1 |} (Some 1)
  = QueryProcessingStage.Complete.
Proof.
  apply getQueryProcessingStage_complete.
  - intros num_workers [= <-]. simpl. vm_compute. repeat split; discriminate.
  - right. right. split; reflexivity.
Defined.

(** ** The checks of ALTER *)

Lemma filter_idempotent {A : Type} (f : A -> bool) (l : list A) :
  List.filter f (List.filter f l) = List.filter f l.
Proof.
  induction l as [|x l IH]; simpl; [reflexivity|].
  destruct (f x) eqn:E; simpl; [rewrite E, IH|]; auto.
Qed.

Section AlterProofs.
Context {CnchHiveSettings : Type}.
Context (settings_set : CnchHiveSettings -> string -> Field -> option CnchHiveSettings).
Context (getName : string).

Lemma check_changes_app (settings_copy : CnchHiveSettings) (l1 l2 : list SettingChange) :
  check_changes settings_set settings_copy (l1 ++ l2) =
  (settings_copy' ← check_changes settings_set settings_copy l1;
   check_changes settings_set settings_copy' l2).
Proof.
  revert settings_copy. induction l1 as [|change l1 IH]; intros settings_copy; simpl.
  - reflexivity.
  - destruct (negb (is_supported (change_name change))); [reflexivity|].
    destruct (settings_set settings_copy _ _); [apply IH | reflexivity].
Qed.

(** The two loops come to one loop over the changes that are checked. *)
Lemma check_commands_changes (settings_copy : CnchHiveSettings)
    (commands : list AlterCommand) :
  check_commands settings_set settings_copy commands =
  check_changes settings_set settings_copy (changes_checked commands).
Proof.
  revert settings_copy. induction commands as [|command rest IH]; intros settings_copy.
  - reflexivity.
  - unfold changes_checked in *. simpl.
    destruct (is_MODIFY_SETTING command); simpl.
    + rewrite check_changes_app.
      destruct (check_changes settings_set settings_copy (settings_changes command));
        simpl; [apply IH | reflexivity].
    + apply IH.
Qed.

Lemma check_changes_returns (settings_copy : CnchHiveSettings)
    (changes : list SettingChange) :
  (forall s name v, is_supported name = true -> settings_set s name v <> None) ->
  (exists s, check_changes settings_set settings_copy changes = Returns s) <->
  Forall (fun change => is_supported (change_name change) = true) changes.
Proof.
  intros Hset. revert settings_copy.
  induction changes as [|change rest IH]; intros settings_copy; simpl.
  - split; [constructor | eauto].
  - destruct (is_supported (change_name change)) eqn:Hs; simpl.
    + destruct (settings_set settings_copy (change_name change) (change_value change))
        as [s'|] eqn:E; [|exfalso; eapply Hset; eassumption].
      rewrite IH. split; [constructor; assumption | intros H; inversion H; assumption].
    + split; [intros [s [=]] | intros H; inversion H; congruence].
Qed.

Lemma check_changes_unsupported (settings_copy : CnchHiveSettings)
    (changes : list SettingChange) (message : string) :
  check_changes settings_set settings_copy changes = Raises (SUPPORT_IS_DISABLED message) ->
  exists change,
    In change changes /\ is_supported (change_name change) = false /\
    message = ("Setting " +:+ change_name change +:+ " cannot be modified")%string.
Proof.
  revert settings_copy. induction changes as [|change rest IH]; intros settings_copy; simpl.
  - discriminate.
  - destruct (is_supported (change_name change)) eqn:Hs; simpl.
    + destruct (settings_set settings_copy _ _) as [s'|]; [|discriminate].
      intros H. destruct (IH _ H) as (c & Hin & Hc). exists c. auto.
    + intros [= <-]. exists change. auto.
Qed.

(** X19: [checkAlterSettings] looks at the changes of the commands of type
    MODIFY_SETTING and at nothing else; with a [set] that accepts the
    values, it returns exactly when each of these changes names one of the
    four supported settings, and the setting that SUPPORT_IS_DISABLED names
    is one of these changes that is not supported. *)
Theorem checkAlterSettings_supported (storage_settings : CnchHiveSettings)
    (commands : list AlterCommand) :
  checkAlterSettings settings_set storage_settings commands =
  checkAlterSettings settings_set storage_settings
    (List.filter is_MODIFY_SETTING commands) /\
  ((forall s name v, is_supported name = true -> settings_set s name v <> None) ->
   (checkAlterSettings settings_set storage_settings commands = Returns tt <->
    Forall (fun change => is_supported (change_name change) = true)
           (changes_checked commands))) /\
  (forall message,
     checkAlterSettings settings_set storage_settings commands
     = Raises (SUPPORT_IS_DISABLED message) ->
     exists change,
       In change (changes_checked commands) /\
       is_supported (change_name change) = false /\
       message = ("Setting " +:+ change_name change +:+ " cannot be modified")%string).
Proof.
  unfold checkAlterSettings. cbv zeta. rewrite !check_commands_changes.
  split; [|split].
  - unfold changes_checked. rewrite filter_idempotent. reflexivity.
  - intros Hset. rewrite <- (check_changes_returns storage_settings _ Hset).
    destruct (check_changes settings_set storage_settings (changes_checked commands));
      simpl; split; eauto; try discriminate. intros [s [=]].
  - intros message H. apply (check_changes_unsupported storage_settings).
    destruct (check_changes settings_set storage_settings (changes_checked commands));
      simpl in H; [discriminate | congruence].
Qed.

Lemma checkAlterIsPossible_returns (commands : list AlterCommand) :
  checkAlterIsPossible getName commands = Returns tt <->
  Forall (fun command => is_MODIFY_SETTING command = true) commands.
Proof.
  induction commands as [|command rest IH]; simpl.
  - split; [constructor | reflexivity].
  - destruct (command_type command) eqn:Htype.
    + rewrite IH. split.
      * intros H. constructor; [unfold is_MODIFY_SETTING; rewrite Htype; reflexivity | exact H].
      * intros H. inversion H; assumption.
    + split; [discriminate|]. intros H. inversion H as [|? ? Hc _].
      unfold is_MODIFY_SETTING in Hc. rewrite Htype in Hc. discriminate.
Qed.

(** X20: [checkAlterIsPossible] returns exactly when every command is of
    type MODIFY_SETTING; so an ALTER passes both checks, with a [set] that
    accepts the values, exactly when all it does is to modify supported
    settings, where [checkAlterSettings] alone lets any other command
    through. *)
Theorem alter_checks_pass (storage_settings : CnchHiveSettings)
    (commands : list AlterCommand) :
  (checkAlterIsPossible getName commands = Returns tt <->
   Forall (fun command => is_MODIFY_SETTING command = true) commands) /\
  ((forall s name v, is_supported name = true -> settings_set s name v <> None) ->
   (checkAlterIsPossible getName commands = Returns tt /\
    checkAlterSettings settings_set storage_settings commands = Returns tt <->
    Forall (fun command =>
              is_MODIFY_SETTING command = true /\
              Forall (fun change => is_supported (change_name change) = true)
                     (settings_changes command)) commands)) /\
  (Forall (fun command => is_MODIFY_SETTING command = false) commands ->
   checkAlterSettings settings_set storage_settings commands = Returns tt).
Proof.
  split; [apply checkAlterIsPossible_returns|]. split.
  - intros Hset. rewrite checkAlterIsPossible_returns.
    unfold checkAlterSettings. cbv zeta. rewrite check_commands_changes.
    assert (Hret : check_changes settings_set storage_settings (changes_checked commands)
                   ≫= (fun _ => mret tt) = Returns tt <->
                   Forall (fun change => is_supported (change_name change) = true)
                          (changes_checked commands)).
    { rewrite <- (check_changes_returns storage_settings _ Hset).
      destruct (check_changes settings_set storage_settings (changes_checked commands));
        simpl; split; eauto; try discriminate. intros [s [=]]. }
    rewrite Hret. clear Hret. unfold changes_checked.
    induction commands as [|command rest IH]; simpl.
    + split; [constructor | split; constructor].
    + rewrite !Forall_cons.
      destruct (is_MODIFY_SETTING command) eqn:Hm; simpl.
      * rewrite Forall_app. tauto.
      * split; intros H; exfalso; intuition discriminate.
  - intros Hother. unfold checkAlterSettings. cbv zeta. rewrite check_commands_changes.
    replace (changes_checked commands) with (@nil SettingChange); [reflexivity|].
    unfold changes_checked. induction Hother as [|command rest Hc _ IH]; simpl.
    + reflexivity.
    + rewrite Hc. exact IH.
Qed.
End AlterProofs.

Lemma checkAlterSettings_supported_witness :
  checkAlterSettings (fun (s : unit) _ _ => Some s) tt
    [ {| command_type := OtherAlter "ADD_COLUMN";
         settings_changes := [ {| change_name := "index_granularity";
                                  change_value := FUInt64 1 |} ] |};
      {| command_type := MODIFY_SETTING;
         settings_changes := [ {| change_name := "cnch_vw_default";
                                  change_value := FString "vw" |} ] |} ]
  = Returns tt.
Proof.
  apply (proj1 (proj2 (checkAlterSettings_supported (fun (s : unit) _ _ => Some s) tt _))).
  - discriminate.
  - repeat constructor.
Defined.

Lemma alter_checks_pass_witness :
  checkAlterSettings (fun (s : unit) _ _ => Some s) tt
    [ {| command_type := OtherAlter "DROP_COLUMN";
         settings_changes := [ {| change_name := "anything";
                                  change_value := FNull |} ] |} ]
  = Returns tt.
Proof.
  apply (proj2 (proj2 (alter_checks_pass (fun (s : unit) _ _ => Some s) "CnchHive" tt _))).
  repeat constructor.
Defined.

(** ** Construction and startup *)

Section ConstructionProofs.
Context {Client Table Metadata : Type}.
Context (getOrCreate : string -> Outcome Client).
Context (getTable : Client -> Outcome Table).
Context (columns_empty : Metadata -> bool).
Context (convert : Table -> Metadata -> Outcome Metadata).
Context (check : Table -> Metadata -> Outcome unit).

Local Abbreviation construct' :=
  (construct getOrCreate getTable columns_empty convert check).
Local Abbreviation answer := (metastore_answer getOrCreate getTable).

(** X21: the constructor keeps a failure of the metastore for [startup]:
    when the metastore does not answer, construction returns a storage
    without table and without metadata, and [startup] throws the exception of
    the metastore, each time it is called; when the metastore answers,
    construction throws only what the schema converter throws, and a storage
    it returns holds the table and metadata and starts up.  Without metadata
    the metastore is not asked. *)
Theorem construction_defers_metastore_failure (hive_metastore_url : string)
    (meta_client : option Client) (metadata_ : Metadata) :
  match answer hive_metastore_url meta_client with
  | Raises e =>
    exists this,
      construct' hive_metastore_url meta_client (Some metadata_) = Returns this /\
      hive_table this = None /\ in_memory this = None /\
      startup this = Raises e
  | Returns table =>
    match construct' hive_metastore_url meta_client (Some metadata_) with
    | Returns this =>
      hive_table this = Some table /\ in_memory this <> None /\ startup this = Returns tt
    | Raises e =>
      if columns_empty metadata_ then convert table metadata_ = Raises e
      else check table metadata_ = Raises e
    end
  end /\
  exists this,
    construct' hive_metastore_url meta_client None = Returns this /\
    hive_table this = None /\ startup this = Returns tt.
Proof.
  split.
  - unfold metastore_answer, construct, initialize. simpl.
    destruct meta_client as [client|]; simpl.
    + destruct (getTable client) as [table|e]; simpl.
      * destruct (columns_empty metadata_).
        -- destruct (convert table metadata_); simpl; [|reflexivity].
           repeat split. discriminate.
        -- destruct (check table metadata_); simpl; [|reflexivity].
           repeat split. discriminate.
      * eexists. repeat split.
    + destruct (getOrCreate hive_metastore_url) as [client|e]; simpl.
      * destruct (getTable client) as [table|e]; simpl.
        -- destruct (columns_empty metadata_).
           ++ destruct (convert table metadata_); simpl; [|reflexivity].
              repeat split. discriminate.
           ++ destruct (check table metadata_); simpl; [|reflexivity].
              repeat split. discriminate.
        -- eexists. repeat split.
      * eexists. repeat split.
  - eexists. repeat split.
Qed.
End ConstructionProofs.

(** ** The engine arguments *)

(** X22: the creator function gets through its engine arguments exactly
    when there are three and each evaluates to a string literal; any other
    number is NUMBER_OF_ARGUMENTS_DOESNT_MATCH before anything is
    evaluated; and with three, an argument that does not evaluate is
    reported before an argument that is no string. *)
Theorem engine_arguments_three_strings (C : Collaborators) (engine_args : list AST) :
  let evaluate := evaluateConstantExpressionOrIdentifierAsLiteral C in
  (forall url db table,
     engine_arguments C engine_args = Returns (url, db, table) <->
     exists arg0 arg1 arg2,
       engine_args = [arg0; arg1; arg2] /\
       evaluate arg0 = Some (FString url) /\
       evaluate arg1 = Some (FString db) /\
       evaluate arg2 = Some (FString table)) /\
  (length engine_args <> 3%nat ->
   exists message, engine_arguments C engine_args
                   = Raises (NUMBER_OF_ARGUMENTS_DOESNT_MATCH message)) /\
  (length engine_args = 3%nat ->
   Exists (fun arg => evaluate arg = None) engine_args ->
   engine_arguments C engine_args
   = Raises (Raised (EXTERNAL "evaluateConstantExpressionOrIdentifierAsLiteral"))).
Proof.
  intros evaluate. subst evaluate. split; [|split].
  - intros url db table. split.
    + destruct engine_args as [|arg0 [|arg1 [|arg2 [|arg3 rest]]]];
        try (simpl; discriminate).
      unfold engine_arguments.
      destruct (evaluateConstantExpressionOrIdentifierAsLiteral C arg0) as [l0|] eqn:E0;
        [|simpl; discriminate].
      destruct (evaluateConstantExpressionOrIdentifierAsLiteral C arg1) as [l1|] eqn:E1;
        [|simpl; discriminate].
      destruct (evaluateConstantExpressionOrIdentifierAsLiteral C arg2) as [l2|] eqn:E2;
        [|simpl; discriminate].
      simpl. destruct l0; try (simpl; discriminate).
      destruct l1; try (simpl; discriminate).
      destruct l2; try (simpl; discriminate). simpl. intros [= <- <- <-].
      exists arg0, arg1, arg2. auto.
    + intros (arg0 & arg1 & arg2 & -> & H0 & H1 & H2). unfold engine_arguments.
      rewrite H0, H1, H2. reflexivity.
  - intros Hlen.
    destruct engine_args as [|arg0 [|arg1 [|arg2 [|arg3 rest]]]];
      try (eexists; reflexivity). contradiction.
  - intros Hlen Hex.
    destruct engine_args as [|arg0 [|arg1 [|arg2 [|arg3 rest]]]]; try discriminate.
    unfold engine_arguments.
    destruct (evaluateConstantExpressionOrIdentifierAsLiteral C arg0) as [l0|] eqn:E0;
      [|reflexivity].
    destruct (evaluateConstantExpressionOrIdentifierAsLiteral C arg1) as [l1|] eqn:E1;
      [|reflexivity].
    destruct (evaluateConstantExpressionOrIdentifierAsLiteral C arg2) as [l2|] eqn:E2;
      [|reflexivity].
    exfalso. rewrite !Exists_cons, Exists_nil in Hex.
    destruct Hex as [H|[H|[H|[]]]]; congruence.
Qed.

Lemma engine_arguments_three_strings_witness :
  engine_arguments Demo.three_days
    [ASTLiteral (FUInt64 9083); ASTFunction "now" (Some []); ASTIdentifier "t"]
  = Raises (Raised (EXTERNAL "evaluateConstantExpressionOrIdentifierAsLiteral")).
Proof.
  apply (proj2 (proj2 (engine_arguments_three_strings Demo.three_days _))).
  - reflexivity.
  - apply Exists_cons. right. apply Exists_cons. left. reflexivity.
Defined.

(** ** serializeHiveFiles *)

Section SerializeProofs.
Context {ProtoHiveFile : Type}.
Context (serialize : HiveFile -> ProtoHiveFile).

Lemma add_files_run (proto : ProtoHiveFiles) (hive_files : HiveFiles) :
  add_files serialize proto hive_files =
  {| sd_url := sd_url proto;
     proto_files := proto_files proto ++ map serialize hive_files |}.
Proof.
  revert proto. induction hive_files as [|file rest IH]; intros proto; simpl.
  - rewrite app_nil_r. destruct proto; reflexivity.
  - rewrite IH. simpl. rewrite <- app_assoc. reflexivity.
Qed.

(** X23: serializing files in two calls adds the same file entries as one
    call on all of them; the [sd_url] is the same too when every file
    belongs to a partition at one location, and is then that location, but
    in general it is the location of the partition of the first file of the
    last call that begins with a file of a partition. *)
Theorem serializeHiveFiles_in_two_calls (proto : ProtoHiveFiles) (files1 files2 : HiveFiles) :
  let twice := serializeHiveFiles serialize (serializeHiveFiles serialize proto files1) files2 in
  let once := serializeHiveFiles serialize proto (files1 ++ files2) in
  proto_files twice = proto_files once /\
  proto_files once = proto_files proto ++ map serialize (files1 ++ files2) /\
  (forall url,
     files1 ++ files2 <> [] ->
     Forall (fun file => exists p, partition file = Some p /\ location p = url)
            (files1 ++ files2) ->
     sd_url twice = Some url /\ sd_url once = Some url) /\
  (forall file rest p,
     files2 = file :: rest -> partition file = Some p ->
     sd_url twice = Some (location p)).
Proof.
  intros twice once. subst twice once. unfold serializeHiveFiles.
  rewrite !add_files_run. simpl.
  split; [|split; [|split]].
  - destruct files1 as [|f1 r1], files2 as [|f2 r2]; simpl;
      repeat match goal with |- context [partition ?f] => destruct (partition f) end;
      simpl; rewrite ?app_nil_r, ?map_app, <- ?app_assoc; reflexivity.
  - destruct (files1 ++ files2) as [|f r]; [reflexivity|].
    destruct (partition f); reflexivity.
  - intros url Hne Hall.
    destruct files1 as [|f1 r1]; simpl in *.
    + destruct files2 as [|f2 r2]; [contradiction|].
      apply Forall_cons in Hall as [(p & -> & <-) _]. split; reflexivity.
    + apply Forall_cons in Hall as [(p & Hp & <-) Hall]. rewrite Hp. simpl.
      split; [|reflexivity].
      destruct files2 as [|f2 r2]; [reflexivity|].
      apply Forall_app in Hall as [_ Hall].
      apply Forall_cons in Hall as [(p2 & -> & Hloc) _]. simpl. congruence.
  - intros file rest p -> Hp. rewrite Hp. reflexivity.
Qed.
End SerializeProofs.

Lemma serializeHiveFiles_in_two_calls_witness :
  let p1 := Demo.partition_of (Demo.day "1") in
  let p2 := Demo.partition_of (Demo.day "2") in
  let file p := {| file_path := location p; format := ORC; partition := Some p |} in
  let empty : ProtoHiveFiles (ProtoHiveFile := string) := {| sd_url := None; proto_files := [] |} in
  sd_url (serializeHiveFiles file_path (serializeHiveFiles file_path empty [file p1])
            [file p2])
  = Some "/warehouse/t/d=2"%string /\
  sd_url (serializeHiveFiles file_path empty ([file p1] ++ [file p2]))
  = Some "/warehouse/t/d=1"%string.
Proof.
  intros p1 p2 file empty. split; [|reflexivity].
  exact (proj2 (proj2 (proj2 (serializeHiveFiles_in_two_calls file_path empty
                                [file p1] [file p2])))
           (file p2) [] p2 eq_refl eq_refl).
Defined.

(** ** getPartitionLastModificationTime *)

Section LastModificationProofs.
Context (C : Collaborators) (store : HivePartition -> string).

Lemma modification_times_map (binary_format : bool) (apache : list ApachePartition)
    (acc : list (string * Z)) :
  modification_times C store binary_format apache acc =
  acc ++ map (fun ap =>
                ((if binary_format then store (load C ap) else partition_id (load C ap)),
                 to_UInt64 (lastAccessTime ap))) apache.
Proof.
  revert acc. induction apache as [|ap apache IH]; intros acc; simpl.
  - rewrite app_nil_r. reflexivity.
  - rewrite IH, <- app_assoc. destruct binary_format; reflexivity.
Qed.

(** X24: [getPartitionLastModificationTime] asks the metastore with an
    empty filter and returns one entry for each partition reported, in
    order; without binary format the keys are the ids of the partitions
    that [selectPartitions] returns for a table with partition key when
    neither the metastore filter nor the local pruner is on, and the time of
    an entry is the [lastAccessTime] of the metastore as a [UInt64]. *)
Theorem getPartitionLastModificationTime_entries (binary_format : bool)
    (storage : StorageCnchHive) (settings : Settings) (metadata_snapshot : StorageMetadata)
    (optimizer : HiveWhereOptimizer) (w : World) :
  hasPartitionKey metadata_snapshot = true ->
  use_hive_metastore_filter settings = false ->
  use_hive_partition_filter settings = false ->
  exists entries partitions,
    getPartitionLastModificationTime C store binary_format w
    = (Ok entries, log_metastore_request EmptyString w) /\
    selectPartitions C storage settings metadata_snapshot optimizer w
    = (Ok partitions, log_metastore_request EmptyString w) /\
    length entries = length (getPartitionsByFilter C EmptyString) /\
    map snd entries
    = map (fun ap => to_UInt64 (lastAccessTime ap)) (getPartitionsByFilter C EmptyString) /\
    map fst entries
    = map (if binary_format then store else partition_id) partitions.
Proof.
  intros Hkey Hfilter Hpruner.
  rewrite selectPartitions_partitioned by exact Hkey.
  unfold metastore_filter. rewrite Hfilter, Hpruner.
  rewrite filter_all by reflexivity.
  eexists _, _. split; [reflexivity|]. split; [reflexivity|].
  rewrite modification_times_map. simpl.
  rewrite length_map, !map_map. repeat split.
  destruct binary_format; reflexivity.
Qed.
End LastModificationProofs.

Lemma getPartitionLastModificationTime_entries_witness :
  fst (getPartitionLastModificationTime Demo.three_days location false Demo.empty_world)
  = Ok [("d=1"%string, 0); ("d=2"%string, 0); ("d=3"%string, 0)].
Proof.
  destruct (getPartitionLastModificationTime_entries Demo.three_days location false
              Demo.parquet_table
              {| max_partitions_to_read := 0; use_hive_metastore_filter := false;
                 use_hive_partition_filter := false; use_hive_cluster_key_filter := false |}
              Demo.partitioned Demo.no_conds Demo.empty_world eq_refl eq_refl eq_refl)
    as (entries & partitions & Hrun & _).
  rewrite Hrun. simpl. injection Hrun as <-. reflexivity.
Defined.

(** ** applyFilter *)

(** X25: with [external_enable_partition_filter_push_down] off,
    [applyFilter] does not look at the filter it is given: its result and
    what it does to the query are the same for every filter, no partition
    filter is added, and when no promotion to PREWHERE takes place the
    WHERE of the query and the filter returned are the conjunction of no
    conjunct. *)
Theorem applyFilter_without_push_down (F : FilterCollaborators) (settings : FilterSettings)
    (query_filter query_filter' : AST) (query_info : QueryInfo) :
  external_enable_partition_filter_push_down settings = false ->
  applyFilter F settings query_filter query_info
  = applyFilter F settings query_filter' query_info /\
  partition_filters (snd (applyFilter F settings query_filter query_info))
  = partition_filters query_info /\
  (select_prewhere (select_query query_info) = None ->
   hive_move_to_prewhere_method settings = NEVER ->
   applyFilter F settings query_filter query_info
   = (Returns (combineConjuncts F []),
      {| select_query :=
           {| select_where := Some (combineConjuncts F []);
              select_prewhere := None;
              select_final := select_final (select_query query_info) |};
         partition_filters := partition_filters query_info |})).
Proof.
  intros Hoff. unfold applyFilter. rewrite Hoff. split; [reflexivity|]. split.
  - simpl. repeat (case_match_goal; simpl in *; try discriminate); reflexivity.
  - intros Hnone Hnever. simpl. rewrite Hnone, Hnever. simpl.
    repeat (case_match_goal; simpl in *; try discriminate); reflexivity.
Qed.

Lemma applyFilter_without_push_down_witness :
  applyFilter Filters.collaborators (Filters.settings false NEVER)
    (ASTFunction "and" (Some [Demo.equals "d" 1; Demo.equals "a" 2])) (Filters.query None)
  = (Returns (ASTLiteral (FUInt64 1)),
     {| select_query :=
          {| select_where := Some (ASTLiteral (FUInt64 1));
             select_prewhere := None; select_final := false |};
        partition_filters := [] |}).
Proof.
  exact (proj2 (proj2 (applyFilter_without_push_down Filters.collaborators
                         (Filters.settings false NEVER)
                         (ASTFunction "and" (Some [Demo.equals "d" 1; Demo.equals "a" 2]))
                         (ASTLiteral FNull) (Filters.query None) eq_refl))
           eq_refl eq_refl).
Defined.

(** X26: [applyFilter] never replaces a PREWHERE that the query already
    has: it returns, whatever the promotion method, even one it does not
    know, and what it returns is the remaining conjuncts less those of that
    PREWHERE.  It throws nothing but NOT_IMPLEMENTED, and that only for an
    unknown method on a query without PREWHERE for which promotion is on. *)
Theorem applyFilter_keeps_prewhere (F : FilterCollaborators) (settings : FilterSettings)
    (query_filter : AST) (query_info : QueryInfo) :
  let conjuncts :=
    if external_enable_partition_filter_push_down settings
    then snd (extractPartitionFilter F query_filter) else [] in
  (forall prewhere,
     select_prewhere (select_query query_info) = Some prewhere ->
     fst (applyFilter F settings query_filter query_info)
     = Returns (combineConjuncts F (subtract F conjuncts (extractConjuncts F prewhere))) /\
     select_prewhere (select_query (snd (applyFilter F settings query_filter query_info)))
     = Some prewhere) /\
  (forall e,
     fst (applyFilter F settings query_filter query_info) = Raises e ->
     e = NOT_IMPLEMENTED "Unimplemented move to prewhere method" /\
     hive_move_to_prewhere_method settings = OtherMethod /\
     select_prewhere (select_query query_info) = None /\
     supportsPrewhere F = true /\ optimize_move_to_prewhere settings = true /\
     (select_final (select_query query_info) = false \/
      optimize_move_to_prewhere_if_final settings = true)).
Proof.
  intros conjuncts. subst conjuncts. unfold applyFilter.
  set (conjuncts := if external_enable_partition_filter_push_down settings
                    then snd (extractPartitionFilter F query_filter) else []).
  assert (Hsplit :
    (let '(conjuncts, filters) :=
       if external_enable_partition_filter_push_down settings
       then let '(push_predicates, remain_predicates) :=
              extractPartitionFilter F query_filter in
            (remain_predicates, partition_filters query_info ++ push_predicates)
       else ([], partition_filters query_info) in conjuncts) = conjuncts).
  { subst conjuncts. destruct (external_enable_partition_filter_push_down settings);
      [destruct (extractPartitionFilter F query_filter)|]; reflexivity. }
  destruct (if external_enable_partition_filter_push_down settings
            then let '(push_predicates, remain_predicates) :=
                   extractPartitionFilter F query_filter in
                 (remain_predicates, partition_filters query_info ++ push_predicates)
            else ([], partition_filters query_info)) as [conjuncts' filters].
  simpl in Hsplit. subst conjuncts'. simpl. split.
  - intros prewhere Hp. rewrite Hp. simpl. rewrite !Bool.andb_false_r. simpl.
    split; reflexivity.
  - intros e.
    destruct (supportsPrewhere F), (optimize_move_to_prewhere settings),
      (select_prewhere (select_query query_info)) as [p|] eqn:Hp,
      (select_final (select_query query_info)),
      (optimize_move_to_prewhere_if_final settings),
      (hive_move_to_prewhere_method settings); simpl;
      repeat (case_match_goal; simpl in *; try discriminate);
      intros [= <-]; repeat split; auto.
Qed.

Lemma applyFilter_keeps_prewhere_witness :
  fst (applyFilter Filters.collaborators (Filters.settings true OtherMethod)
         (ASTFunction "and" (Some [Demo.equals "d" 1; Demo.equals "a" 2]))
         (Filters.query (Some (Demo.equals "a" 2))))
  = Returns (Demo.equals "a" 2).
Proof.
  pose proof (applyFilter_keeps_prewhere Filters.collaborators
                (Filters.settings true OtherMethod)
                (ASTFunction "and" (Some [Demo.equals "d" 1; Demo.equals "a" 2]))
                (Filters.query (Some (Demo.equals "a" 2)))) as H.
  cbv zeta in H. destruct H as [H _].
  destruct (H (Demo.equals "a" 2) eq_refl) as [-> _]. reflexivity.
Defined.

(** ** The bucket resolver: what makes it throw *)

(** X27: a conjunct [equals(x, y)] whose first argument evaluates to a
    literal that is no string, such as [5 = a], makes the resolver throw
    BAD_GET once the walk reaches it through AND nodes, whether or not the
    columns are already bound and whatever follows: the resolver then
    neither returns a bucket nor none. *)
Theorem resolver_throws_on_literal_first (C : Collaborators) (storage : StorageCnchHive)
    (metadata_snapshot : StorageMetadata) (partition_conds : option AST)
    (before after : list AST) (child0 child1 : AST) (literal v : Field)
    (columns : MutableColumns) :
  let block := cluster_by_required_columns metadata_snapshot in
  isBucketTable storage = true ->
  parse_children C block before (unbound_columns block) = Ok columns ->
  evaluateConstantExpressionOrIdentifierAsLiteral C child0 = Some literal ->
  evaluateConstantExpressionOrIdentifierAsLiteral C child1 = Some v ->
  (forall s, literal <> FString s) ->
  getSelectedBucketNumber C storage metadata_snapshot
    {| partition_key_conds := partition_conds;
       cluster_key_conds :=
         Some (ASTFunction "and"
                 (Some (before ++ ASTFunction "equals" (Some [child0; child1]) :: after))) |}
  = Throw BAD_GET.
Proof.
  intros block Hbucket Hbefore H0 H1 Hliteral.
  unfold getSelectedBucketNumber. rewrite Hbucket. simpl negb. cbv iota.
  simpl cluster_key_conds. cbv iota zeta. fold block. fold (unbound_columns block).
  rewrite parse_and, parse_children_app, Hbefore. simpl.
  unfold bind_equals. rewrite H0, H1. simpl.
  destruct literal; try reflexivity. exfalso. eapply Hliteral. reflexivity.
Qed.

Lemma resolver_throws_on_literal_first_witness :
  getSelectedBucketNumber Demo.three_days Demo.bucket_table Demo.bucketed
    {| partition_key_conds := None;
       cluster_key_conds :=
         Some (ASTFunction "and"
                 (Some ([Demo.equals "a" 1; Demo.equals "b" 2] ++
                        ASTFunction "equals"
                          (Some [ASTLiteral (FUInt64 5); ASTIdentifier "a"]) :: []))) |}
  = Throw BAD_GET.
Proof.
  apply (resolver_throws_on_literal_first Demo.three_days Demo.bucket_table Demo.bucketed
           None [Demo.equals "a" 1; Demo.equals "b" 2] []
           (ASTLiteral (FUInt64 5)) (ASTIdentifier "a") (FUInt64 5) (FString "a")
           [[FUInt64 1]; [FUInt64 2]]).
  - reflexivity.
  - vm_compute. reflexivity.
  - reflexivity.
  - reflexivity.
  - discriminate.
Defined.

(** ** The bucket stage on a file set *)

Lemma index_fits_fits_bucket (b : Z) (file : HiveFile) :
  index_fits b file = true <-> fits_bucket b file.
Proof.
  unfold index_fits, fits_bucket.
  destruct (get_file_hash_index (file_path file)) as [[i|]|e].
  - destruct (Z.eqb_spec i b) as [->|Hne]; split.
    + intros _. right. reflexivity.
    + reflexivity.
    + discriminate.
    + intros [[=]|[= ->]]. contradiction.
  - split; [intros _; left; reflexivity | reflexivity].
  - split; [discriminate | intros [[=]|[=]]].
Qed.

Lemma prune_files_keeps_exactly (b : Z) (files : HiveFiles) :
  (Forall (fun file => get_file_hash_index (file_path file) <> Throw out_of_range) files ->
   prune_files (Some b) files = Ok (List.filter (index_fits b) files)) /\
  (Exists (fun file => get_file_hash_index (file_path file) = Throw out_of_range) files ->
   prune_files (Some b) files = Throw out_of_range).
Proof.
  induction files as [|file files [IHall IHsome]].
  - split; [reflexivity | intros H; inversion H].
  - rewrite prune_files_cons. unfold prune_predicate. simpl List.filter.
    unfold index_fits at 1. rewrite Forall_cons, Exists_cons.
    destruct (get_file_hash_index (file_path file)) as [[i|]|e] eqn:E; simpl.
    + split.
      * intros [_ H]. rewrite (IHall H).
        unfold mret, Res_ret. destruct (i =? b); reflexivity.
      * intros [[=]|H]. rewrite (IHsome H). reflexivity.
    + split.
      * intros [_ H]. rewrite (IHall H). reflexivity.
      * intros [[=]|H]. rewrite (IHsome H). reflexivity.
    + rewrite (get_file_hash_index_throws_out_of_range _ _ E). split.
      * intros [H _]. contradiction.
      * reflexivity.
Qed.

(** X28: the bucket stage of planning, for a bucket table with the cluster
    key filter on and a resolved bucket [b].  It leaves the outside world
    alone.  When the hash index of every file can be read, it returns the
    files whose hash index is unknown or is [b], each as often as it came and
    in the order it came: a file is dropped exactly when its hash index is
    known and differs from [b].  When reading the hash index of some file
    throws, the stage throws [std::out_of_range] and returns no file. *)
Theorem prune_by_bucket_keeps_exactly (C : Collaborators) (storage : StorageCnchHive)
    (settings : Settings) (metadata_snapshot : StorageMetadata)
    (optimizer : HiveWhereOptimizer) (hive_files : HiveFiles) (w : World) (b : Z) :
  isBucketTable storage = true ->
  use_hive_cluster_key_filter settings = true ->
  getSelectedBucketNumber C storage metadata_snapshot optimizer = Ok (Some b) ->
  let stage :=
    prune_by_bucket C storage settings metadata_snapshot optimizer hive_files w in
  snd stage = w /\
  (Forall (fun file => get_file_hash_index (file_path file) <> Throw out_of_range)
          hive_files ->
   fst stage = Ok (List.filter (index_fits b) hive_files) /\
   forall file,
     In file hive_files ->
     (In file (List.filter (index_fits b) hive_files) <->
      ~ exists i, get_file_hash_index (file_path file) = Ok (Some i) /\ i <> b)) /\
  (Exists (fun file => get_file_hash_index (file_path file) = Throw out_of_range)
          hive_files ->
   fst stage = Throw out_of_range).
Proof.
  intros Hbucket Hfilter Hresolved stage. subst stage.
  rewrite prune_by_bucket_pure. unfold prune_by_bucket_result.
  rewrite Hbucket, Hfilter, Hresolved. simpl.
  destruct (prune_files_keeps_exactly b hive_files) as [Hall Hsome].
  split; [reflexivity|]. split; [|exact Hsome].
  intros Hread. split; [exact (Hall Hread)|].
  intros file Hin. rewrite List.filter_In.
  rewrite List.Forall_forall in Hread. specialize (Hread file Hin).
  unfold index_fits.
  destruct (get_file_hash_index (file_path file)) as [[i|]|e] eqn:E.
  - destruct (Z.eqb_spec i b) as [->|Hne]; split.
    + intros _ (j & [= <-] & Hj). contradiction.
    + intros _. split; [exact Hin | reflexivity].
    + intros [_ [=]].
    + intros H. exfalso. apply H. exists i. split; [reflexivity | exact Hne].
  - split.
    + intros _ (j & [=] & _).
    + intros _. split; [exact Hin | reflexivity].
  - rewrite (get_file_hash_index_throws_out_of_range _ _ E) in Hread. contradiction.
Qed.

Lemma prune_by_bucket_keeps_exactly_witness :
  fst (prune_by_bucket Tea.collaborators Demo.bucket_table (Demo.settings 0) Demo.bucketed
         Tea.optimizer
         [file_at "no_digits_here"; file_at "b_00001"; file_at tea_path; file_at "b_00001"]
         Demo.empty_world)
  = Ok [file_at "no_digits_here"; file_at "b_00001"; file_at "b_00001"].
Proof.
  destruct (prune_by_bucket_keeps_exactly Tea.collaborators Demo.bucket_table
              (Demo.settings 0) Demo.bucketed Tea.optimizer
              [file_at "no_digits_here"; file_at "b_00001"; file_at tea_path;
               file_at "b_00001"]
              Demo.empty_world 1 eq_refl eq_refl eq_refl) as (_ & Hall & _).
  cbv zeta in Hall. destruct Hall as [Hkept _].
  - repeat constructor; vm_compute; discriminate.
  - rewrite Hkept. vm_compute. reflexivity.
Defined.
